(** * Status reconciliation scripts: a shallow embedding and its properties

    The two scripts [attStatusPreventivos_cobranca.py] (keys are invoice and
    company id pairs) and [attStatusPreventivos_preventivos.py] (keys are
    order numbers) are embedded function by function.  Python [str] values are
    Rocq strings whose characters are read as code points below 256; Python
    [int] is [Z]; a [dict] used as a map is a [gmap]; the HTTP session is an
    explicit world of outcomes threaded through a small state and exception
    monad. *)

From Stdlib Require Import ZArith Ascii String.
From stdpp Require Import gmap strings pretty list.

Local Open Scope Z_scope.

(** ** Python built-ins used by the scripts *)

Module Py.

(** Exceptions the scripts can meet.  [JSONDecodeError] is the one of the
    [requests] package, a [RequestException]; [ValueError] and
    [AttributeError] are the built-in ones. *)
Inductive exn :=
| ConnectionError | Timeout | HTTPError | JSONDecodeError
| ValueError | AttributeError.

(** [isinstance(e, requests.RequestException)] *)
Definition is_RequestException (e : exn) : bool :=
  match e with
  | ConnectionError | Timeout | HTTPError | JSONDecodeError => true
  | ValueError | AttributeError => false
  end.

Inductive result (A : Type) :=
| Returns (a : A)
| Raises (e : exn).
Arguments Returns {A} a.
Arguments Raises {A} e.

Definition bind_result {A B} (r : result A) (k : A → result B) : result B :=
  match r with
  | Returns a => k a
  | Raises e => Raises e
  end.

(** [ch.isspace()] on code points below 256: the characters [str.strip()]
    removes. *)
Definition isspace (c : ascii) : bool :=
  let n := Z.of_N (N_of_ascii c) in
  ((9 <=? n) && (n <=? 13)) || ((28 <=? n) && (n <=? 32))
  || (n =? 133) || (n =? 160).

(** [ch.isdigit()] on code points below 256: ASCII digits and the three
    superscript digits of Latin-1. *)
Definition isdigit (c : ascii) : bool :=
  let n := Z.of_N (N_of_ascii c) in
  ((48 <=? n) && (n <=? 57)) || (n =? 178) || (n =? 179) || (n =? 185).

(** [ch.lower()] on code points below 256. *)
Definition lower_char (c : ascii) : ascii :=
  let n := Z.of_N (N_of_ascii c) in
  if ((65 <=? n) && (n <=? 90))
     || ((192 <=? n) && (n <=? 222) && negb (n =? 215))
  then ascii_of_N (Z.to_N (n + 32)) else c.

Fixpoint lower (s : string) : string :=
  match s with
  | EmptyString => EmptyString
  | String c r => String (lower_char c) (lower r)
  end.

Fixpoint lstrip (s : string) : string :=
  match s with
  | EmptyString => EmptyString
  | String c r => if isspace c then lstrip r else s
  end.

Fixpoint rstrip (s : string) : string :=
  match s with
  | EmptyString => EmptyString
  | String c r =>
      match rstrip r with
      | EmptyString => if isspace c then EmptyString else String c EmptyString
      | r' => String c r'
      end
  end.

(** [s.strip()] *)
Definition strip (s : string) : string := rstrip (lstrip s).

Fixpoint all_chars (p : ascii → bool) (s : string) : bool :=
  match s with
  | EmptyString => true
  | String c r => p c && all_chars p r
  end.

(** [s.isdigit()]: false on the empty string. *)
Definition str_isdigit (s : string) : bool :=
  match s with
  | EmptyString => false
  | _ => all_chars isdigit s
  end.

(** ["".join(ch for ch in s if p(ch))] *)
Fixpoint keep_chars (p : ascii → bool) (s : string) : string :=
  match s with
  | EmptyString => EmptyString
  | String c r => if p c then String c (keep_chars p r) else keep_chars p r
  end.

(** [s.endswith(suffix)] *)
Fixpoint endswith (s suffix : string) : bool :=
  if String.eqb s suffix then true
  else match s with
       | EmptyString => false
       | String _ r => endswith r suffix
       end.

(** [s[:-k]] for a positive literal [k]. *)
Definition drop_last (k : nat) (s : string) : string :=
  String.substring 0 (String.length s - k) s.

Fixpoint replicate_char (n : nat) (c : ascii) : string :=
  match n with
  | O => EmptyString
  | S n' => String c (replicate_char n' c)
  end.

(** [s.zfill(width)]: a leading sign stays in front of the padding. *)
Definition zfill (width : nat) (s : string) : string :=
  let pad := replicate_char (width - String.length s) "0"%char in
  match s with
  | String c r =>
      if (Ascii.eqb c "+" || Ascii.eqb c "-")%char then String c (pad +:+ r)
      else pad +:+ s
  | EmptyString => pad
  end.

(** [sep.join(parts)] *)
Definition join (sep : string) (parts : list string) : string :=
  String.concat sep parts.

(** [range(start, stop, step)], as the list of its elements. *)
Definition range (start stop step : Z) : result (list Z) :=
  if step =? 0 then Raises ValueError
  else
    let n :=
      if 0 <? step
      then (if start <? stop then (stop - start - 1) / step + 1 else 0)
      else (if stop <? start then (start - stop - 1) / (- step) + 1 else 0) in
    Returns ((λ k : nat, start + Z.of_nat k * step) <$> seq 0 (Z.to_nat n)).

(** [items[lo:hi]] with Python's treatment of negative and large bounds. *)
Definition slice {A} (items : list A) (lo hi : Z) : list A :=
  let len := Z.of_nat (length items) in
  let clamp k := if k <? 0 then Z.max 0 (k + len) else Z.min k len in
  take (Z.to_nat (clamp hi - clamp lo)) (drop (Z.to_nat (clamp lo)) items).

(** [list(dict.fromkeys(items))]: first occurrences, in order. *)
Definition dict_fromkeys `{EqDecision A} (items : list A) : list A :=
  foldl (λ acc x, if bool_decide (x ∈ acc) then acc else acc ++ [x]) [] items.

(** A Python float is observed by the scripts through three operations only:
    [pd.isna(f)], [f.is_integer()] with [int(f)], and [str(f)]. *)
Record pyfloat := {
  f_isnan : bool;
  f_integral : option Z;
  f_str : string;
}.

(** Raw values: what a sheet cell or a JSON scalar can hold. *)
Inductive value :=
| PyNone
| PyBool (b : bool)
| PyInt (z : Z)
| PyFloat (f : pyfloat)
| PyStr (s : string).

(** [str(v)] *)
Definition str (v : value) : string :=
  match v with
  | PyNone => "None"
  | PyBool true => "True"
  | PyBool false => "False"
  | PyInt z => pretty z
  | PyFloat f => f_str f
  | PyStr s => s
  end.

(** [bool(v)] *)
Definition truthy (v : value) : bool :=
  match v with
  | PyNone => false
  | PyBool b => b
  | PyInt z => negb (z =? 0)
  | PyFloat f => negb (bool_decide (f_integral f = Some 0))
  | PyStr s => negb (String.eqb s "")
  end.

(** [ch.isalpha()] on code points below 256: the ASCII letters, the two
    ordinal indicators, the micro sign and the accented letters of Latin-1
    (the multiplication and division signs are not letters). *)
Definition isalpha (c : ascii) : bool :=
  let n := Z.of_N (N_of_ascii c) in
  ((65 <=? n) && (n <=? 90)) || ((97 <=? n) && (n <=? 122))
  || (n =? 170) || (n =? 181) || (n =? 186)
  || ((192 <=? n) && (n <=? 214)) || ((216 <=? n) && (n <=? 246))
  || ((248 <=? n) && (n <=? 255)).

(** [sep in s] for a one-character [sep]. *)
Fixpoint contains_char (sep : ascii) (s : string) : bool :=
  match s with
  | EmptyString => false
  | String c r => Ascii.eqb c sep || contains_char sep r
  end.

(** [s.split(sep)[0]] for a one-character [sep]: the text before the first
    [sep], all of [s] when there is none. *)
Fixpoint before_char (sep : ascii) (s : string) : string :=
  match s with
  | EmptyString => EmptyString
  | String c r => if Ascii.eqb c sep then EmptyString else String c (before_char sep r)
  end.

(** [s.split(sep, 1)[1]] for a one-character [sep] that occurs in [s]: the
    text after the first [sep] (the empty string when there is none). *)
Fixpoint after_char (sep : ascii) (s : string) : string :=
  match s with
  | EmptyString => EmptyString
  | String c r => if Ascii.eqb c sep then r else after_char sep r
  end.

End Py.

(** ** Code shared verbatim by the two scripts *)

Module Shared.
Import Py.

Definition ENTREGUE_CODES : gset string := {[ "1"; "2"; "37"; "999" ]}.
Definition CANCELADO_CODES : gset string :=
  {[ "25"; "102"; "203"; "303"; "325"; "327" ]}.

(** The value of [",".join(sorted(ENTREGUE_CODES | CANCELADO_CODES, key=int))]. *)
Definition ALL_CODES : string := "1,2,25,37,102,203,303,325,327,999".

(** [chunked(items, size)]: the chunks the generator yields, or the
    [ValueError] that [range] raises for a zero step. *)
Definition chunked {A} (items : list A) (size : Z) : result (list (list A)) :=
  bind_result (range 0 (Z.of_nat (length items)) size)
    (λ starts, Returns ((λ i, slice items i (i + size)) <$> starts)).

(** *** The occurrence service's JSON documents

    A record is a JSON object; each sub-object the scripts read is either
    present or absent/null ([None], which [... or {}] turns into the empty
    object), and a scalar field that is absent is [PyNone]. *)
Record tipo_ocorrencia := { codigo : value }.
Record pedido_ref := { numero : value }.
Record embarque_ref := { embarque_pedido : option pedido_ref }.
Record item := {
  tipoOcorrencia : option tipo_ocorrencia;
  pedido : option pedido_ref;
  embarque : option embarque_ref;
}.

(** The response envelope: [respostas] and [totalPages], each absent or
    null as [None].  The type holds the bodies of the documented shape: an
    object whose [respostas] is a list of record objects and whose
    [totalPages] is an integer.  On a body of another shape the scripts
    raise ([AttributeError] from [.get] on a value that is no object,
    [ValueError] from [int] on a text that is no number); such bodies are no
    values of this type, so what is proved of a run that returns is proved
    for answers of the documented shape. *)
Record payload := {
  respostas : option (list item);
  totalPages : option Z;
}.

(** The literal [{"respostas": []}]. *)
Definition empty_payload : payload :=
  {| respostas := Some []; totalPages := None |}.

(** [payload.get("respostas", []) or []] *)
Definition payload_respostas (p : payload) : list item :=
  default [] (respostas p).

(** [int(payload.get("totalPages", 0) or 0)] *)
Definition payload_total_pages (p : payload) : Z :=
  default 0 (totalPages p).

Definition extract_codigo (it : item) : string :=
  let codigo := match tipoOcorrencia it with
                | Some t => codigo t
                | None => PyNone
                end in
  match codigo with
  | PyNone => ""
  | _ => strip (str codigo)
  end.

(** *** The HTTP session as a world of outcomes

    Every effect of a run is appended to a trace; the world answers each
    call from the trace so far (which ends with the call being answered).
    An [EvGet] is one call of [session.get] by the script, an [EvLogin] one
    call of [authenticate], an [EvSleep] one call of [time.sleep] by the
    script.  The session is the one [make_session] builds: its adapter
    retries a call on the wire by itself (up to three more times, with a
    back-off of its own, on connection and read errors and on the statuses
    429, 500, 502, 503 and 504, without raising on the status).  What
    [session.get] returns or raises in the end is the outcome the world
    gives for the call: the requests and the sleeps of a trace are the
    calls the script makes, not the traffic on the wire. *)
Record request := {
  req_params : gmap string value;
  req_authorization : option string;
}.

Inductive event :=
| EvLogin
| EvGet (r : request)
| EvSleep (seconds : Z).

(** [response.json()] either parses or raises. *)
Inductive json_body :=
| JsonOk (p : payload)
| JsonRaises (e : exn).

Record response := {
  status_code : Z;
  json : json_body;
}.

(** A call of [session.get(...)], the adapter's retries included, returns a
    response or raises. *)
Inductive get_outcome :=
| GetResponse (r : response)
| GetRaises (e : exn).

(** The body of the [try] in [authenticate]: an exception, or the value of
    [response.json().get("resposta", {}).get("token")]. *)
Inductive login_outcome :=
| LoginRaises (e : exn)
| LoginToken (t : option string).

Record world := {
  http_get : list event → get_outcome;
  http_login : list event → login_outcome;
  (** the [de] and [ate] strings computed from [datetime.now()] *)
  clock : list event → string * string;
}.

(** The [ConfirmaFacilAPI] object together with the run's trace. *)
Record api := {
  token : option string;
  trace : list event;
}.

Definition M (A : Type) : Type := api → result A * api.

Definition ret {A} (a : A) : M A := λ s, (Returns a, s).
Definition raise {A} (e : exn) : M A := λ s, (Raises e, s).
Definition bind {A B} (k : A → M B) (m : M A) : M B :=
  λ s, match m s with
       | (Returns a, s') => k a s'
       | (Raises e, s') => (Raises e, s')
       end.

#[global] Instance M_ret : MRet M := @ret.
#[global] Instance M_bind : MBind M := @bind.

Definition emit (e : event) : M unit :=
  λ s, (Returns tt, {| token := token s; trace := trace s ++ [e] |}).
Definition get_token : M (option string) := λ s, (Returns (token s), s).
Definition set_token (t : option string) : M unit :=
  λ s, (Returns tt, {| token := t; trace := trace s |}).
Definition get_trace : M (list event) := λ s, (Returns (trace s), s).

(** [raise_for_status()] raises for the 4xx and 5xx codes. *)
Definition raise_for_status (r : response) : result unit :=
  if (400 <=? status_code r) && (status_code r <? 600)
  then Raises HTTPError else Returns tt.

(** [response.json()] *)
Definition response_json (r : response) : result payload :=
  match json r with
  | JsonOk p => Returns p
  | JsonRaises e => Raises e
  end.

(** [bool(self.token)] *)
Definition token_truthy (t : option string) : bool :=
  match t with
  | Some s => negb (String.eqb s "")
  | None => false
  end.

Section Api.
Variable w : world.

Definition authenticate : M bool :=
  emit EvLogin ;;
  tr ← get_trace;
  match http_login w tr with
  | LoginRaises _ => ret false
  | LoginToken t => set_token t ;; ret (token_truthy t)
  end.

(** [self.session.get(OCORR_URL, headers=headers, params=params, ...)] *)
Definition session_get (params : gmap string value)
    (authorization : option string) : M response :=
  emit (EvGet {| req_params := params; req_authorization := authorization |}) ;;
  tr ← get_trace;
  match http_get w tr with
  | GetResponse r => ret r
  | GetRaises e => raise e
  end.

Definition sleep (seconds : Z) : M unit := emit (EvSleep seconds).

(** The [for attempt in range(1, retries + 1)] loop of [_request], over the
    attempt numbers still to run; [authorization] is the local header. *)
Fixpoint request_loop (params : gmap string value) (retries : Z)
    (attempts : list Z) (authorization : option string) : M payload :=
  match attempts with
  | [] => ret empty_payload
  | attempt :: rest =>
      response ← session_get params authorization;
      if status_code response =? 401 then
        ok ← authenticate;
        if negb ok then ret empty_payload
        else
          t ← get_token;
          request_loop params retries rest t
      else if status_code response =? 404 then ret empty_payload
      else
        match bind_result (raise_for_status response)
                (λ _, response_json response) with
        | Returns p => ret p
        | Raises e =>
            if is_RequestException e then
              if attempt =? retries then ret empty_payload
              else sleep (2 * attempt) ;; request_loop params retries rest authorization
            else raise e
        end
  end.

Definition _request (params : gmap string value) (retries : Z) : M payload :=
  authorization ← get_token;
  match range 1 (retries + 1) 1 with
  | Returns attempts => request_loop params retries attempts authorization
  | Raises e => raise e
  end.

(** [ConfirmaFacilAPI()]: the constructor authenticates once and drops the
    answer. *)
Definition new_api : M unit :=
  set_token None ;; authenticate ;; ret tt.

End Api.

Definition initial_api : api := {| token := None; trace := [] |}.

(** *** The sheet update

    The arguments of the [values().update(...)] call that
    [update_status_in_sheet] makes: the range and the rows of the body. *)
Record sheet_update := {
  update_range : string;
  update_values : list (list string);
}.

End Shared.

(** ** [attStatusPreventivos_cobranca.py]: invoice and company id keys *)

Module Cobranca.
Import Py Shared.

Definition normalize_nf (v : value) : string :=
  match v with
  | PyNone => ""
  | PyBool _ | PyInt _ => str v
  | PyFloat f =>
      if f_isnan f then ""
      else match f_integral f with
           | Some z => pretty z
           | None =>
               let text := strip (str v) in
               if endswith text ".0" && str_isdigit (drop_last 2 text)
               then drop_last 2 text else text
           end
  | PyStr _ =>
      let text := strip (str v) in
      if endswith text ".0" && str_isdigit (drop_last 2 text)
      then drop_last 2 text else text
  end.

Definition normalize_cnpj (v : value) : string :=
  let isna := match v with
              | PyNone => true
              | PyFloat f => f_isnan f
              | _ => false
              end in
  if isna then ""
  else
    let digits := keep_chars isdigit (str v) in
    if String.eqb digits "" then ""
    else if (String.length digits <? 14)%nat then zfill 14 digits
    else digits.

Section Run.
Variable w : world.

Definition fetch_ocorrencias (nf cnpj : string) : M (list item) :=
  let params : gmap string value :=
    list_to_map [ ("numero", PyStr nf);
                  ("cnpjEmbarcador", PyStr cnpj);
                  ("codigoOcorrencia", PyStr ALL_CODES) ] in
  payload ← _request w params 3;
  ret (payload_respostas payload).

(** The inner [for item in ocorrencias] loop of [resolver_status]: the
    pair of flags [(entregue, cancelado)] it leaves. *)
Definition scan (ocorrencias : list item) : bool * bool :=
  foldl (λ flags it,
           let codigo := extract_codigo it in
           (if bool_decide (codigo ∈ ENTREGUE_CODES) then true else flags.1,
            if bool_decide (codigo ∈ CANCELADO_CODES) then true else flags.2))
        (false, false) ocorrencias.

(** The [if entregue / elif cancelado / else] that follows the loop. *)
Definition classify (ocorrencias : list item) : string :=
  let flags := scan ocorrencias in
  if flags.1 then "ENTREGUE"
  else if flags.2 then "CANCELADO"
  else "-".

(** The [for nf, cnpj in pares] loop of [resolver_status]. *)
Fixpoint resolver_loop (pares : list (string * string))
    (status_map : gmap (string * string) string)
    : M (gmap (string * string) string) :=
  match pares with
  | [] => ret status_map
  | (nf, cnpj) :: rest =>
      ocorrencias ← fetch_ocorrencias nf cnpj;
      resolver_loop rest (<[(nf, cnpj) := classify ocorrencias]> status_map)
  end.

Definition resolver_status (pares : list (string * string))
    : M (gmap (string * string) string) :=
  new_api w ;; resolver_loop pares ∅.

End Run.

(** [row[i] if len(row) > i else ""] *)
Definition cell (row : list value) (i : nat) : value :=
  default (PyStr "") (row !! i).

(** [load_inputs_from_sheet], from the point where [values] has been read. *)
Definition load_inputs_from_sheet (values : list (list value))
    : list (string * string) * list (list value) * bool :=
  match values with
  | [] => ([], [], false)
  | first :: _ =>
      let header_nf :=
        match first !! 0%nat with
        | Some v => lower (strip (str v)) | None => "" end in
      let header_cnpj :=
        match first !! 1%nat with
        | Some v => lower (strip (str v)) | None => "" end in
      let has_header :=
        bool_decide (header_nf ∈ ({[ "nf"; "nota"; "nota fiscal"; "numero" ]} : gset string))
        || bool_decide (header_cnpj ∈ ({[ "cnpj"; "estabelecimento" ]} : gset string)) in
      let start_index := if has_header then 1%nat else 0%nat in
      let pares :=
        (λ row, (normalize_nf (cell row 0), normalize_cnpj (cell row 1)))
          <$> drop start_index values in
      (pares, values, has_header)
  end.

(** [if not nf or not cnpj] *)
Definition invalid (par : string * string) : bool :=
  String.eqb par.1 "" || String.eqb par.2 "".

(** The [statuses] list [main] builds from [pares] and [status_map]. *)
Definition statuses_of (pares : list (string * string))
    (status_map : gmap (string * string) string) : list string :=
  (λ par, if invalid par then "" else default "-" (status_map !! par))
    <$> pares.

(** [main] up to the call of [update_status_in_sheet]: the statuses handed
    to it, or [None] when [main] returns before that call. *)
Definition main (w : world) (values : list (list value))
    : M (option (list string)) :=
  let '(pares, raw_values, has_header) := load_inputs_from_sheet values in
  match raw_values with
  | [] => ret None
  | _ =>
      let pares_validos := filter (λ par, invalid par = false) pares in
      let pares_unicos := dict_fromkeys pares_validos in
      status_map ← resolver_status w pares_unicos;
      ret (Some (statuses_of pares status_map))
  end.

(** The default of [SHEET_RANGE_OUTPUT]. *)
Definition SHEET_RANGE_OUTPUT_DEFAULT : string := "RETORNO!K:K".

Definition build_output_range (output_range : string) (total_rows : Z) : string :=
  if negb (contains_char "!" output_range) then output_range
  else
    let sheet := before_char "!" output_range in
    let cols := after_char "!" output_range in
    let col := strip (before_char ":" cols) in
    let col_letters := keep_chars isalpha col in
    if String.eqb col_letters "" then output_range
    else
      let end_row := Z.max total_rows 1 in
      sheet +:+ "!" +:+ col_letters +:+ "1:" +:+ col_letters +:+ pretty end_row.

(** [update_status_in_sheet], as the update it sends; [sheet_range_output]
    is the value of [SHEET_RANGE_OUTPUT]. *)
Definition update_status_in_sheet (sheet_range_output : string)
    (total_rows : Z) (statuses : list string) (has_header : bool)
    : sheet_update :=
  let output_values :=
    (if has_header then [["STATUS"]] else []) ++ ((λ s, [s]) <$> statuses) in
  let output_range :=
    build_output_range sheet_range_output
      (Z.max total_rows (Z.of_nat (length output_values))) in
  {| update_range := output_range; update_values := output_values |}.

(** A row of the exported file: [{"NF": ..., "CNPJ": ..., "STATUS": ...}]. *)
Record export_row := { row_nf : string; row_cnpj : string; row_status : string }.

(** The [rows] list that [main] builds for the data frame. *)
Definition export_rows (pares_validos : list (string * string))
    (status_map : gmap (string * string) string) : list export_row :=
  (λ par, {| row_nf := par.1; row_cnpj := par.2;
             row_status := default "-" (status_map !! par) |})
    <$> pares_validos.

(** What a run of [main] writes: the sheet update, and the rows handed to
    [save_excel_safely] ([None] when the data frame is empty and nothing is
    saved). *)
Record written := {
  to_sheet : sheet_update;
  to_file : option (list export_row);
}.

(** [main] in full, once [has_cf_credentials] has passed and with [values]
    the rows that [load_inputs_from_sheet] read: [None] when it returns
    before writing anything. *)
Definition run_main (sheet_range_output : string) (w : world)
    (values : list (list value)) : M (option written) :=
  let '(pares, raw_values, has_header) := load_inputs_from_sheet values in
  match raw_values with
  | [] => ret None
  | _ =>
      let pares_validos := filter (λ par, invalid par = false) pares in
      let pares_unicos := dict_fromkeys pares_validos in
      status_map ← resolver_status w pares_unicos;
      let statuses := statuses_of pares status_map in
      let update :=
        update_status_in_sheet sheet_range_output
          (Z.of_nat (length raw_values)) statuses has_header in
      let rows := export_rows pares_validos status_map in
      ret (Some {| to_sheet := update;
                   to_file := match rows with [] => None | _ => Some rows end |})
  end.

End Cobranca.

(** ** [attStatusPreventivos_preventivos.py]: order number keys *)

Module Preventivos.
Import Py Shared.

Definition PAGE_SIZE : Z := 1000.
Definition SUBLOTE_SIZE : Z := 20.

Definition normalize_pedido (v : value) : string :=
  match v with
  | PyNone => ""
  | PyBool _ | PyInt _ => str v
  | PyFloat f =>
      if f_isnan f then ""
      else match f_integral f with
           | Some z => pretty z
           | None =>
               let text := strip (str v) in
               if endswith text ".0" && str_isdigit (drop_last 2 text)
               then drop_last 2 text else text
           end
  | PyStr _ =>
      let text := strip (str v) in
      if endswith text ".0" && str_isdigit (drop_last 2 text)
      then drop_last 2 text else text
  end.

Definition extract_pedido (it : item) : string :=
  let pedido1 := match pedido it with
                 | Some p => numero p
                 | None => PyNone
                 end in
  let pedido2 :=
    if negb (truthy pedido1) then
      match embarque it with
      | Some e => match embarque_pedido e with
                  | Some p => numero p
                  | None => PyNone
                  end
      | None => PyNone
      end
    else pedido1 in
  normalize_pedido pedido2.

(** The per-key dictionary [{"entregue": ..., "cancelado": ...}]. *)
Record info := { entregue : bool; cancelado : bool }.

(** The body of [for item in ocorrencias] in [resolver_status]. *)
Definition scan_item (flags : gmap string info) (it : item) : gmap string info :=
  let pedido := extract_pedido it in
  let codigo := extract_codigo it in
  if String.eqb pedido "" || bool_decide (flags !! pedido = None)
  then flags
  else
    let flags1 :=
      if bool_decide (codigo ∈ ENTREGUE_CODES)
      then alter (λ i, {| entregue := true; cancelado := cancelado i |}) pedido flags
      else flags in
    if bool_decide (codigo ∈ CANCELADO_CODES)
    then alter (λ i, {| entregue := entregue i; cancelado := true |}) pedido flags1
    else flags1.

Definition scan_items (flags : gmap string info) (ocorrencias : list item)
    : gmap string info :=
  foldl scan_item flags ocorrencias.

(** [{pedido: {"entregue": False, "cancelado": False} for pedido in pedidos}] *)
Definition initial_flags (pedidos : list string) : gmap string info :=
  foldl (λ flags pedido,
           <[pedido := {| entregue := false; cancelado := false |}]> flags)
        ∅ pedidos.

(** The [if info["entregue"] / elif info["cancelado"] / else] of the last
    loop. *)
Definition status_of (i : info) : string :=
  if entregue i then "ENTREGUE"
  else if cancelado i then "CANCELADO"
  else "DESPACHADO".

Section Run.
Variable w : world.

(** The [for page in range(1, total_pages)] loop of [fetch_ocorrencias]. *)
Fixpoint page_loop (pages : list Z) (params : gmap string value)
    (respostas : list item) : M (list item) :=
  match pages with
  | [] => ret respostas
  | page :: rest =>
      let params := <["page" := PyInt page]> params in
      page_payload ← _request w params 3;
      page_loop rest params (respostas ++ payload_respostas page_payload)
  end.

(** The [params] dictionary [fetch_ocorrencias] starts from; [window] holds
    the two date strings. *)
Definition fetch_params (pedidos : list string) (window : string * string)
    : gmap string value :=
  list_to_map [ ("pedido", PyStr (join "," pedidos));
                ("page", PyInt 0);
                ("size", PyInt PAGE_SIZE);
                ("de", PyStr window.1);
                ("ate", PyStr window.2);
                ("codigoOcorrencia", PyStr ALL_CODES);
                ("tipoData", PyStr "OCORRENCIA") ].

Definition fetch_ocorrencias (pedidos : list string) : M (list item) :=
  tr ← get_trace;
  let params := fetch_params pedidos (clock w tr) in
  payload ← _request w params 3;
  let respostas := payload_respostas payload in
  let total_pages := payload_total_pages payload in
  match range 1 total_pages 1 with
  | Returns pages => page_loop pages params respostas
  | Raises e => raise e
  end.

(** The [for sublote in chunked(pedidos, SUBLOTE_SIZE)] loop. *)
Fixpoint sublote_loop (sublotes : list (list string))
    (flags : gmap string info) : M (gmap string info) :=
  match sublotes with
  | [] => ret flags
  | sublote :: rest =>
      ocorrencias ← fetch_ocorrencias sublote;
      sublote_loop rest (scan_items flags ocorrencias)
  end.

Definition resolver_status (pedidos : list string) : M (gmap string string) :=
  new_api w ;;
  let flags := initial_flags pedidos in
  match chunked pedidos SUBLOTE_SIZE with
  | Raises e => raise e
  | Returns sublotes =>
      flags ← sublote_loop sublotes flags;
      ret (status_of <$> flags)
  end.

End Run.

(** [load_pedidos_from_sheet], from the point where [values] has been read. *)
Definition load_pedidos_from_sheet (values : list (list value))
    : list string * list value * bool :=
  match values with
  | [] => ([], [], false)
  | _ =>
      let first_col := (λ row, default (PyStr "") (head row)) <$> values in
      let has_header :=
        match first_col with
        | v :: _ =>
            bool_decide (lower (strip (str v)) ∈ ({[ "pedido"; "pedidos" ]} : gset string))
        | [] => false
        end in
      let start_index := if has_header then 1%nat else 0%nat in
      let pedidos := normalize_pedido <$> drop start_index first_col in
      let pedidos :=
        filter (λ p, negb (String.eqb p "")
                     && negb (String.eqb (lower (strip p)) "nan") = true)
               pedidos in
      (pedidos, first_col, has_header)
  end.

(** The [statuses] list [main] builds from the raw column and [status_map]. *)
Definition statuses_of (raw : list value) (status_map : gmap string string)
    : list string :=
  (λ v, let pedido := normalize_pedido v in
        if String.eqb pedido "" then ""
        else default "DESPACHADO" (status_map !! pedido))
    <$> raw.

(** [main] up to the call of [update_status_in_sheet]. *)
Definition main (w : world) (values : list (list value))
    : M (option (list string)) :=
  let '(pedidos_list, raw_values, has_header) := load_pedidos_from_sheet values in
  match raw_values with
  | [] => ret None
  | _ =>
      let pedidos_unicos := dict_fromkeys pedidos_list in
      status_map ← resolver_status w pedidos_unicos;
      let start_index := if has_header then 1%nat else 0%nat in
      ret (Some (statuses_of (drop start_index raw_values) status_map))
  end.

(** The default of [SHEET_RANGE_OUTPUT]. *)
Definition SHEET_RANGE_OUTPUT_DEFAULT : string := "PREVENTIVOS!B:B".

(** [update_status_in_sheet], as the update it sends; [sheet_range_output]
    is the value of [SHEET_RANGE_OUTPUT]. *)
Definition update_status_in_sheet (sheet_range_output : string)
    (values_count : Z) (statuses : list string) (has_header : bool)
    : sheet_update :=
  let output_values :=
    (if has_header then [["STATUS"]] else []) ++ ((λ s, [s]) <$> statuses) in
  let total_rows := Z.max values_count (Z.of_nat (length output_values)) in
  let end_row := if 0 <? total_rows then total_rows else 1 in
  let output_range :=
    before_char "!" sheet_range_output +:+ "!B1:B" +:+ pretty end_row in
  {| update_range := output_range; update_values := output_values |}.

(** A row of the exported file: [{"PEDIDO": ..., "STATUS": ...}]. *)
Record export_row := { row_pedido : string; row_status : string }.

(** The [rows] list that [main] builds for the data frame. *)
Definition export_rows (pedidos_list : list string)
    (status_map : gmap string string) : list export_row :=
  (λ p, {| row_pedido := p;
           row_status := default "DESPACHADO" (status_map !! p) |})
    <$> filter (λ p, negb (String.eqb p "") = true) pedidos_list.

(** What a run of [main] writes: the sheet update, and the rows handed to
    [save_excel_safely] ([None] when the data frame is empty and nothing is
    saved). *)
Record written := {
  to_sheet : sheet_update;
  to_file : option (list export_row);
}.

(** [main] in full, once [has_cf_credentials] has passed and with [values]
    the rows that [load_pedidos_from_sheet] read: [None] when it returns
    before writing anything. *)
Definition run_main (sheet_range_output : string) (w : world)
    (values : list (list value)) : M (option written) :=
  let '(pedidos_list, raw_values, has_header) := load_pedidos_from_sheet values in
  match raw_values with
  | [] => ret None
  | _ =>
      let pedidos_unicos := dict_fromkeys pedidos_list in
      status_map ← resolver_status w pedidos_unicos;
      let start_index := if has_header then 1%nat else 0%nat in
      let statuses := statuses_of (drop start_index raw_values) status_map in
      let update :=
        update_status_in_sheet sheet_range_output
          (Z.of_nat (length raw_values)) statuses has_header in
      let rows := export_rows pedidos_list status_map in
      ret (Some {| to_sheet := update;
                   to_file := match rows with [] => None | _ => Some rows end |})
  end.

End Preventivos.

(** ** The properties under study, as predicates on the embedding *)

Module Spec.
Import Py Shared.

(** *** Batcher *)

(** The chunks of [items] for [size] exist, concatenate back to [items],
    are at most [size] long, and all but the last are exactly [size] long. *)
Definition chunked_covers {A} (items : list A) (size : Z) : Prop :=
  ∃ chunks,
    chunked items size = Returns chunks
    ∧ concat chunks = items
    ∧ Forall (λ c, Z.of_nat (length c) ≤ size) chunks
    ∧ ∀ (i : nat) c, chunks !! i = Some c → (S i < length chunks)%nat →
        Z.of_nat (length c) = size.

(** *** KeyNormalizer *)

Definition is_ascii_digit (c : ascii) : bool :=
  let n := Z.of_N (N_of_ascii c) in (48 <=? n) && (n <=? 57).

(** A decimal integer: an optional minus sign and at least one ASCII digit. *)
Definition is_decimal_integer (s : string) : bool :=
  match s with
  | String c r =>
      if Ascii.eqb c "-"%char
      then negb (String.eqb r "") && all_chars is_ascii_digit r
      else all_chars is_ascii_digit s
  | EmptyString => false
  end.

Definition sign_or_digit (c : ascii) : bool :=
  is_ascii_digit c || Ascii.eqb c "-"%char.

Definition canonical_number (s : string) : Prop :=
  s = "" ∨ is_decimal_integer s = true.

Definition canonical_company_id (s : string) : Prop :=
  s = "" ∨ (str_isdigit s = true ∧ String.length s = 14%nat).

(** The form [normalize_nf] rewrites: digits followed by [".0"]. *)
Definition has_fraction_suffix (s : string) : bool :=
  endswith s ".0" && str_isdigit (drop_last 2 s).

(** The claim that every normalized key is canonical. *)
Definition normalized_canonical (v : value) : Prop :=
  canonical_number (Cobranca.normalize_nf v)
  ∧ canonical_number (Preventivos.normalize_pedido v)
  ∧ canonical_company_id (Cobranca.normalize_cnpj v).

(** [s] is the text of the integer [d], possibly written with [".0"] and
    surrounded by white space. *)
Definition integer_text (s d : string) : Prop :=
  d ≠ "" ∧ all_chars is_ascii_digit d = true
  ∧ (strip s = d ∨ strip s = d +:+ ".0").

(** [v] is an integer or a float with an integral value [z]. *)
Definition integral_number (v : value) (z : Z) : Prop :=
  v = PyInt z
  ∨ ∃ f, v = PyFloat f ∧ f_isnan f = false ∧ f_integral f = Some z.

(** Absent, NaN or blank input. *)
Definition blank (v : value) : Prop :=
  v = PyNone
  ∨ (∃ f, v = PyFloat f ∧ f_isnan f = true)
  ∨ (∃ s, v = PyStr s ∧ strip s = "").

(** Input that [normalize_cnpj] takes as missing: [None] or NaN. *)
Definition absent (v : value) : Prop :=
  v = PyNone ∨ ∃ f, v = PyFloat f ∧ f_isnan f = true.

(** *** RequestExecutor *)

Definition is_get (e : event) : bool :=
  match e with EvGet _ => true | _ => false end.
Definition is_login (e : event) : bool :=
  match e with EvLogin => true | _ => false end.
(** The calls of [session.get] and the calls of [authenticate] in a trace. *)
Definition count_gets (tr : list event) : nat := length (filter is_get tr).
Definition count_logins (tr : list event) : nat := length (filter is_login tr).

Definition req_of (params : gmap string value) (authorization : option string)
    : request :=
  {| req_params := params; req_authorization := authorization |}.

(** The numbers [first, first + 1, ...], [count] of them. *)
Definition consecutive (first : Z) (count : nat) : list Z :=
  (λ k : nat, first + Z.of_nat k) <$> seq 0 count.

(** A response that is a plain failure: neither 401 nor 404, and
    [raise_for_status(); json()] raises a [RequestException]. *)
Definition failing_response (r : response) : Prop :=
  status_code r ≠ 401 ∧ status_code r ≠ 404
  ∧ ∃ e, bind_result (raise_for_status r) (λ _, response_json r) = Raises e
         ∧ is_RequestException e = true.

(** A response that succeeds with payload [p]. *)
Definition successful_response (r : response) (p : payload) : Prop :=
  status_code r ≠ 401 ∧ status_code r ≠ 404
  ∧ bind_result (raise_for_status r) (λ _, response_json r) = Returns p.

Definition always_fails (w : world) : Prop :=
  ∀ tr, ∃ r, http_get w tr = GetResponse r ∧ failing_response r.

(** The effects of [retries] failed attempts: a request per attempt, and a
    sleep of twice the attempt number after each attempt but the last. *)
Definition backoff_trace (rq : request) (retries : Z) : list event :=
  consecutive 1 (Z.to_nat retries)
  ≫= λ attempt, EvGet rq :: if attempt <? retries then [EvSleep (2 * attempt)] else [].

(** Each request of [events], sent from the state [s] on, is answered by
    a plain failure. *)
Definition fails_during (w : world) (s : api) (events : list event) : Prop :=
  ∀ before rq,
    (before ++ [EvGet rq]) `prefix_of` events →
    ∃ r, http_get w (trace s ++ before ++ [EvGet rq]) = GetResponse r
         ∧ failing_response r.

(** The transport always hands back a response, and a body that does not
    parse raises a [RequestException]; a body that parses is a [payload],
    so it has the documented shape. *)
Definition responds (w : world) : Prop :=
  ∀ tr, ∃ r, http_get w tr = GetResponse r
             ∧ ∀ e, json r = JsonRaises e → is_RequestException e = true.

(** The state of the run once the first request of a call has been sent. *)
Definition first_get (params : gmap string value) (s : api) : list event :=
  trace s ++ [EvGet (req_of params (token s))].

(** The reading of C4: after a 401 answered by a successful
    re-authentication, the call goes on as a fresh call with the new token,
    all its attempts still available. *)
Definition reauth_keeps_attempts (w : world) (params : gmap string value)
    (retries : Z) (s : api) : Prop :=
  ∀ r t,
    http_get w (first_get params s) = GetResponse r →
    status_code r = 401 →
    http_login w (first_get params s ++ [EvLogin]) = LoginToken (Some t) →
    t ≠ "" →
    _request w params retries s
    = _request w params retries
        {| token := Some t; trace := first_get params s ++ [EvLogin] |}.

(** The effects of [k] failed attempts, each followed by its sleep: the
    attempts [first, first + 1, ...]. *)
Definition failed_attempts (rq : request) (first : Z) (k : nat) : list event :=
  consecutive first k ≫= λ attempt, [EvGet rq; EvSleep (2 * attempt)].

(** *** Paginator *)

(** Runs [f] on each element in turn and collects the results. *)
Fixpoint for_each {A B} (f : A → M B) (l : list A) : M (list B) :=
  match l with
  | [] => mret []
  | x :: rest => y ← f x; ys ← for_each f rest; mret (y :: ys)
  end.

(** The [page] parameter of each request of a trace, in order. *)
Definition requested_pages (tr : list event) : list (option value) :=
  omap (λ e, match e with
             | EvGet r => Some (req_params r !! "page")
             | _ => None
             end) tr.

(** Pagination as the specification words it: the query for page 0, then
    the same query once for each page index from 1 to [totalPages - 1] in
    increasing order, and the pages' records concatenated in page order. *)
Definition paginate (w : world) (pedidos : list string) : M (list item) :=
  tr ← get_trace;
  let params := Preventivos.fetch_params pedidos (clock w tr) in
  first ← _request w params 3;
  later ← for_each (λ page, _request w (<["page" := PyInt page]> params) 3)
            (consecutive 1 (Z.to_nat (payload_total_pages first - 1)));
  mret (concat (payload_respostas <$> first :: later)).

(** *** StatusClassifier *)

(** Some record of [items] has its extracted code in [codes]. *)
Definition any_code (codes : gset string) (items : list item) : bool :=
  existsb (λ it, bool_decide (extract_codigo it ∈ codes)) items.

(** The classification rule: ENTREGUE first, then CANCELADO, then the
    variant's default. *)
Definition expected_status (default : string) (items : list item) : string :=
  if any_code ENTREGUE_CODES items then "ENTREGUE"
  else if any_code CANCELADO_CODES items then "CANCELADO"
  else default.

(** The records of [items] that the order-number script attributes to the
    order [k]: those whose extracted order number is [k]; a record without
    an order number belongs to no order. *)
Definition records_of (k : string) (items : list item) : list item :=
  filter (λ it, Preventivos.extract_pedido it = k ∧ k ≠ "") items.

(** What one record does to the flags of its order. *)
Definition raise_flags (it : item) (i : Preventivos.info) : Preventivos.info :=
  {| Preventivos.entregue :=
       Preventivos.entregue i || bool_decide (extract_codigo it ∈ ENTREGUE_CODES);
     Preventivos.cancelado :=
       Preventivos.cancelado i || bool_decide (extract_codigo it ∈ CANCELADO_CODES) |}.

(** What a list of records of one order does to its flags. *)
Definition raise_all (items : list item) (i : Preventivos.info) : Preventivos.info :=
  {| Preventivos.entregue := Preventivos.entregue i || any_code ENTREGUE_CODES items;
     Preventivos.cancelado := Preventivos.cancelado i || any_code CANCELADO_CODES items |}.

(** The table the order-number script builds from the records [items] it
    has fetched for the orders [pedidos]. *)
Definition status_table (pedidos : list string) (items : list item)
    : gmap string string :=
  Preventivos.status_of
    <$> Preventivos.scan_items (Preventivos.initial_flags pedidos) items.

(** *** Resolver *)

(** The table the invoice script builds from the records fetched for each
    pair, in query order. *)
Definition invoice_table (entries : list ((string * string) * list item))
    : gmap (string * string) string :=
  foldl (λ m e, <[e.1 := Cobranca.classify e.2]> m) ∅ entries.

(** The invoice resolver with its effects and its table apart: one fetch per
    pair, then the table. *)
Definition resolve_invoices (w : world) (pares : list (string * string))
    : M (gmap (string * string) string) :=
  new_api w;;
  fetched ← for_each (λ par, Cobranca.fetch_ocorrencias w par.1 par.2) pares;
  mret (invoice_table (zip pares fetched)).

(** The order resolver with its effects and its table apart: one fetch per
    sub-batch, then the table of all the records. *)
Definition resolve_orders (w : world) (pedidos : list string)
    : M (gmap string string) :=
  new_api w;;
  match chunked pedidos Preventivos.SUBLOTE_SIZE with
  | Raises e => raise e
  | Returns sublotes =>
      fetched ← for_each (Preventivos.fetch_ocorrencias w) sublotes;
      mret (status_table pedidos (concat fetched))
  end.

(** The two resolvers taken apart: [s1] is the state after the constructor,
    and [fetched] the answers of the fetches made one after the other, one
    for each element of [queries], which leave the state [s']. *)
Definition fetches_of {A} (w : world) (fetch : A → M (list item))
    (queries : list A) (s s' : api) (fetched : list (list item)) : Prop :=
  ∃ s1, new_api w s = (Returns tt, s1)
        ∧ for_each fetch queries s1 = (Returns fetched, s').

(** The reading of "each input key is classified exactly once per run, even
    if it appears several times": listing a key again changes no status. *)
Definition classified_once `{Countable K}
    (resolve : list K → M (gmap K string)) (keys : list K) : Prop :=
  (resolve keys initial_api).1 = (resolve (dict_fromkeys keys) initial_api).1.

(** A record that carries no key reference at all. *)
Definition keyless (it : item) : bool :=
  match pedido it, embarque it with
  | None, None => true
  | _, _ => false
  end.

(** A record the order script attributes to none of the orders [pedidos]:
    its order number is missing or is not one of them. *)
Definition foreign (pedidos : list string) (it : item) : bool :=
  bool_decide (Preventivos.extract_pedido it = ""
               ∨ Preventivos.extract_pedido it ∉ pedidos).

(** The payload [p] without the records that [drop] selects. *)
Definition thin (drop : item → bool) (p : payload) : payload :=
  {| respostas := filter (λ it, drop it = false) <$> respostas p;
     totalPages := totalPages p |}.

(** The world [w] whose answers carry no record that [drop] selects. *)
Definition without_records (drop : item → bool) (w : world) : world :=
  {| http_get tr :=
       match http_get w tr with
       | GetResponse r =>
           GetResponse
             {| status_code := status_code r;
                json := match json r with
                        | JsonOk p => JsonOk (thin drop p)
                        | JsonRaises e => JsonRaises e
                        end |}
       | GetRaises e => GetRaises e
       end;
     http_login := http_login w;
     clock := clock w |}.

Definition map_result {A B} (f : A → B) (r : result A) : result B :=
  match r with
  | Returns a => Returns (f a)
  | Raises e => Raises e
  end.

(** The status a run's table gives to the key [k], if the run returned. *)
Definition status_in `{Countable K} (r : result (gmap K string) * api) (k : K)
    : option string :=
  match r.1 with
  | Returns m => m !! k
  | Raises _ => None
  end.

(** The run's result does not depend on the records that [drop] selects. *)
Definition unaffected_by {A} (drop : item → bool) (run : world → M A)
    (w : world) : Prop :=
  (run w initial_api).1 = (run (without_records drop w) initial_api).1.

(** *** Re-expansion to the input rows *)

(** The keys of the data rows of the invoice sheet, row by row. *)
Definition invoice_keys (values : list (list value)) : list (string * string) :=
  (Cobranca.load_inputs_from_sheet values).1.1.

(** The data rows of a sheet: all rows but the header row, if there is one. *)
Definition data_rows {A} (has_header : bool) (rows : list A) : list A :=
  drop (if has_header then 1%nat else 0%nat) rows.

(** The keys of the data rows of the order sheet, row by row. *)
Definition order_keys (values : list (list value)) : list string :=
  let '(_, first_col, has_header) := Preventivos.load_pedidos_from_sheet values in
  Preventivos.normalize_pedido <$> data_rows has_header first_col.

(** The keys the invoice script looks up: valid, without duplicates. *)
Definition invoice_lookups (values : list (list value)) : list (string * string) :=
  dict_fromkeys (filter (λ par, Cobranca.invalid par = false) (invoice_keys values)).

(** The keys the order script looks up. *)
Definition order_lookups (values : list (list value)) : list string :=
  dict_fromkeys (Preventivos.load_pedidos_from_sheet values).1.1.

(** One status per row key: the empty string for an invalid key, and for
    any other key the status that [table] assigns to it. *)
Definition statuses_follow_table `{Countable K} (invalid : K → bool)
    (keys : list K) (table : gmap K string) (statuses : list string) : Prop :=
  length statuses = length keys
  ∧ ∀ (i : nat) k, keys !! i = Some k →
      if invalid k then statuses !! i = Some ""
      else is_Some (table !! k) ∧ statuses !! i = table !! k.

(** C2 for the order script: whenever [main] emits statuses, they follow
    the table that [resolver_status] returned. *)
Definition order_rows_follow_table (w : world) (values : list (list value))
    (s : api) : Prop :=
  ∀ statuses s',
    Preventivos.main w values s = (Returns (Some statuses), s') →
    ∃ table,
      (Preventivos.resolver_status w (order_lookups values) s).1 = Returns table
      ∧ statuses_follow_table (λ k, String.eqb k "") (order_keys values)
          table statuses.

(** C2 for the invoice script. *)
Definition invoice_rows_follow_table (w : world) (values : list (list value))
    (s : api) : Prop :=
  ∀ statuses s',
    Cobranca.main w values s = (Returns (Some statuses), s') →
    ∃ table,
      (Cobranca.resolver_status w (invoice_lookups values) s).1 = Returns table
      ∧ statuses_follow_table Cobranca.invalid (invoice_keys values)
          table statuses.

(** The order script never looks up the text [nan], in any letter case. *)
Definition is_nan_text (k : string) : bool :=
  String.eqb (lower (strip k)) "nan".

(** One status per row key: the empty string for an empty key; for any
    other key the status of the table, or DESPACHADO when the table has
    none, which happens for the [nan] texts only. *)
Definition order_statuses_follow (keys : list string)
    (table : gmap string string) (statuses : list string) : Prop :=
  length statuses = length keys
  ∧ ∀ (i : nat) k, keys !! i = Some k →
      if String.eqb k "" then statuses !! i = Some ""
      else statuses !! i = Some (default "DESPACHADO" (table !! k))
           ∧ (is_nan_text k = false → is_Some (table !! k))
           ∧ (is_nan_text k = true → table !! k = None).

End Spec.

(** ** Concrete worlds and inputs used to exercise the embedding *)

Module Examples.
Import Py Shared Spec.

(** A world that answers the [n]-th request and the [n]-th login from a
    script, and falls back to fixed answers once a script is used up. *)
Definition scripted (gets : list get_outcome) (fallback : get_outcome)
    (logins : list login_outcome) : world :=
  {| http_get tr := nth (count_gets tr - 1) gets fallback;
     http_login tr := nth (count_logins tr - 1) logins (LoginToken (Some "token-n"));
     clock tr := ("2024/01/01 00:00:00", "2025/08/23 23:59:59") |}.

Definition ok (p : payload) : get_outcome :=
  GetResponse {| status_code := 200; json := JsonOk p |}.
Definition status (code : Z) : get_outcome :=
  GetResponse {| status_code := code; json := JsonRaises JSONDecodeError |}.

Definition occurrence (code : string) (order : value) : item :=
  {| tipoOcorrencia := Some {| codigo := PyStr code |};
     pedido := Some {| numero := order |};
     embarque := None |}.

Definition page (records : list item) (pages : Z) : payload :=
  {| respostas := Some records; totalPages := Some pages |}.

Definition some_params : gmap string value :=
  list_to_map [ ("numero", PyStr "123"); ("cnpjEmbarcador", PyStr "12345678000199");
                ("codigoOcorrencia", PyStr ALL_CODES) ].

Definition logged_in : api := {| token := Some "token-0"; trace := [] |}.

(** The transport fails on the first request. *)
Definition w_connection_error : world :=
  scripted [GetRaises ConnectionError] (status 404) [].

(** One 401, then two server errors, then a good answer. *)
Definition w_expired_then_errors : world :=
  scripted [status 401; status 500; status 500;
            ok (page [occurrence "1" (PyStr "555")] 1)]
           (status 404) [LoginToken (Some "token-1")].

(** Every request is answered by a server error. *)
Definition w_always_500 : world := scripted [] (status 500) [].

(** One 401, then a good answer. *)
Definition w_expired_once : world :=
  scripted [status 401; ok (page [occurrence "1" (PyStr "555")] 1)]
           (status 404) [LoginToken (Some "token-1")].

(** Three pages; the three attempts for the second page all fail. *)
Definition w_middle_page_fails : world :=
  scripted [ok (page [occurrence "1" (PyStr "555")] 3);
            status 500; status 500; status 500;
            ok (page [occurrence "25" (PyStr "556")] 3)]
           (status 404) [LoginToken (Some "token-0")].

(** A server error, then the transport times out. *)
Definition w_error_then_timeout : world :=
  scripted [status 500; GetRaises Timeout] (status 404) [].

(** Two server errors, then a 401, then a good answer. *)
Definition w_errors_then_expired : world :=
  scripted [status 500; status 500; status 401;
            ok (page [occurrence "1" (PyStr "555")] 1)]
           (status 404) [LoginToken (Some "token-1")].

(** Three pages; the transport times out on the second. *)
Definition w_page_times_out : world :=
  scripted [ok (page [occurrence "1" (PyStr "555")] 3);
            GetRaises Timeout;
            ok (page [occurrence "25" (PyStr "556")] 3)]
           (status 404) [LoginToken (Some "token-0")].

(** The first request is answered with a delivery record, every later one
    with no record. *)
Definition w_delivered_once : world :=
  scripted [ok (page [occurrence "1" (PyStr "555")] 1)] (ok (page [] 1)) [].

(** A record with a delivery code and no key reference. *)
Definition keyless_record : item :=
  {| tipoOcorrencia := Some {| codigo := PyStr "1" |};
     pedido := None;
     embarque := None |}.

(** Every request is answered with that single record. *)
Definition w_keyless : world :=
  scripted [] (ok (page [keyless_record] 1)) [].

Definition some_invoice : string * string := ("123", "12345678000199").

(** Twenty-one orders: two sub-batches. *)
Definition many_orders : list string :=
  (λ k : nat, pretty (Z.of_nat k)) <$> seq 1 21.

(** The query of the first sub-batch fails three times; the second
    sub-batch is answered. *)
Definition w_first_batch_fails : world :=
  scripted [status 500; status 500; status 500;
            ok (page [occurrence "1" (PyStr "21"); occurrence "25" (PyStr "3")] 1)]
           (status 404) [LoginToken (Some "token-0")].

(** The service knows nothing: every request is answered 404. *)
Definition w_not_found : world := scripted [] (status 404) [].

(** An order sheet with a header, a blank cell, the text [nan] and an
    order listed twice. *)
Definition order_sheet : list (list value) :=
  [ [PyStr "Pedido"]; [PyStr "555"]; []; [PyStr "nan"]; [PyStr " 555.0"] ].

(** An invoice sheet without header: a pair, the same pair written
    differently, and a row without company id. *)
Definition invoice_sheet : list (list value) :=
  [ [PyStr "123"; PyStr "12.345.678/0001-99"];
    [PyStr "123.0"; PyStr "12345678000199"];
    [PyStr "124"] ].

End Examples.


(** ** Further properties of the scripts, as predicates on the embedding *)

Module Props.
Import Py Shared Spec.

(** A record that carries no status code: the sub-object or its code is
    absent or null, or the code is blank text. *)
Definition no_code (it : item) : Prop :=
  match tipoOcorrencia it with
  | None => True
  | Some t => codigo t = PyNone ∨ ∃ s, codigo t = PyStr s ∧ strip s = ""
  end.

(** The raw order number [extract_pedido] reads next to the order itself,
    under [embarque]. *)
Definition embarque_numero (it : item) : value :=
  match embarque it with
  | Some e => match embarque_pedido e with
              | Some p => numero p
              | None => PyNone
              end
  | None => PyNone
  end.

(** The raw order number of the record itself. *)
Definition pedido_numero (it : item) : value :=
  match pedido it with
  | Some p => numero p
  | None => PyNone
  end.

(** The ways a sheet cell or a record holds the number [z]: as a number, as
    its decimal text, or as that text followed by [".0"]. *)
Definition holds_number (v : value) (z : Z) : Prop :=
  v = PyInt z ∨ v = PyStr (pretty z) ∨ v = PyStr (pretty z +:+ ".0").

(** How far a status is from the default: ENTREGUE above CANCELADO above
    the rest. *)
Definition status_rank (st : string) : nat :=
  if String.eqb st "ENTREGUE" then 2
  else if String.eqb st "CANCELADO" then 1
  else 0.

(** The statuses a resolver gives, [default] being the one of orders or
    invoices without a delivery or cancellation record. *)
Definition resolved (default st : string) : Prop :=
  st = "ENTREGUE" ∨ st = "CANCELADO" ∨ st = default.

(** *** The rows of the sheet *)

(** The key the invoice script reads off a row. *)
Definition invoice_key (row : list value) : string * string :=
  (Cobranca.normalize_nf (Cobranca.cell row 0),
   Cobranca.normalize_cnpj (Cobranca.cell row 1)).

(** The key the order script reads off a row. *)
Definition order_key (row : list value) : string :=
  Preventivos.normalize_pedido (default (PyStr "") (head row)).

Definition invoice_has_header (values : list (list value)) : bool :=
  (Cobranca.load_inputs_from_sheet values).2.

Definition order_has_header (values : list (list value)) : bool :=
  (Preventivos.load_pedidos_from_sheet values).2.

(** The order keys that are looked up and exported: not empty and not the
    text [nan]. *)
Definition order_key_valid (k : string) : bool :=
  negb (String.eqb k "") && negb (is_nan_text k).

(** The rows handed to [save_excel_safely]: none when the data frame is
    empty. *)
Definition saved {A} (rows : list A) : option (list A) :=
  match rows with [] => None | _ => Some rows end.

(** *** The events of a call *)

(** An event a call of [_request] for [params] may add to the trace: a
    request with these parameters, a login or a sleep. *)
Definition from_call (params : gmap string value) (e : event) : Prop :=
  match e with
  | EvGet r => req_params r = params
  | _ => True
  end.

(** The seconds slept in [events]: the sum over the script's calls of
    [time.sleep]. *)
Definition total_sleep (events : list event) : Z :=
  foldr (λ e acc, match e with EvSleep z => z + acc | _ => acc end) 0 events.

(** The requests of [events]: the script's calls of [session.get], in
    order. *)
Definition all_gets (events : list event) : list request :=
  omap (λ e, match e with EvGet r => Some r | _ => None end) events.

(** The requests sent before the first login of [events]. *)
Fixpoint gets_before_login (events : list event) : list request :=
  match events with
  | [] => []
  | EvLogin :: _ => []
  | EvGet r :: rest => r :: gets_before_login rest
  | EvSleep _ :: rest => gets_before_login rest
  end.

(** The requests sent after the first login of [events]. *)
Fixpoint gets_after_login (events : list event) : list request :=
  match events with
  | [] => []
  | EvLogin :: rest => all_gets rest
  | _ :: rest => gets_after_login rest
  end.

(** The seconds the loop may sleep over [attempts]: twice each attempt
    number but the last allowed one. *)
Definition sleep_budget (retries : Z) (attempts : list Z) : Z :=
  foldr (λ a acc, (if a =? retries then 0 else 2 * a) + acc) 0 attempts.

(** The effects of [k] failed attempts, each followed by its sleep. *)
Definition retry_trace (rq : request) (k : nat) : list event :=
  consecutive 1 k ≫= λ attempt, [EvGet rq; EvSleep (2 * attempt)].

(** An answer that settles the call with payload [p]: a 404, with the empty
    payload, or a success with its body. *)
Definition settles (r : response) (p : payload) : Prop :=
  (status_code r = 404 ∧ p = empty_payload) ∨ successful_response r p.

(** The service answers 401 to every request. *)
Definition always_unauthorized (w : world) : Prop :=
  ∀ tr, ∃ r, http_get w tr = GetResponse r ∧ status_code r = 401.

(** Every login yields a token. *)
Definition always_logs_in (w : world) : Prop :=
  ∀ tr, ∃ t, http_login w tr = LoginToken t ∧ token_truthy t = true.

(** The service never answers 401. *)
Definition never_unauthorized (w : world) : Prop :=
  ∀ tr r, http_get w tr = GetResponse r → status_code r ≠ 401.

(** The [params] dictionary of the invoice script's [fetch_ocorrencias]. *)
Definition invoice_params (par : string * string) : gmap string value :=
  list_to_map [ ("numero", PyStr par.1);
                ("cnpjEmbarcador", PyStr par.2);
                ("codigoOcorrencia", PyStr ALL_CODES) ].

(** A request of the order script for the sub-batch [sublote]: the
    parameters of [fetch_ocorrencias] for it, at some page and for some
    time window. *)
Definition asks_for (sublote : list string) (r : request) : Prop :=
  ∃ window page,
    0 ≤ page
    ∧ req_params r
      = <["page" := PyInt page]> (Preventivos.fetch_params sublote window).

End Props.

Module MoreExamples.
Import Py Shared Spec Props Examples.

(** Every request is answered 401 and every login succeeds. *)
Definition w_always_401 : world := scripted [] (status 401) [].

(** Two server errors, then a good answer. *)
Definition w_two_errors_then_ok : world :=
  scripted [status 500; status 500; ok (page [occurrence "1" (PyStr "555")] 1)]
           (status 404) [].

(** The first login fails; every request is answered 404. *)
Definition w_login_down : world :=
  scripted [] (status 404) [LoginRaises ConnectionError].

(** A delivery record whose own order number is the number zero and whose
    shipment names the order 77. *)
Definition zero_order : item :=
  {| tipoOcorrencia := Some {| codigo := PyStr "1" |};
     pedido := Some {| numero := PyInt 0 |};
     embarque := Some {| embarque_pedido := Some {| numero := PyStr "77" |} |} |}.

(** What the invoice script writes for [invoice_sheet] when the service
    knows nothing. *)
Definition invoice_sheet_written : Cobranca.written :=
  {| Cobranca.to_sheet :=
       {| update_range := "RETORNO!K1:K3";
          update_values := [["-"]; ["-"]; [""]] |};
     Cobranca.to_file :=
       Some [ {| Cobranca.row_nf := "123"; Cobranca.row_cnpj := "12345678000199";
                 Cobranca.row_status := "-" |};
              {| Cobranca.row_nf := "123"; Cobranca.row_cnpj := "12345678000199";
                 Cobranca.row_status := "-" |} ] |}.

(** What the order script writes for [order_sheet] when the service knows
    nothing, with column D configured. *)
Definition order_sheet_written : Preventivos.written :=
  {| Preventivos.to_sheet :=
       {| update_range := "PREVENTIVOS!B1:B5";
          update_values :=
            [["STATUS"]; ["DESPACHADO"]; [""]; ["DESPACHADO"]; ["DESPACHADO"]] |};
     Preventivos.to_file :=
       Some [ {| Preventivos.row_pedido := "555";
                 Preventivos.row_status := "DESPACHADO" |};
              {| Preventivos.row_pedido := "555";
                 Preventivos.row_status := "DESPACHADO" |} ] |}.

End MoreExamples.

(** ** Facts about the Python built-ins *)

Module PyFacts.
Import Py Shared Spec.

Lemma isdigit_not_space c : isdigit c = true → isspace c = false.
Proof. destruct c as [[] [] [] [] [] [] [] []]; vm_compute; congruence. Qed.

Lemma ascii_digit_isdigit c : is_ascii_digit c = true → isdigit c = true.
Proof. destruct c as [[] [] [] [] [] [] [] []]; vm_compute; congruence. Qed.

Lemma all_chars_impl (p q : ascii → bool) s :
  (∀ c, p c = true → q c = true) → all_chars p s = true → all_chars q s = true.
Proof.
  intros Hpq. induction s as [|c r IH]; simpl; [done|].
  rewrite !andb_true_iff. intros [Hc Hr]. auto.
Qed.

Lemma all_chars_app p s t :
  all_chars p (s +:+ t) = all_chars p s && all_chars p t.
Proof.
  induction s as [|c r IH]; simpl; [done|]. by rewrite IH, andb_assoc.
Qed.

Lemma lstrip_nonspace c r : isspace c = false → lstrip (String c r) = String c r.
Proof. intros H. simpl. by rewrite H. Qed.

Lemma rstrip_nonspace c r :
  isspace c = false → rstrip (String c r) = String c (rstrip r).
Proof. intros H. simpl. rewrite H. by destruct (rstrip r). Qed.

Lemma lstrip_head s :
  lstrip s = "" ∨ ∃ c r, lstrip s = String c r ∧ isspace c = false.
Proof.
  induction s as [|c r IH]; simpl; [by left|].
  destruct (isspace c) eqn:Hc; [done|]. right. by exists c, r.
Qed.

Lemma rstrip_cons c r :
  rstrip (String c r) =
  match rstrip r with
  | EmptyString => if isspace c then EmptyString else String c EmptyString
  | r' => String c r'
  end.
Proof. done. Qed.

Lemma rstrip_idemp s : rstrip (rstrip s) = rstrip s.
Proof.
  induction s as [|c r IH]; [done|].
  rewrite (rstrip_cons c r).
  destruct (rstrip r) as [|d r'] eqn:Hr.
  - destruct (isspace c) eqn:Hc; [done|]. rewrite rstrip_cons. simpl. by rewrite Hc.
  - rewrite rstrip_cons, IH. done.
Qed.

Lemma strip_idemp s : strip (strip s) = strip s.
Proof.
  unfold strip. destruct (lstrip_head s) as [->|(c & r & -> & Hc)]; [done|].
  rewrite rstrip_nonspace by done. rewrite lstrip_nonspace by done.
  rewrite <-(rstrip_nonspace c r) by done. apply rstrip_idemp.
Qed.

Lemma rstrip_no_space s :
  all_chars (λ c, negb (isspace c)) s = true → rstrip s = s.
Proof.
  induction s as [|c r IH]; simpl; [done|].
  rewrite andb_true_iff, negb_true_iff. intros [Hc Hr].
  rewrite IH by done. rewrite Hc. by destruct r.
Qed.

Lemma strip_no_space s :
  all_chars (λ c, negb (isspace c)) s = true → strip s = s.
Proof.
  intros H. unfold strip.
  assert (lstrip s = s) as ->; [|by apply rstrip_no_space].
  destruct s as [|c r]; [done|]. simpl in H.
  apply andb_true_iff in H as [Hc _]. apply negb_true_iff in Hc.
  by apply lstrip_nonspace.
Qed.

Lemma strip_digits s : all_chars isdigit s = true → strip s = s.
Proof.
  intros H. apply strip_no_space. revert H. apply all_chars_impl.
  intros c Hc. by rewrite (isdigit_not_space c Hc).
Qed.

Lemma str_isdigit_all s : str_isdigit s = true → all_chars isdigit s = true.
Proof. by destruct s. Qed.

Lemma str_isdigit_nonempty s : str_isdigit s = true → s ≠ "".
Proof. by destruct s. Qed.

Lemma endswith_cons c r suffix :
  endswith (String c r) suffix =
  if String.eqb (String c r) suffix then true else endswith r suffix.
Proof. done. Qed.

(** What ends a string is made of characters of that string. *)
Lemma endswith_all_chars p s suffix :
  endswith s suffix = true → all_chars p s = true → all_chars p suffix = true.
Proof.
  induction s as [|c r IH].
  - destruct suffix; [done|discriminate].
  - rewrite endswith_cons.
    destruct (String.eqb_spec (String c r) suffix) as [<-|_]; [done|].
    simpl. intros Hr [_ Hall]%andb_true_iff. auto.
Qed.

Lemma endswith_app s suffix : endswith (s +:+ suffix) suffix = true.
Proof.
  induction s as [|c r IH].
  - destruct suffix; simpl; by rewrite ?String.eqb_refl, ?Ascii.eqb_refl.
  - change (String c r +:+ suffix) with (String c (r +:+ suffix)).
    rewrite endswith_cons, IH. by destruct (String.eqb _ _).
Qed.

Lemma substring_prefix s t : String.substring 0 (String.length s) (s +:+ t) = s.
Proof.
  induction s as [|c r IH]; simpl.
  - by destruct t.
  - by rewrite IH.
Qed.

Lemma string_length_app s t :
  String.length (s +:+ t) = (String.length s + String.length t)%nat.
Proof. induction s as [|c r IH]; simpl; [done|]. by rewrite IH. Qed.

Lemma drop_last_app s t : drop_last (String.length t) (s +:+ t) = s.
Proof.
  unfold drop_last. rewrite string_length_app.
  replace (String.length s + String.length t - String.length t)%nat
    with (String.length s) by lia.
  apply substring_prefix.
Qed.

(** *** [str] of an integer *)

Lemma pretty_N_char_digit x : is_ascii_digit (pretty_N_char x) = true.
Proof. unfold pretty_N_char. by repeat case_match. Qed.

Lemma pretty_N_go_digits x s :
  all_chars is_ascii_digit s = true →
  all_chars is_ascii_digit (pretty_N_go x s) = true.
Proof.
  revert s. induction (N.lt_wf_0 x) as [x _ IH]. intros s Hs.
  destruct (decide (x = 0%N)) as [->|Hx]; [by rewrite pretty_N_go_0|].
  rewrite pretty_N_go_step by lia. apply IH.
  - apply N.div_lt; lia.
  - simpl. by rewrite pretty_N_char_digit.
Qed.

Lemma pretty_N_go_nonempty x s : s ≠ "" → pretty_N_go x s ≠ "".
Proof.
  revert s. induction (N.lt_wf_0 x) as [x _ IH]. intros s Hs.
  destruct (decide (x = 0%N)) as [->|Hx]; [by rewrite pretty_N_go_0|].
  rewrite pretty_N_go_step by lia. apply IH; [apply N.div_lt; lia|done].
Qed.

Lemma pretty_N_digits (x : N) :
  all_chars is_ascii_digit (pretty x) = true ∧ pretty x ≠ "".
Proof.
  unfold pretty, pretty_N. case_decide as Hx; [done|]. split.
  - by apply pretty_N_go_digits.
  - rewrite pretty_N_go_step by lia. by apply pretty_N_go_nonempty.
Qed.

Lemma pretty_Z_decimal (z : Z) : is_decimal_integer (pretty z) = true.
Proof.
  destruct z as [|p|p]; [done|..].
  - destruct (pretty_N_digits (N.pos p)) as [Hd Hne].
    change (pretty (Z.pos p)) with (pretty (N.pos p)).
    destruct (pretty (N.pos p)) as [|c r] eqn:E; [done|].
    unfold is_decimal_integer. simpl in Hd.
    apply andb_true_iff in Hd as [Hc Hr].
    destruct (Ascii.eqb_spec c "-"%char) as [->|_]; [done|].
    simpl. by rewrite Hc, Hr.
  - destruct (pretty_N_digits (N.pos p)) as [Hd Hne].
    change (pretty (Z.neg p)) with (String "-"%char (pretty (N.pos p))).
    unfold is_decimal_integer. simpl. rewrite Hd.
    destruct (pretty (N.pos p)); [done|done].
Qed.

Lemma decimal_integer_chars s :
  is_decimal_integer s = true → all_chars sign_or_digit s = true.
Proof.
  destruct s as [|c r]; [done|]. unfold is_decimal_integer.
  destruct (Ascii.eqb_spec c "-"%char) as [->|_].
  - intros [_ H]%andb_true_iff. simpl.
    revert H. apply all_chars_impl. intros d Hd. unfold sign_or_digit. by rewrite Hd.
  - apply all_chars_impl. intros d Hd. unfold sign_or_digit. by rewrite Hd.
Qed.

Lemma sign_or_digit_not_space c : sign_or_digit c = true → negb (isspace c) = true.
Proof. destruct c as [[] [] [] [] [] [] [] []]; vm_compute; congruence. Qed.

Lemma sign_or_digit_not_dot c : sign_or_digit c = true → Ascii.eqb c "."%char = false.
Proof. destruct c as [[] [] [] [] [] [] [] []]; vm_compute; congruence. Qed.

Lemma decimal_integer_stripped s : is_decimal_integer s = true → strip s = s.
Proof.
  intros H%decimal_integer_chars. apply strip_no_space. revert H.
  apply all_chars_impl, sign_or_digit_not_space.
Qed.

Lemma endswith_dot_zero_has_dot p s :
  (∀ c, p c = true → Ascii.eqb c "."%char = false) →
  all_chars p s = true → endswith s ".0" = false.
Proof.
  intros Hp Hs. destruct (endswith s ".0") eqn:E; [|done].
  pose proof (endswith_all_chars p s ".0" E Hs) as H. simpl in H.
  apply andb_true_iff in H as [H _]. apply Hp in H. done.
Qed.

Lemma decimal_integer_no_fraction s :
  is_decimal_integer s = true → has_fraction_suffix s = false.
Proof.
  intros H%decimal_integer_chars. unfold has_fraction_suffix.
  by rewrite (endswith_dot_zero_has_dot sign_or_digit s sign_or_digit_not_dot H).
Qed.

Lemma isdigit_not_dot c : isdigit c = true → Ascii.eqb c "."%char = false.
Proof. destruct c as [[] [] [] [] [] [] [] []]; vm_compute; congruence. Qed.

Lemma digits_no_fraction s :
  all_chars isdigit s = true → has_fraction_suffix s = false.
Proof.
  intros H. unfold has_fraction_suffix.
  by rewrite (endswith_dot_zero_has_dot isdigit s isdigit_not_dot H).
Qed.

End PyFacts.

(** ** KeyNormalizer: [normalize_nf], [normalize_pedido], [normalize_cnpj] *)

Module NormalizeFacts.
Import Py Shared Spec PyFacts.
Import Cobranca Preventivos.

(** The two scripts carry the same normalizer under two names. *)
Lemma normalize_pedido_nf v : normalize_pedido v = normalize_nf v.
Proof. done. Qed.

Lemma normalize_nf_text s :
  normalize_nf (PyStr s) =
  if has_fraction_suffix (strip s) then drop_last 2 (strip s) else strip s.
Proof. done. Qed.

Lemma rewrite_text_stable t :
  strip t = t →
  let r := if has_fraction_suffix t then drop_last 2 t else t in
  strip r = r ∧ has_fraction_suffix r = false.
Proof.
  intros Ht. simpl. destruct (has_fraction_suffix t) eqn:E; [|done].
  unfold has_fraction_suffix in E. apply andb_true_iff in E as [_ Hd].
  apply str_isdigit_all in Hd. split; [by apply strip_digits|].
  by apply digits_no_fraction.
Qed.

(** Every normalized number is stripped and has no [".0"] after digits. *)
Lemma normalize_nf_stable v :
  strip (normalize_nf v) = normalize_nf v
  ∧ has_fraction_suffix (normalize_nf v) = false.
Proof.
  destruct v as [|[]|z|f|s]; try done.
  - split; [apply decimal_integer_stripped | apply decimal_integer_no_fraction];
      apply pretty_Z_decimal.
  - simpl. destruct (f_isnan f); [done|].
    destruct (f_integral f) as [z|].
    + split; [apply decimal_integer_stripped | apply decimal_integer_no_fraction];
        apply pretty_Z_decimal.
    + apply (rewrite_text_stable (strip (f_str f))), strip_idemp.
  - rewrite normalize_nf_text. apply rewrite_text_stable, strip_idemp.
Qed.

Lemma normalize_nf_fixed r :
  strip r = r → has_fraction_suffix r = false → normalize_nf (PyStr r) = r.
Proof. intros Hs Hf. by rewrite normalize_nf_text, Hs, Hf. Qed.

(** *** Company ids *)

Lemma keep_chars_all p s : all_chars p (keep_chars p s) = true.
Proof.
  induction s as [|c r IH]; simpl; [done|].
  destruct (p c) eqn:Hc; simpl; by rewrite ?Hc, ?IH.
Qed.

Lemma keep_chars_id p s : all_chars p s = true → keep_chars p s = s.
Proof.
  induction s as [|c r IH]; simpl; [done|].
  intros [Hc Hr]%andb_true_iff. by rewrite Hc, IH.
Qed.

Lemma replicate_char_length n c : String.length (replicate_char n c) = n.
Proof. induction n as [|n IH]; simpl; by rewrite ?IH. Qed.

Lemma replicate_char_all p n c : p c = true → all_chars p (replicate_char n c) = true.
Proof. intros Hc. induction n as [|n IH]; simpl; by rewrite ?Hc, ?IH. Qed.

Lemma isdigit_not_sign c :
  isdigit c = true → (Ascii.eqb c "+" || Ascii.eqb c "-")%char = false.
Proof. destruct c as [[] [] [] [] [] [] [] []]; vm_compute; congruence. Qed.

Lemma zfill_digits width d :
  all_chars isdigit d = true →
  zfill width d = replicate_char (width - String.length d) "0"%char +:+ d.
Proof.
  destruct d as [|c r]; simpl.
  - intros _. generalize (replicate_char (width - 0) "0"%char).
    intros s. induction s as [|a s IH]; [done|].
    change (String a s +:+ "") with (String a (s +:+ "")). by rewrite <-IH.
  - intros [Hc _]%andb_true_iff. by rewrite (isdigit_not_sign c Hc).
Qed.

Lemma string_eqb_empty s : String.eqb s "" = true ↔ s = "".
Proof. destruct s; simpl; split; congruence. Qed.

Lemma str_isdigit_of_all s : s ≠ "" → all_chars isdigit s = true → str_isdigit s = true.
Proof. by destruct s. Qed.

(** The shape of every normalized company id. *)
Lemma normalize_cnpj_shape v :
  let r := normalize_cnpj v in
  let digits := keep_chars isdigit (str v) in
  r = ""
  ∨ (all_chars isdigit r = true ∧ r ≠ ""
     ∧ (14 ≤ String.length r)%nat
     ∧ ((String.length digits ≤ 14)%nat → String.length r = 14%nat)
     ∧ r = replicate_char (14 - String.length digits) "0"%char +:+ digits).
Proof.
  simpl. unfold normalize_cnpj.
  set (isna := match v with PyNone => true | PyFloat f => f_isnan f | _ => false end).
  destruct isna; [by left|].
  set (digits := keep_chars isdigit (str v)).
  assert (all_chars isdigit digits = true) as Hd by apply keep_chars_all.
  destruct (String.eqb digits "") eqn:He; [by left|]. right.
  assert (digits ≠ "") as Hne.
  { intros E. apply string_eqb_empty in E. congruence. }
  destruct (Nat.ltb_spec (String.length digits) 14) as [Hlt|Hge].
  - rewrite zfill_digits by done. repeat split.
    + rewrite all_chars_app, Hd, replicate_char_all; done.
    + intros E. apply (f_equal String.length) in E.
      rewrite string_length_app, replicate_char_length in E. simpl in E. lia.
    + rewrite string_length_app, replicate_char_length. lia.
    + rewrite string_length_app, replicate_char_length. lia.
  - replace (14 - String.length digits)%nat with 0%nat by lia.
    repeat split; [done..|lia|lia].
Qed.

Lemma normalize_cnpj_digits d :
  all_chars isdigit d = true → (14 ≤ String.length d)%nat →
  normalize_cnpj (PyStr d) = d.
Proof.
  intros Hd Hlen. unfold normalize_cnpj. simpl. rewrite keep_chars_id by done.
  destruct d as [|c r]; [done|].
  change (String.eqb (String c r) "") with false. cbv iota.
  by destruct (Nat.ltb_spec (String.length (String c r)) 14); [lia|].
Qed.

(** C10: the key normalizers are idempotent: normalizing the output of
    [normalize_nf], of [normalize_pedido] or of [normalize_cnpj] again
    returns that output unchanged, for every raw input value. *)
Theorem normalizers_idempotent (v : value) :
  normalize_nf (PyStr (normalize_nf v)) = normalize_nf v
  ∧ normalize_pedido (PyStr (normalize_pedido v)) = normalize_pedido v
  ∧ normalize_cnpj (PyStr (normalize_cnpj v)) = normalize_cnpj v.
Proof.
  destruct (normalize_nf_stable v) as [Hs Hf].
  split; [by apply normalize_nf_fixed|].
  split; [rewrite !normalize_pedido_nf; by apply normalize_nf_fixed|].
  destruct (normalize_cnpj_shape v) as [->|(Hd & _ & Hlen & _)]; [done|].
  by apply normalize_cnpj_digits.
Qed.


Lemma integer_text_decimal d :
  d ≠ "" → all_chars is_ascii_digit d = true → is_decimal_integer d = true.
Proof.
  destruct d as [|c r]; [done|]. intros _ H. unfold is_decimal_integer.
  destruct (Ascii.eqb_spec c "-"%char) as [->|_]; [done|done].
Qed.

Lemma classic_absent v : absent v ∨ ¬ absent v.
Proof.
  destruct v as [| | |f|]; try (right; intros [?|(f' & ? & _)]; discriminate).
  - left. by left.
  - destruct (f_isnan f) eqn:Hn.
    + left. right. by exists f.
    + right. intros [?|(f' & [= <-] & Hn')]; [discriminate|congruence].
Qed.

(** What [normalize_cnpj] returns, input by input. *)
Lemma normalize_cnpj_cases v :
  let digits := keep_chars isdigit (str v) in
  (absent v → normalize_cnpj v = "")
  ∧ (¬ absent v →
       normalize_cnpj v
       = if String.eqb digits "" then ""
         else if (String.length digits <? 14)%nat then zfill 14 digits
         else digits).
Proof.
  cbv zeta. split.
  - intros [->|(f & -> & Hn)]; [done|]. unfold normalize_cnpj. by rewrite Hn.
  - intros Hv. unfold normalize_cnpj.
    destruct v as [| | |f|]; try done.
    destruct (f_isnan f) eqn:Hn; [|done]. destruct Hv. right. by exists f.
Qed.



End NormalizeFacts.

(** ** Batcher: [chunked] *)

Module ChunkFacts.
Import Py Shared Spec.

Section Chunks.
Context {A : Type}.
Implicit Types (items : list A) (size : Z) (k n : nat).

(** A slice that starts at a multiple of a positive [size] is a [take] of a
    [drop]. *)
Lemma slice_chunk items size k :
  0 < size →
  slice items (Z.of_nat k * size) (Z.of_nat k * size + size)
  = take (Z.to_nat size) (drop (k * Z.to_nat size) items).
Proof.
  intros Hsize. unfold slice.
  set (len := Z.of_nat (length items)).
  set (lo := Z.of_nat k * size).
  assert (0 ≤ lo) as Hlo by (unfold lo; nia).
  assert (Z.to_nat lo = (k * Z.to_nat size)%nat) as Hlo_nat by (unfold lo; nia).
  destruct (Z.ltb_spec lo 0) as [?|_]; [lia|].
  destruct (Z.ltb_spec (lo + size) 0) as [?|_]; [lia|].
  destruct (decide (lo ≤ len)) as [Hle|Hgt].
  - rewrite (Z.min_l lo len) by done. rewrite Hlo_nat.
    destruct (decide (lo + size ≤ len)) as [Hle2|Hgt2].
    + rewrite Z.min_l by done. f_equal. lia.
    + rewrite Z.min_r by lia.
      rewrite !take_ge; [done|rewrite length_drop; lia|rewrite length_drop; lia].
  - rewrite !Z.min_r by lia. rewrite Z.sub_diag. simpl.
    rewrite (drop_ge items (k * Z.to_nat size)) by lia. by destruct (Z.to_nat size).
Qed.

Lemma concat_takes items (s : nat) n :
  concat ((λ k, take s (drop (k * s) items)) <$> seq 0 n) = take (n * s) items.
Proof.
  induction n as [|n IH]; [done|].
  rewrite seq_S, fmap_app, concat_app, IH. simpl. rewrite app_nil_r.
  rewrite take_take_drop. f_equal. lia.
Qed.

(** The number of chunks: the length of [range(0, len, size)]. *)
Lemma chunked_positive items size :
  0 < size →
  chunked items size =
  Returns ((λ k, take (Z.to_nat size) (drop (k * Z.to_nat size) items))
           <$> seq 0 (Z.to_nat
                 (if 0 <? Z.of_nat (length items)
                  then (Z.of_nat (length items) - 0 - 1) / size + 1 else 0))).
Proof.
  intros Hsize. unfold chunked, range.
  destruct (Z.eqb_spec size 0) as [?|_]; [lia|].
  destruct (Z.ltb_spec 0 size) as [_|?]; [|lia].
  simpl. f_equal. rewrite <-list_fmap_compose.
  apply list_fmap_ext. intros _ k _. simpl.
  rewrite Z.add_0_l. by apply slice_chunk.
Qed.

Lemma chunk_count_bounds (len size : Z) :
  0 < size → 0 < len →
  let q := (len - 0 - 1) / size in
  0 ≤ q ∧ q * size < len ∧ len ≤ (q + 1) * size.
Proof.
  intros Hsize Hlen. simpl.
  pose proof (Z.div_mod (len - 0 - 1) size ltac:(lia)) as Hdm.
  pose proof (Z.mod_pos_bound (len - 0 - 1) size Hsize) as Hmod.
  assert (0 ≤ (len - 0 - 1) / size) by (apply Z.div_pos; lia).
  nia.
Qed.

(** C8, amended: for every input list and every positive chunk size, the
    chunks concatenate in order to the input list, each chunk is at most
    the chunk size long, and every chunk but the last is exactly the chunk
    size long. *)
Theorem chunked_partitions items size :
  0 < size → chunked_covers items size.
Proof.
  intros Hsize. unfold chunked_covers. rewrite chunked_positive by done.
  eexists. split; [done|].
  set (len := Z.of_nat (length items)).
  set (s := Z.to_nat size).
  set (n := Z.to_nat (if 0 <? len then (len - 0 - 1) / size + 1 else 0)).
  assert (length items ≤ n * s
          ∧ ∀ k, S k < n → (k * s + s ≤ length items))%nat as [Hcover Hfull].
  { unfold n. destruct (Z.ltb_spec 0 len) as [Hpos|Hzero].
    - destruct (chunk_count_bounds len size Hsize Hpos) as (Hq & Hlt & Hge).
      split; [unfold s, len in *; nia|].
      intros k Hk. unfold s, len in *. nia.
    - split; [unfold len in *; lia|]. intros k Hk. simpl in Hk. lia. }
  split_and!.
  - rewrite concat_takes. by apply take_ge.
  - apply Forall_fmap, Forall_forall. intros k _. simpl.
    rewrite length_take. unfold s. lia.
  - intros i c Hc Hi. rewrite length_fmap, length_seq in Hi.
    rewrite list_lookup_fmap in Hc.
    rewrite lookup_seq_lt in Hc by lia. simpl in Hc. injection Hc as <-.
    rewrite length_take, length_drop. specialize (Hfull i Hi). unfold s. lia.
Qed.

End Chunks.

Lemma chunked_partitions_witness :
  0 < 2 ∧ chunked_covers [1; 2; 3; 4; 5] 2.
Proof. split; [lia|]. apply (chunked_partitions [1; 2; 3; 4; 5] 2). lia. Defined.

(** C8, as stated, fails: a zero chunk size raises [ValueError] before any
    chunk is produced. *)
Lemma chunked_zero_size_fails : ¬ chunked_covers ["a"] 0.
Proof. intros (chunks & H & _). vm_compute in H. discriminate. Qed.

(** A negative chunk size yields no chunk at all. *)
Lemma chunked_negative_size_empty :
  chunked ["a"; "b"] (-1) = Returns [] ∧ ¬ chunked_covers ["a"; "b"] (-1).
Proof.
  split; [done|]. intros (chunks & H & Hcat & _).
  vm_compute in H. injection H as <-. discriminate.
Qed.

End ChunkFacts.

(** ** RequestExecutor: [authenticate] and [_request] *)

Module ApiFacts.
Import Py Shared Spec.

Lemma bind_run {A B} (m : M A) (k : A → M B) s :
  (m ≫= k) s =
  match m s with
  | (Returns a, s') => k a s'
  | (Raises e, s') => (Raises e, s')
  end.
Proof. done. Qed.

(** Unfolds the monad's operations down to functions on the state. *)
Ltac run_m :=
  unfold mbind, M_bind, bind, mret, M_ret, ret, raise, emit, get_trace,
    get_token, set_token in *;
  simpl in *.

Section WithWorld.
Variable w : world.

(** One turn of the attempt loop, as a function of the world's answers. *)
Lemma request_loop_step params retries attempt rest authorization s :
  let sent :=
    {| token := token s;
       trace := trace s ++ [EvGet (req_of params authorization)] |} in
  request_loop w params retries (attempt :: rest) authorization s =
  match http_get w (trace sent) with
  | GetRaises e => (Raises e, sent)
  | GetResponse r =>
      if status_code r =? 401 then
        match http_login w (trace sent ++ [EvLogin]) with
        | LoginRaises _ =>
            (Returns empty_payload,
             {| token := token s; trace := trace sent ++ [EvLogin] |})
        | LoginToken t =>
            let renewed := {| token := t; trace := trace sent ++ [EvLogin] |} in
            if token_truthy t
            then request_loop w params retries rest t renewed
            else (Returns empty_payload, renewed)
        end
      else if status_code r =? 404 then (Returns empty_payload, sent)
      else
        match bind_result (raise_for_status r) (λ _, response_json r) with
        | Returns p => (Returns p, sent)
        | Raises e =>
            if is_RequestException e then
              if attempt =? retries then (Returns empty_payload, sent)
              else request_loop w params retries rest authorization
                     {| token := token s;
                        trace := trace sent ++ [EvSleep (2 * attempt)] |}
            else (Raises e, sent)
        end
  end.
Proof.
  simpl. unfold session_get, authenticate, sleep. run_m.
  destruct (http_get w _) as [r|e]; [|done].
  destruct (status_code r =? 401).
  - destruct (http_login w _) as [e|t]; [done|]. simpl.
    by destruct (token_truthy t).
  - destruct (status_code r =? 404); [done|].
    destruct (bind_result _ _) as [p|e]; [done|].
    destruct (is_RequestException e); [|done].
    by destruct (attempt =? retries).
Qed.

Lemma consecutive_cons first count :
  consecutive first (S count) = first :: consecutive (first + 1) count.
Proof.
  unfold consecutive. simpl. rewrite Z.add_0_r. f_equal.
  rewrite <-fmap_S_seq, <-list_fmap_compose. apply list_fmap_ext.
  intros _ k _. simpl. lia.
Qed.

Lemma range_attempts retries :
  range 1 (retries + 1) 1 = Returns (consecutive 1 (Z.to_nat retries)).
Proof.
  unfold range, consecutive. simpl. f_equal.
  assert (Z.to_nat (if 1 <? retries + 1
                    then (retries + 1 - 1 - 1) / 1 + 1 else 0)
          = Z.to_nat retries) as ->.
  { destruct (Z.ltb_spec 1 (retries + 1)); [rewrite Z.div_1_r|]; lia. }
  apply list_fmap_ext. intros _ k _. lia.
Qed.

Lemma request_unfold params retries s :
  _request w params retries s
  = request_loop w params retries (consecutive 1 (Z.to_nat retries))
      (token s) s.
Proof. unfold _request. rewrite range_attempts. by run_m. Qed.

Lemma count_gets_app tr1 tr2 :
  count_gets (tr1 ++ tr2) = (count_gets tr1 + count_gets tr2)%nat.
Proof. unfold count_gets. by rewrite filter_app, length_app. Qed.

Lemma count_logins_app tr1 tr2 :
  count_logins (tr1 ++ tr2) = (count_logins tr1 + count_logins tr2)%nat.
Proof. unfold count_logins. by rewrite filter_app, length_app. Qed.

(** The loop sends at most one request per attempt number. *)
Lemma request_loop_gets params retries attempts authorization s :
  (count_gets (trace (request_loop w params retries attempts authorization s).2)
   ≤ count_gets (trace s) + length attempts)%nat.
Proof.
  revert authorization s.
  induction attempts as [|attempt rest IH]; intros authorization s.
  { simpl. lia. }
  rewrite request_loop_step. cbv zeta. cbn [trace token length].
  assert (count_gets (trace s ++ [EvGet (req_of params authorization)])
          = S (count_gets (trace s))) as Hsent.
  { rewrite count_gets_app. unfold count_gets at 2. simpl. lia. }
  destruct (http_get w _) as [r|e]; [|cbn [snd trace]; lia].
  destruct (status_code r =? 401).
  - destruct (http_login w _) as [e|t].
    + cbn [snd trace]. rewrite count_gets_app, Hsent. unfold count_gets at 2. simpl. lia.
    + cbv zeta. destruct (token_truthy t).
      * etrans; [apply IH|]. cbn [trace].
        rewrite count_gets_app, Hsent. unfold count_gets at 2. simpl. lia.
      * cbn [snd trace]. rewrite count_gets_app, Hsent.
        unfold count_gets at 2. simpl. lia.
  - destruct (status_code r =? 404); [cbn [snd trace]; lia|].
    destruct (bind_result _ _) as [p|e]; [cbn [snd trace]; lia|].
    destruct (is_RequestException e); [|cbn [snd trace]; lia].
    destruct (attempt =? retries); [cbn [snd trace]; lia|].
    etrans; [apply IH|]. cbn [trace].
    rewrite count_gets_app, Hsent. unfold count_gets at 2. simpl. lia.
Qed.

(** When each of its answers is a plain failure the loop runs through all
    its attempts, sleeping in between, and ends with the empty payload. *)
Lemma request_loop_all_fail params retries first count authorization s :
  let events :=
    consecutive first count
    ≫= λ attempt, EvGet (req_of params authorization)
         :: if attempt <? retries then [EvSleep (2 * attempt)] else [] in
  fails_during w s events →
  (0 < count)%nat → first + Z.of_nat count = retries + 1 →
  request_loop w params retries (consecutive first count) authorization s
  = (Returns empty_payload, {| token := token s; trace := trace s ++ events |}).
Proof.
  cbv zeta. revert first s.
  induction count as [|count IH]; intros first s Hfail Hpos Hlast; [lia|].
  rewrite consecutive_cons in Hfail |- *. rewrite request_loop_step.
  cbv zeta. cbn [trace token].
  cbn [mbind list_bind] in Hfail |- *. unfold mbind at 1 in Hfail. unfold mbind at 1.
  destruct (Hfail [] (req_of params authorization))
    as (r & Hget & H401 & H404 & e & Hraise & Hreq).
  { eexists. reflexivity. }
  simpl in Hget. rewrite Hget.
  destruct (Z.eqb_spec (status_code r) 401) as [?|_]; [done|].
  destruct (Z.eqb_spec (status_code r) 404) as [?|_]; [done|].
  rewrite Hraise, Hreq.
  destruct (Z.eqb_spec first retries) as [Heq|Hne].
  - assert (count = 0%nat) as -> by lia. simpl.
    destruct (Z.ltb_spec first retries); [lia|]. done.
  - destruct (Z.ltb_spec first retries) as [_|?]; [|lia].
    rewrite IH; [|  |lia|lia].
    + cbn [trace token]. do 2 f_equal. simpl. by rewrite <-!app_assoc.
    + intros before rq [rest Hpre]. cbn [trace].
      destruct (Hfail (EvGet (req_of params authorization)
                       :: EvSleep (2 * first) :: before) rq)
        as (r' & Hget' & Hfailing).
      { exists rest. unfold mbind in Hpre. simpl. by rewrite Hpre. }
      exists r'. split; [|done]. rewrite <-Hget'. f_equal.
      by rewrite <-!app_assoc.
Qed.

Lemma always_fails_during s events : always_fails w → fails_during w s events.
Proof. intros Hfail before rq _. apply Hfail. Qed.

(** Once the transport answers, the loop returns: nothing is raised. *)
Lemma request_loop_returns params retries attempts authorization s :
  responds w →
  ∃ p s', request_loop w params retries attempts authorization s = (Returns p, s').
Proof.
  intros Hresp. revert authorization s.
  induction attempts as [|attempt rest IH]; intros authorization s.
  { by eexists _, _. }
  rewrite request_loop_step. cbv zeta. cbn [trace token].
  destruct (Hresp (trace s ++ [EvGet (req_of params authorization)]))
    as (r & -> & Hjson).
  destruct (status_code r =? 401).
  - destruct (http_login w _) as [e|t]; [by eexists _, _|].
    destruct (token_truthy t); [apply IH|by eexists _, _].
  - destruct (status_code r =? 404); [by eexists _, _|].
    destruct (bind_result _ _) as [p|e] eqn:E; [by eexists _, _|].
    assert (is_RequestException e = true) as ->.
    { unfold raise_for_status, response_json in E.
      destruct (_ && _)%bool; simpl in E; [by injection E as <-|].
      destruct (json r) as [p|e'] eqn:Ej; [done|].
      injection E as <-. by apply Hjson. }
    destruct (attempt =? retries); [by eexists _, _|apply IH].
Qed.

Lemma request_returns params retries s :
  responds w → ∃ p s', _request w params retries s = (Returns p, s').
Proof. intros H. rewrite request_unfold. by apply request_loop_returns. Qed.

(** An exception of the transport leaves [_request] as it is. *)
Lemma request_raises params retries s e :
  0 < retries →
  http_get w (first_get params s) = GetRaises e →
  _request w params retries s
  = (Raises e, {| token := token s; trace := first_get params s |}).
Proof.
  intros Hpos Hget. rewrite request_unfold.
  destruct (Z.to_nat retries) as [|n] eqn:En; [lia|].
  rewrite consecutive_cons, request_loop_step. cbv zeta. cbn [trace].
  unfold first_get in Hget. by rewrite Hget.
Qed.

(** After [k] plain failures, each followed by its sleep, the loop stands at
    the next attempt number with the header and the token it started with. *)
Lemma request_loop_after_failures params retries first count k authorization s :
  (k < count)%nat → first + Z.of_nat count = retries + 1 →
  fails_during w s (failed_attempts (req_of params authorization) first k) →
  request_loop w params retries (consecutive first count) authorization s
  = request_loop w params retries
      (consecutive (first + Z.of_nat k) (count - k)) authorization
      {| token := token s;
         trace := trace s
                  ++ failed_attempts (req_of params authorization) first k |}.
Proof.
  unfold failed_attempts. revert first count s.
  induction k as [|k IH]; intros first count s Hk Hlast Hfail.
  { simpl. rewrite Z.add_0_r, Nat.sub_0_r, app_nil_r. by destruct s. }
  destruct count as [|count]; [lia|].
  rewrite (consecutive_cons first k) in Hfail |- *.
  rewrite (consecutive_cons first count).
  rewrite request_loop_step. cbv zeta. cbn [trace token].
  cbn [mbind list_bind] in Hfail |- *.
  unfold mbind at 1 in Hfail. unfold mbind at 1.
  destruct (Hfail [] (req_of params authorization))
    as (r0 & Hget0 & H401 & H404 & e0 & Hraise & Hreq).
  { eexists. reflexivity. }
  simpl in Hget0. rewrite Hget0.
  destruct (Z.eqb_spec (status_code r0) 401) as [?|_]; [done|].
  destruct (Z.eqb_spec (status_code r0) 404) as [?|_]; [done|].
  rewrite Hraise, Hreq.
  destruct (Z.eqb_spec first retries) as [?|_]; [lia|].
  rewrite (IH (first + 1) count); [|lia|lia|].
  - cbn [trace token]. replace (first + 1 + Z.of_nat k) with (first + Z.of_nat (S k)) by lia.
    replace (S count - S k)%nat with (count - k)%nat by lia.
    do 2 f_equal. simpl. by rewrite <-!app_assoc.
  - intros before rq [rest Hpre]. cbn [trace].
    destruct (Hfail (EvGet (req_of params authorization)
                     :: EvSleep (2 * first) :: before) rq)
      as (r' & Hget' & Hfailing).
    { exists rest. unfold mbind in Hpre. simpl. by rewrite Hpre. }
    exists r'. split; [|done]. rewrite <-Hget'. f_equal.
    by rewrite <-!app_assoc.
Qed.

(** A 401 at any turn of the loop. *)
Lemma request_loop_unauthorized params retries attempt rest authorization s r :
  http_get w (trace s ++ [EvGet (req_of params authorization)]) = GetResponse r →
  status_code r = 401 →
  request_loop w params retries (attempt :: rest) authorization s
  = let reauth := (trace s ++ [EvGet (req_of params authorization)]) ++ [EvLogin] in
    match http_login w reauth with
    | LoginRaises _ =>
        (Returns empty_payload, {| token := token s; trace := reauth |})
    | LoginToken t =>
        if token_truthy t
        then request_loop w params retries rest t {| token := t; trace := reauth |}
        else (Returns empty_payload, {| token := t; trace := reauth |})
    end.
Proof.
  intros Hget H401. rewrite request_loop_step. cbv zeta. cbn [trace token].
  by rewrite Hget, H401.
Qed.

(** An answer that succeeds ends the loop at once. *)
Lemma request_loop_succeeds params retries attempt rest authorization s r p :
  http_get w (trace s ++ [EvGet (req_of params authorization)]) = GetResponse r →
  successful_response r p →
  request_loop w params retries (attempt :: rest) authorization s
  = (Returns p,
     {| token := token s;
        trace := trace s ++ [EvGet (req_of params authorization)] |}).
Proof.
  intros Hget (H401 & H404 & Hok).
  rewrite request_loop_step. cbv zeta. cbn [trace token]. rewrite Hget.
  destruct (Z.eqb_spec (status_code r) 401) as [?|_]; [done|].
  destruct (Z.eqb_spec (status_code r) 404) as [?|_]; [done|].
  by rewrite Hok.
Qed.

End WithWorld.

Import Examples.

(** C3 at its failing input: the transport raises [ConnectionError] on the
    first request, and [_request] raises it to its caller, after that one
    request and without any retry, instead of returning the empty payload. *)
Theorem request_propagates_transport_error :
  _request w_connection_error some_params 3 logged_in
  = (Raises ConnectionError,
     {| token := Some "token-0";
        trace := [EvGet (req_of some_params (Some "token-0"))] |}).
Proof. apply request_raises; [lia|reflexivity]. Qed.

(** In every world [_request] makes at most [retries] calls of
    [session.get] and then stops; when each call is answered by a response
    that fails otherwise than by 401 or 404, it makes exactly the attempts
    [1..retries], sleeps [2 * attempt] seconds after each failed attempt but
    the last, and returns the empty payload. *)
Theorem request_retries_bounded (w : world) (params : gmap string value)
    (retries : Z) (s : api) :
  (count_gets (trace (_request w params retries s).2)
   ≤ count_gets (trace s) + Z.to_nat retries)%nat
  ∧ (fails_during w s (backoff_trace (req_of params (token s)) retries) →
       _request w params retries s
       = (Returns empty_payload,
          {| token := token s;
             trace := trace s ++ backoff_trace (req_of params (token s)) retries |})).
Proof.
  rewrite request_unfold. split.
  - etrans; [apply request_loop_gets|].
    unfold consecutive. by rewrite length_fmap, length_seq.
  - unfold backoff_trace. intros Hfail.
    destruct (Z.to_nat retries) as [|n] eqn:En.
    + simpl. rewrite app_nil_r. by destruct s.
    + apply request_loop_all_fail; [done|lia|lia].
Qed.

Lemma always_500_fails : always_fails w_always_500.
Proof.
  intros tr. eexists. split.
  - unfold w_always_500, scripted. simpl. by destruct (count_gets tr - 1)%nat.
  - split; [done|]. split; [done|]. by exists HTTPError.
Qed.

Lemma request_retries_bounded_witness :
  fails_during w_always_500 logged_in
    (backoff_trace (req_of some_params (token logged_in)) 3)
  ∧ _request w_always_500 some_params 3 logged_in
    = (Returns empty_payload,
       {| token := Some "token-0";
          trace := [ EvGet (req_of some_params (Some "token-0")); EvSleep 2;
                     EvGet (req_of some_params (Some "token-0")); EvSleep 4;
                     EvGet (req_of some_params (Some "token-0")) ] |}).
Proof.
  split; [exact (always_fails_during w_always_500 logged_in _ always_500_fails)|].
  exact (proj2 (request_retries_bounded w_always_500 some_params 3 logged_in)
           (always_fails_during w_always_500 logged_in _ always_500_fails)).
Defined.

(** C5 at its failing input: the first attempt fails with a server error,
    and the transport times out on the second.  [_request] has slept its two
    seconds and sent the second request; it then raises [Timeout] to its
    caller: the third attempt is not made and no empty payload is
    returned. *)
Theorem request_raises_after_retry :
  _request w_error_then_timeout some_params 3 logged_in
  = (Raises Timeout,
     {| token := Some "token-0";
        trace := [ EvGet (req_of some_params (Some "token-0")); EvSleep 2;
                   EvGet (req_of some_params (Some "token-0")) ] |}).
Proof.
  rewrite request_unfold.
  change (consecutive 1 (Z.to_nat 3)) with [1; 2; 3].
  rewrite request_loop_step. cbv zeta. cbn [trace token logged_in app].
  change (http_get w_error_then_timeout
            [EvGet (req_of some_params (Some "token-0"))])
    with (status 500).
  cbv beta iota delta [status status_code]. change (500 =? 401) with false.
  change (500 =? 404) with false. cbv iota.
  change (bind_result _ _) with (@Raises payload HTTPError).
  cbv beta iota delta [is_RequestException]. change (1 =? 3) with false.
  cbv iota. rewrite request_loop_step. cbv zeta. cbn [trace token app].
  reflexivity.
Qed.

(** C4, as stated, fails: a 401 uses up an attempt.  With three attempts,
    a 401 followed by two server errors ends in the empty payload, although
    the fourth answer would have been a success. *)
Lemma reauth_uses_attempt :
  ¬ reauth_keeps_attempts w_expired_then_errors some_params 3 logged_in.
Proof.
  intros H.
  specialize (H {| status_code := 401; json := JsonRaises JSONDecodeError |}
                "token-1" eq_refl eq_refl eq_refl ltac:(done)).
  apply (f_equal fst) in H. vm_compute in H. discriminate.
Qed.

(** C4, amended: at whatever attempt a request is answered 401, the
    executor re-authenticates once; if that fails (the login raises, or
    yields no token) it returns the empty payload at once; if it succeeds
    the loop goes on with the new token at the next attempt number, so the
    401 uses up one attempt, and a 401 at the last attempt ends in the empty
    payload.  For a call this reads: after [k] plain failures, a 401 at
    attempt [k + 1] that is followed by a successful login ends the call
    with the empty payload when [k + 1 = retries]; when attempts are left
    and the next answer succeeds, the call returns that answer's payload,
    the same as a call answered successfully at once, after exactly one
    login and one more request carrying the new token. *)
Theorem reauth_consumes_attempt (w : world) (params : gmap string value)
    (retries : Z) :
  (∀ s, _request w params retries s
        = request_loop w params retries (consecutive 1 (Z.to_nat retries))
            (token s) s)
  ∧ (∀ attempt rest authorization s r,
       let sent := trace s ++ [EvGet (req_of params authorization)] in
       let reauth := sent ++ [EvLogin] in
       http_get w sent = GetResponse r → status_code r = 401 →
       (∀ e, http_login w reauth = LoginRaises e →
          request_loop w params retries (attempt :: rest) authorization s
          = (Returns empty_payload, {| token := token s; trace := reauth |}))
       ∧ (∀ t, http_login w reauth = LoginToken t → token_truthy t = false →
            request_loop w params retries (attempt :: rest) authorization s
            = (Returns empty_payload, {| token := t; trace := reauth |}))
       ∧ (∀ t, http_login w reauth = LoginToken t → token_truthy t = true →
            request_loop w params retries (attempt :: rest) authorization s
            = request_loop w params retries rest t
                {| token := t; trace := reauth |}
            ∧ (rest = [] →
                 request_loop w params retries (attempt :: rest) authorization s
                 = (Returns empty_payload, {| token := t; trace := reauth |}))
            ∧ (∀ r2 p,
                 rest ≠ [] →
                 http_get w (reauth ++ [EvGet (req_of params t)]) = GetResponse r2 →
                 successful_response r2 p →
                 request_loop w params retries (attempt :: rest) authorization s
                 = (Returns p,
                    {| token := t;
                       trace := reauth ++ [EvGet (req_of params t)] |}))))
  ∧ (∀ s (k : nat) r,
       let rq := req_of params (token s) in
       let sent := trace s ++ failed_attempts rq 1 k ++ [EvGet rq] in
       let reauth := sent ++ [EvLogin] in
       (k < Z.to_nat retries)%nat →
       fails_during w s (failed_attempts rq 1 k) →
       http_get w sent = GetResponse r → status_code r = 401 →
       (∀ e, http_login w reauth = LoginRaises e →
          _request w params retries s
          = (Returns empty_payload, {| token := token s; trace := reauth |}))
       ∧ (∀ t, http_login w reauth = LoginToken t → token_truthy t = false →
            _request w params retries s
            = (Returns empty_payload, {| token := t; trace := reauth |}))
       ∧ (∀ t, http_login w reauth = LoginToken t → token_truthy t = true →
            (S k = Z.to_nat retries →
               _request w params retries s
               = (Returns empty_payload, {| token := t; trace := reauth |}))
            ∧ (∀ r2 p,
                 (S k < Z.to_nat retries)%nat →
                 http_get w (reauth ++ [EvGet (req_of params t)]) = GetResponse r2 →
                 successful_response r2 p →
                 _request w params retries s
                 = (Returns p,
                    {| token := t;
                       trace := reauth ++ [EvGet (req_of params t)] |})
                 ∧ ∀ w', http_get w' (first_get params s) = GetResponse r2 →
                         (_request w' params retries s).1 = Returns p))).
Proof.
  split; [apply request_unfold|]. split.
  - intros attempt rest authorization s r. cbv zeta. intros Hget H401.
    rewrite (request_loop_unauthorized w params retries attempt rest
               authorization s r Hget H401). cbv zeta.
    split_and!.
    + by intros e ->.
    + by intros t -> ->.
    + intros t -> ->. split_and!; [done|by intros ->|].
      intros r2 p Hrest Hget2 Hok. destruct rest as [|next rest']; [done|].
      by rewrite (request_loop_succeeds w params retries next rest' t
                    {| token := t; trace := _ |} r2 p Hget2 Hok).
  - intros s k r. cbv zeta. intros Hk Hfail Hget H401.
    assert (_request w params retries s
            = request_loop w params retries
                (consecutive (1 + Z.of_nat k) (Z.to_nat retries - k)) (token s)
                {| token := token s;
                   trace := trace s ++ failed_attempts (req_of params (token s)) 1 k |}) as Hreach.
    { rewrite request_unfold.
      by apply request_loop_after_failures; [|lia|]. }
    destruct (Z.to_nat retries - k)%nat as [|left] eqn:Eleft; [lia|].
    rewrite consecutive_cons in Hreach.
    assert (trace s ++ failed_attempts (req_of params (token s)) 1 k ++ [EvGet (req_of params (token s))]
            = (trace s ++ failed_attempts (req_of params (token s)) 1 k) ++ [EvGet (req_of params (token s))]) as Hsent.
    { by rewrite <-app_assoc. }
    rewrite Hsent in Hget |- *.
    rewrite (request_loop_unauthorized w params retries _ _ (token s)
               {| token := token s; trace := _ |} r Hget H401) in Hreach.
    cbv zeta in Hreach. cbn [trace token] in Hreach.
    rewrite Hreach. split_and!.
    + by intros e ->.
    + by intros t -> ->.
    + intros t -> ->. split.
      * intros Hlast. assert (left = 0%nat) as -> by lia. done.
      * intros r2 p Hmore Hget2 Hok.
        destruct left as [|left']; [lia|]. rewrite consecutive_cons.
        rewrite (request_loop_succeeds w params retries _ _ t
                   {| token := t; trace := _ |} r2 p Hget2 Hok).
        split; [done|].
        intros w' Hget'. rewrite request_unfold.
        destruct (Z.to_nat retries) as [|n]; [lia|].
        rewrite consecutive_cons.
        by rewrite (request_loop_succeeds w' params retries _ _ (token s) s
                      r2 p Hget' Hok).
Qed.

Lemma errors_then_expired_fail :
  fails_during w_errors_then_expired logged_in
    (failed_attempts (req_of some_params (token logged_in)) 1 2).
Proof.
  intros before rq Hpre.
  assert (failing_response
            {| status_code := 500; json := JsonRaises JSONDecodeError |}) as Hfailing.
  { split; [done|]. split; [done|]. by exists HTTPError. }
  destruct Hpre as [rest Hpre].
  change (failed_attempts (req_of some_params (token logged_in)) 1 2)
    with [ EvGet (req_of some_params (Some "token-0")); EvSleep 2;
           EvGet (req_of some_params (Some "token-0")); EvSleep 4 ] in Hpre.
  destruct before as [|e1 [|e2 [|e3 [|e4 before]]]]; simplify_eq/=;
    try (eexists; split; [reflexivity|exact Hfailing]).
  by destruct before.
Qed.

(** Two runs of three attempts: a 401 at the first attempt followed by a
    good answer, and a 401 at the last attempt, after two server errors,
    where the good answer that would come next is never asked for. *)
Lemma reauth_consumes_attempt_witness :
  _request w_expired_once some_params 3 logged_in
  = (Returns (page [occurrence "1" (PyStr "555")] 1),
     {| token := Some "token-1";
        trace := [ EvGet (req_of some_params (Some "token-0")); EvLogin;
                   EvGet (req_of some_params (Some "token-1")) ] |})
  ∧ _request w_errors_then_expired some_params 3 logged_in
    = (Returns empty_payload,
       {| token := Some "token-1";
          trace := [ EvGet (req_of some_params (Some "token-0")); EvSleep 2;
                     EvGet (req_of some_params (Some "token-0")); EvSleep 4;
                     EvGet (req_of some_params (Some "token-0")); EvLogin ] |}).
Proof.
  split.
  - destruct (reauth_consumes_attempt w_expired_once some_params 3)
      as (_ & _ & Hcall).
    destruct (Hcall logged_in 0%nat
                {| status_code := 401; json := JsonRaises JSONDecodeError |})
      as (_ & _ & Hrenewed); [simpl; lia| |reflexivity|reflexivity|].
    { intros before rq [rest Hpre]. by destruct before. }
    destruct (Hrenewed (Some "token-1") eq_refl eq_refl) as [_ Hnext].
    apply (Hnext {| status_code := 200;
                    json := JsonOk (page [occurrence "1" (PyStr "555")] 1) |}
                 (page [occurrence "1" (PyStr "555")] 1));
      [simpl; lia|reflexivity|].
    split; [done|]. split; [done|]. reflexivity.
  - destruct (reauth_consumes_attempt w_errors_then_expired some_params 3)
      as (_ & _ & Hcall).
    destruct (Hcall logged_in 2%nat
                {| status_code := 401; json := JsonRaises JSONDecodeError |})
      as (_ & _ & Hrenewed);
      [simpl; lia|exact errors_then_expired_fail|reflexivity|reflexivity|].
    destruct (Hrenewed (Some "token-1") eq_refl eq_refl) as [Hlast _].
    apply Hlast. reflexivity.
Defined.

End ApiFacts.

(** ** Paginator: [fetch_ocorrencias] of the order-number script *)

Module PageFacts.
Import Py Shared Spec ApiFacts.
Import Preventivos.

Section WithWorld.
Variable w : world.

Lemma range_pages total_pages :
  range 1 total_pages 1 = Returns (consecutive 1 (Z.to_nat (total_pages - 1))).
Proof.
  replace total_pages with (total_pages - 1 + 1) at 1 by lia.
  apply range_attempts.
Qed.

(** The loop's accumulator and its mutated [params] against the
    collect-then-concatenate form. *)
Lemma page_loop_for_each params0 pages params respostas s :
  (∀ page, <["page" := PyInt page]> params = <["page" := PyInt page]> params0) →
  page_loop w pages params respostas s
  = (later ← for_each (λ page, _request w (<["page" := PyInt page]> params0) 3) pages;
     mret (respostas ++ concat (payload_respostas <$> later))) s.
Proof.
  revert params respostas s.
  induction pages as [|page rest IH]; intros params respostas s Hparams.
  { run_m. by rewrite app_nil_r. }
  cbn [page_loop for_each]. rewrite Hparams.
  rewrite !bind_run.
  destruct (_request w _ 3 s) as [[p|e] s1]; [|done].
  rewrite IH.
  - rewrite !bind_run.
    destruct (for_each _ rest s1) as [[later|e] s2]; [|done].
    run_m. by rewrite <-app_assoc.
  - intros page'. by rewrite insert_insert_eq.
Qed.

Lemma fetch_paginates pedidos s :
  fetch_ocorrencias w pedidos s = paginate w pedidos s.
Proof.
  unfold fetch_ocorrencias, paginate. rewrite !bind_run.
  change (get_trace s) with (Returns (trace s), s). cbv iota beta.
  rewrite !bind_run.
  destruct (_request w _ 3 s) as [[first|e] s1]; [|done].
  rewrite range_pages.
  rewrite (page_loop_for_each (fetch_params pedidos (clock w (trace s)))) by done.
  rewrite !bind_run.
  by destruct (for_each _ _ s1) as [[later|e] s2].
Qed.

Lemma for_each_request_returns (params : Z → gmap string value) pages s :
  responds w →
  ∃ ps s', for_each (λ page, _request w (params page) 3) pages s = (Returns ps, s')
           ∧ length ps = length pages.
Proof.
  intros Hresp. revert s. induction pages as [|page rest IH]; intros s.
  { by eexists _, _. }
  cbn [for_each]. rewrite bind_run.
  destruct (request_returns w (params page) 3 s Hresp) as (p & s1 & ->).
  rewrite bind_run. destruct (IH s1) as (ps & s2 & -> & Hlen).
  eexists _, _. split; [done|]. simpl. by rewrite Hlen.
Qed.

End WithWorld.

Import Examples.

Lemma fetch_returns (w : world) (pedidos : list string) (s : api) :
  responds w →
  ∃ first later s',
    _request w (fetch_params pedidos (clock w (trace s))) 3 s
      = (Returns first, s')
    ∧ length later = Z.to_nat (payload_total_pages first - 1)
    ∧ (fetch_ocorrencias w pedidos s).1
      = Returns (concat (payload_respostas <$> first :: later)).
Proof.
  intros Hresp. rewrite fetch_paginates. unfold paginate.
  rewrite !bind_run. change (get_trace s) with (Returns (trace s), s).
  cbv iota beta. rewrite !bind_run.
  destruct (request_returns w (fetch_params pedidos (clock w (trace s))) 3 s Hresp)
    as (first & s1 & ->).
  rewrite bind_run.
  destruct (for_each_request_returns w
              (λ page, <["page" := PyInt page]> (fetch_params pedidos (clock w (trace s))))
              (consecutive 1 (Z.to_nat (payload_total_pages first - 1))) s1 Hresp)
    as (later & s2 & -> & Hlen).
  exists first, later, s1. split; [done|]. split; [|done].
  rewrite Hlen. unfold consecutive. by rewrite length_fmap, length_seq.
Qed.

Lemma scripted_responds gets fallback logins :
  Forall (λ o, ∃ r, o = GetResponse r
                    ∧ ∀ e, json r = JsonRaises e → is_RequestException e = true)
         (fallback :: gets) →
  responds (scripted gets fallback logins).
Proof.
  intros Hall tr. unfold scripted. simpl.
  rewrite Forall_forall in Hall. apply Hall.
  destruct (nth_in_or_default (count_gets tr - 1) gets fallback) as [Hin| ->].
  - apply list_elem_of_In in Hin. by apply list_elem_of_further.
  - apply list_elem_of_here.
Qed.

Lemma ok_well_formed p :
  ∃ r, ok p = GetResponse r
       ∧ ∀ e, json r = JsonRaises e → is_RequestException e = true.
Proof. eexists. split; [done|]. by intros e [=]. Qed.

Lemma status_well_formed code :
  ∃ r, status code = GetResponse r
       ∧ ∀ e, json r = JsonRaises e → is_RequestException e = true.
Proof. eexists. split; [done|]. by intros e [= <-]. Qed.

#[local] Hint Resolve ok_well_formed status_well_formed : core.

Lemma middle_page_world_responds : responds w_middle_page_fails.
Proof. apply scripted_responds. repeat constructor; auto. Qed.

(** With three pages of which the second fails on all its attempts, the
    records of the first and of the third page are returned, in order. *)
Lemma failed_page_contributes_nothing :
  (fetch_ocorrencias w_middle_page_fails ["555"; "556"] logged_in).1
  = Returns [occurrence "1" (PyStr "555"); occurrence "25" (PyStr "556")].
Proof. reflexivity. Qed.

(** C6 at its failing input: the first answer reports three pages and the
    transport times out on the query for page 1.  [fetch_ocorrencias] raises
    [Timeout] to its caller after these two requests: page 2 is never asked
    for and the records of page 0 are not returned, where the page should
    have counted as empty and the other pages been kept. *)
Theorem page_timeout_aborts_fetch :
  (fetch_ocorrencias w_page_times_out ["555"; "556"] logged_in).1
  = Raises Timeout
  ∧ requested_pages
      (trace (fetch_ocorrencias w_page_times_out ["555"; "556"] logged_in).2)
    = [Some (PyInt 0); Some (PyInt 1)].
Proof. split; vm_compute; reflexivity. Qed.

End PageFacts.

(** ** StatusClassifier *)

Module ClassifierFacts.
Import Py Shared Spec.

Lemma entregue_codes_spec c :
  c ∈ ENTREGUE_CODES ↔ c = "1" ∨ c = "2" ∨ c = "37" ∨ c = "999".
Proof.
  unfold ENTREGUE_CODES. rewrite !elem_of_union, !elem_of_singleton. tauto.
Qed.

Lemma cancelado_codes_spec c :
  c ∈ CANCELADO_CODES
  ↔ c = "25" ∨ c = "102" ∨ c = "203" ∨ c = "303" ∨ c = "325" ∨ c = "327".
Proof.
  unfold CANCELADO_CODES. rewrite !elem_of_union, !elem_of_singleton. tauto.
Qed.

(** No code is both a delivery and a cancellation code. *)
Lemma code_sets_disjoint c : c ∈ ENTREGUE_CODES → c ∈ CANCELADO_CODES → False.
Proof.
  rewrite entregue_codes_spec, cancelado_codes_spec.
  intros [Hc|[Hc|[Hc|Hc]]] H; subst c;
    repeat destruct H as [H|H]; discriminate.
Qed.

Lemma any_code_app codes items1 items2 :
  any_code codes (items1 ++ items2)
  = any_code codes items1 || any_code codes items2.
Proof. unfold any_code. apply existsb_app. Qed.

(** The order of the records does not matter to [any_code]. *)
Lemma any_code_perm codes items items' :
  items ≡ₚ items' → any_code codes items = any_code codes items'.
Proof.
  induction 1 as [|it l l' _ IH|it1 it2 l|l1 l2 l3 _ IH1 _ IH2]; simpl.
  - done.
  - by rewrite IH.
  - by rewrite !orb_assoc, (orb_comm (bool_decide _)).
  - by rewrite IH1.
Qed.

Lemma expected_status_perm default items items' :
  items ≡ₚ items' → expected_status default items = expected_status default items'.
Proof.
  intros H. unfold expected_status.
  by rewrite !(any_code_perm _ items items' H).
Qed.

(** *** The invoice script's classifier *)

Lemma cobranca_scan_from flags items :
  foldl (λ flags it,
           let codigo := extract_codigo it in
           (if bool_decide (codigo ∈ ENTREGUE_CODES) then true else flags.1,
            if bool_decide (codigo ∈ CANCELADO_CODES) then true else flags.2))
        flags items
  = (flags.1 || any_code ENTREGUE_CODES items,
     flags.2 || any_code CANCELADO_CODES items).
Proof.
  revert flags. induction items as [|it rest IH]; intros [e c]; simpl.
  { by rewrite !orb_false_r. }
  rewrite IH. simpl.
  destruct (bool_decide (extract_codigo it ∈ ENTREGUE_CODES));
    destruct (bool_decide (extract_codigo it ∈ CANCELADO_CODES));
    simpl; by rewrite ?orb_true_r.
Qed.

Lemma cobranca_classify_expected items :
  Cobranca.classify items = expected_status "-" items.
Proof.
  unfold Cobranca.classify, Cobranca.scan. by rewrite cobranca_scan_from.
Qed.

(** *** The order script's flags *)

Import Preventivos.

Lemma info_eta i : {| entregue := entregue i; cancelado := cancelado i |} = i.
Proof. by destruct i. Qed.

(** One record touches the flags of its own order only. *)
Lemma scan_item_lookup flags it k :
  scan_item flags it !! k
  = (if bool_decide (extract_pedido it = k ∧ k ≠ "") then raise_flags it else id)
      <$> flags !! k.
Proof.
  unfold scan_item.
  destruct (String.eqb_spec (extract_pedido it) "") as [Hempty|Hne]; simpl.
  { rewrite bool_decide_eq_false_2 by (intros [<- ?]; done).
    by rewrite option_fmap_id. }
  case_bool_decide as Hnone.
  { case_bool_decide as Hk; [|by rewrite option_fmap_id].
    destruct Hk as [<- _]. by rewrite Hnone. }
  destruct (decide (extract_pedido it = k)) as [<-|Hother].
  - rewrite (bool_decide_eq_true_2 (_ ∧ _)) by auto.
    destruct (flags !! extract_pedido it) as [i|] eqn:Hi; [|done].
    unfold raise_flags.
    do 2 case_bool_decide; rewrite ?lookup_alter_eq, ?Hi; simpl;
      rewrite ?orb_true_r, ?orb_false_r, ?info_eta; done.
  - rewrite (bool_decide_eq_false_2 (_ ∧ _)) by (intros [? _]; done).
    rewrite option_fmap_id.
    do 2 case_bool_decide; by rewrite ?lookup_alter_ne.
Qed.

Lemma scan_items_lookup flags items k :
  scan_items flags items !! k = raise_all (records_of k items) <$> flags !! k.
Proof.
  unfold scan_items. revert flags.
  induction items as [|it rest IH]; intros flags; simpl.
  { destruct (flags !! k) as [i|]; [|done]. simpl. f_equal.
    unfold raise_all. simpl. by rewrite !orb_false_r, info_eta. }
  rewrite IH, scan_item_lookup. unfold records_of.
  rewrite filter_cons. destruct (flags !! k) as [i|]; [|done]. simpl. f_equal.
  case_bool_decide as Hk.
  - rewrite decide_True by done. unfold raise_all, raise_flags. simpl.
    by rewrite !orb_assoc.
  - by rewrite decide_False by done.
Qed.

Lemma initial_flags_from (flags : gmap string info) pedidos k :
  foldl (λ flags pedido,
           <[pedido := {| entregue := false; cancelado := false |}]> flags)
        flags pedidos !! k
  = if decide (k ∈ pedidos)
    then Some {| entregue := false; cancelado := false |} else flags !! k.
Proof.
  revert flags. induction pedidos as [|p rest IH]; intros flags; cbn [foldl].
  { rewrite decide_False; [done|apply not_elem_of_nil]. }
  rewrite IH.
  destruct (decide (k ∈ rest)) as [H1|H1], (decide (k ∈ p :: rest)) as [H2|H2];
    try done.
  - exfalso. apply H2. by right.
  - apply elem_of_cons in H2 as [->|?]; [by rewrite lookup_insert_eq|done].
  - rewrite lookup_insert_ne; [done|]. intros ->. apply H2. by left.
Qed.

Lemma initial_flags_lookup pedidos k :
  initial_flags pedidos !! k
  = if decide (k ∈ pedidos)
    then Some {| entregue := false; cancelado := false |} else None.
Proof. unfold initial_flags. by rewrite initial_flags_from. Qed.

(** The table holds, for each queried order, the expected status of the
    records attributed to it, and nothing else. *)
Lemma status_table_lookup pedidos items k :
  status_table pedidos items !! k
  = if decide (k ∈ pedidos)
    then Some (expected_status "DESPACHADO" (records_of k items)) else None.
Proof.
  unfold status_table. rewrite lookup_fmap, scan_items_lookup, initial_flags_lookup.
  case_decide; [|done].
  unfold status_of, expected_status, raise_all. done.
Qed.

Lemma status_table_dom pedidos items :
  dom (status_table pedidos items) = list_to_set pedidos.
Proof.
  apply set_eq. intros k.
  rewrite elem_of_dom, status_table_lookup, elem_of_list_to_set.
  destruct (decide (k ∈ pedidos)); split; intros Hk; done.
Qed.

Lemma records_of_perm k items items' :
  items ≡ₚ items' → records_of k items ≡ₚ records_of k items'.
Proof. intros H. unfold records_of. by rewrite H. Qed.

Lemma status_table_perm pedidos items items' :
  items ≡ₚ items' → status_table pedidos items = status_table pedidos items'.
Proof.
  intros H. apply map_eq. intros k. rewrite !status_table_lookup.
  case_decide; [|done]. f_equal.
  apply expected_status_perm, records_of_perm, H.
Qed.

(** C1: the classifier returns ENTREGUE when some record's extracted code is
    in the ENTREGUE set, otherwise CANCELADO when some extracted code is in
    the CANCELADO set, otherwise the variant's default (["-"] for invoices,
    [DESPACHADO] for orders, where the records of an order are those
    attributed to it); ENTREGUE wins when both kinds of code are present;
    and permuting the records changes nothing. *)
Theorem classifier_priority (items items' : list item) (pedidos : list string)
    (k : string) :
  items ≡ₚ items' →
  k ∈ pedidos →
  Cobranca.classify items = expected_status "-" items
  ∧ status_table pedidos items !! k
    = Some (expected_status "DESPACHADO" (records_of k items))
  ∧ (∀ default,
       any_code ENTREGUE_CODES items = true →
       expected_status default items = "ENTREGUE")
  ∧ (∀ default,
       any_code ENTREGUE_CODES items = false →
       any_code CANCELADO_CODES items = true →
       expected_status default items = "CANCELADO")
  ∧ (∀ default,
       any_code ENTREGUE_CODES items = false →
       any_code CANCELADO_CODES items = false →
       expected_status default items = default)
  ∧ Cobranca.classify items = Cobranca.classify items'
  ∧ status_table pedidos items = status_table pedidos items'.
Proof.
  intros Hperm Hk. split_and!.
  - apply cobranca_classify_expected.
  - rewrite status_table_lookup. by rewrite decide_True.
  - intros default H. unfold expected_status. by rewrite H.
  - intros default H1 H2. unfold expected_status. by rewrite H1, H2.
  - intros default H1 H2. unfold expected_status. by rewrite H1, H2.
  - rewrite !cobranca_classify_expected. by apply expected_status_perm.
  - by apply status_table_perm.
Qed.

Lemma classifier_priority_witness :
  let delivered := Examples.occurrence "1" (PyStr "555") in
  let cancelled := Examples.occurrence "25" (PyStr "555") in
  Cobranca.classify [cancelled; delivered] = "ENTREGUE"
  ∧ status_table ["555"] [cancelled; delivered] !! "555" = Some "ENTREGUE"
  ∧ Cobranca.classify [cancelled; delivered] = Cobranca.classify [delivered; cancelled].
Proof.
  intros delivered cancelled.
  destruct (classifier_priority [cancelled; delivered] [delivered; cancelled]
              ["555"] "555")
    as (H1 & H2 & _ & _ & _ & H6 & _).
  - apply perm_swap.
  - apply list_elem_of_here.
  - split; [by rewrite H1|]. split; [by rewrite H2|exact H6].
Defined.

End ClassifierFacts.

(** ** Resolver: [resolver_status] of both scripts *)

Module ResolverFacts.
Import Py Shared Spec ApiFacts PageFacts ClassifierFacts.

Lemma for_each_returns {A B} (f : A → M B) l :
  (∀ x s, ∃ y s', f x s = (Returns y, s')) →
  ∀ s, ∃ ys s', for_each f l s = (Returns ys, s') ∧ length ys = length l.
Proof.
  intros Hf. induction l as [|x rest IH]; intros s.
  { by eexists _, _. }
  cbn [for_each]. rewrite bind_run.
  destruct (Hf x s) as (y & s1 & ->).
  rewrite bind_run. destruct (IH s1) as (ys & s2 & -> & Hlen).
  eexists _, _. split; [done|]. simpl. by rewrite Hlen.
Qed.

Lemma for_each_length {A B} (f : A → M B) l s ys s' :
  for_each f l s = (Returns ys, s') → length ys = length l.
Proof.
  revert s ys. induction l as [|x rest IH]; intros s ys.
  { run_m. by intros [= <- _]. }
  cbn [for_each]. rewrite bind_run.
  destruct (f x s) as [[y|e] s1]; [|by intros [=]].
  rewrite bind_run.
  destruct (for_each f rest s1) as [[ys'|e] s2] eqn:E; [|by intros [=]].
  run_m. intros [= <- <-]. simpl. f_equal. by eapply IH.
Qed.

Lemma new_api_returns w s :
  ∃ s', new_api w s = (Returns tt, s').
Proof.
  unfold new_api, authenticate. run_m.
  destruct (http_login w _); by eexists.
Qed.

(** *** The invoice script *)

Section Invoices.
Variable w : world.

Lemma invoice_fetch_returns nf cnpj s :
  responds w → ∃ recs s', Cobranca.fetch_ocorrencias w nf cnpj s = (Returns recs, s').
Proof.
  intros Hresp. unfold Cobranca.fetch_ocorrencias. rewrite bind_run.
  destruct (request_returns w
    (list_to_map [("numero", PyStr nf); ("cnpjEmbarcador", PyStr cnpj);
                  ("codigoOcorrencia", PyStr ALL_CODES)]) 3 s Hresp)
    as (p & s1 & ->).
  by eexists _, _.
Qed.

Lemma resolver_loop_for_each pares status_map s :
  Cobranca.resolver_loop w pares status_map s
  = (fetched ← for_each (λ par, Cobranca.fetch_ocorrencias w par.1 par.2) pares;
     mret (foldl (λ m e, <[e.1 := Cobranca.classify e.2]> m) status_map
             (zip pares fetched))) s.
Proof.
  revert status_map s.
  induction pares as [|[nf cnpj] rest IH]; intros status_map s; [done|].
  cbn [Cobranca.resolver_loop for_each]. rewrite !bind_run. simpl.
  destruct (Cobranca.fetch_ocorrencias w nf cnpj s) as [[recs|e] s1]; [|done].
  rewrite IH, !bind_run.
  by destruct (for_each _ rest s1) as [[fetched|e] s2].
Qed.

Lemma invoices_resolve pares s :
  Cobranca.resolver_status w pares s = resolve_invoices w pares s.
Proof.
  unfold Cobranca.resolver_status, resolve_invoices. rewrite !bind_run.
  destruct (new_api w s) as [[[]|e] s1]; [|done].
  apply resolver_loop_for_each.
Qed.

End Invoices.

Lemma invoice_table_from (m : gmap (string * string) string) entries :
  dom (foldl (λ m e, <[e.1 := Cobranca.classify e.2]> m) m entries)
  = dom m ∪ list_to_set entries.*1.
Proof.
  revert m. induction entries as [|[k recs] rest IH]; intros m; simpl.
  { by rewrite (right_id_L ∅ (∪)). }
  rewrite IH, dom_insert_L.
  by rewrite (comm_L (∪) {[k]} (dom m)), <-(assoc_L (∪)).
Qed.

Lemma invoice_table_dom entries :
  dom (invoice_table entries) = list_to_set entries.*1.
Proof.
  unfold invoice_table.
  by rewrite invoice_table_from, dom_empty_L, (left_id_L ∅ (∪)).
Qed.

(** Each key of the table is classified from the records of one of its
    fetches (the last one, should a pair be queried twice). *)
Lemma invoice_table_lookup entries k :
  k ∈ entries.*1 →
  ∃ recs, (k, recs) ∈ entries
          ∧ invoice_table entries !! k = Some (expected_status "-" recs).
Proof.
  unfold invoice_table.
  induction entries as [|[k' recs'] rest IH] using rev_ind; [by intros ?%elem_of_nil|].
  rewrite fmap_app, foldl_snoc. simpl. intros Hk.
  destruct (decide (k' = k)) as [->|Hne].
  - exists recs'. split; [apply elem_of_app; right; by left|].
    by rewrite lookup_insert_eq, cobranca_classify_expected.
  - rewrite lookup_insert_ne by done.
    apply elem_of_app in Hk as [Hk|Hk].
    + destruct (IH Hk) as (recs & Hin & Hl). exists recs.
      split; [apply elem_of_app; by left|done].
    + apply list_elem_of_singleton in Hk. done.
Qed.

(** *** The order script *)

Section Orders.
Variable w : world.

Lemma order_fetch_returns pedidos s :
  responds w → ∃ recs s', Preventivos.fetch_ocorrencias w pedidos s = (Returns recs, s').
Proof.
  intros Hresp.
  destruct (fetch_returns w pedidos s Hresp) as (first & later & s1 & _ & _ & H).
  destruct (Preventivos.fetch_ocorrencias w pedidos s) as [r s']. simpl in H.
  subst r. by eexists _, _.
Qed.

Lemma sublote_loop_for_each sublotes flags s :
  Preventivos.sublote_loop w sublotes flags s
  = (fetched ← for_each (Preventivos.fetch_ocorrencias w) sublotes;
     mret (Preventivos.scan_items flags (concat fetched))) s.
Proof.
  revert flags s.
  induction sublotes as [|sublote rest IH]; intros flags s; [done|].
  cbn [Preventivos.sublote_loop for_each]. rewrite !bind_run.
  destruct (Preventivos.fetch_ocorrencias w sublote s) as [[recs|e] s1]; [|done].
  rewrite IH, !bind_run.
  destruct (for_each _ rest s1) as [[fetched|e] s2]; [|done].
  run_m. unfold Preventivos.scan_items. by rewrite foldl_app.
Qed.

Lemma orders_resolve pedidos s :
  Preventivos.resolver_status w pedidos s = resolve_orders w pedidos s.
Proof.
  unfold Preventivos.resolver_status, resolve_orders. rewrite !bind_run.
  destruct (new_api w s) as [[[]|e] s1]; [|done].
  destruct (chunked pedidos Preventivos.SUBLOTE_SIZE) as [sublotes|e]; [|done].
  rewrite bind_run, sublote_loop_for_each, !bind_run.
  by destruct (for_each _ sublotes s1) as [[fetched|e] s2].
Qed.

End Orders.

(** *** Records dropped from the world's answers *)

Section Thinned.
Variables (drop : item → bool) (w : world).


Lemma thin_respostas p :
  payload_respostas (thin drop p) = filter (λ it, drop it = false) (payload_respostas p).
Proof. unfold payload_respostas, thin. simpl. by destruct (respostas p). Qed.

(** The thinned world answers the same requests with thinned payloads. *)
Lemma request_loop_thin params retries attempts authorization s :
  request_loop (without_records drop w) params retries attempts authorization s
  = (map_result (thin drop) (request_loop w params retries attempts authorization s).1,
     (request_loop w params retries attempts authorization s).2).
Proof.
  revert authorization s.
  induction attempts as [|attempt rest IH]; intros authorization s; [done|].
  rewrite !request_loop_step. cbv zeta. cbn [trace token].
  cbn [without_records http_get http_login].
  destruct (http_get w _) as [r|e]; [|done]. cbn [status_code].
  destruct (status_code r =? 401).
  - destruct (http_login w _) as [e|t]; [done|].
    destruct (token_truthy t); [apply IH|done].
  - destruct (status_code r =? 404); [done|].
    unfold raise_for_status, response_json. cbn [status_code json].
    destruct (_ && _)%bool; cbn [bind_result].
    + cbn [is_RequestException]. destruct (attempt =? retries); [done|apply IH].
    + destruct (json r) as [p|e]; [done|].
      destruct (is_RequestException e); [|done].
      destruct (attempt =? retries); [done|apply IH].
Qed.

Lemma request_thin params retries s :
  _request (without_records drop w) params retries s
  = (map_result (thin drop) (_request w params retries s).1,
     (_request w params retries s).2).
Proof. rewrite !request_unfold. apply request_loop_thin. Qed.

Lemma page_loop_thin pages params respostas s :
  Preventivos.page_loop (without_records drop w) pages params (filter (λ it, drop it = false) respostas) s
  = (map_result (filter (λ it, drop it = false)) (Preventivos.page_loop w pages params respostas s).1,
     (Preventivos.page_loop w pages params respostas s).2).
Proof.
  revert params respostas s.
  induction pages as [|page rest IH]; intros params respostas s; [done|].
  cbn [Preventivos.page_loop]. rewrite !bind_run, request_thin.
  destruct (_request w _ 3 s) as [[p|e] s1]; [|done].
  cbn [map_result fst snd]. rewrite thin_respostas, <-filter_app. apply IH.
Qed.

Lemma order_fetch_thin pedidos s :
  Preventivos.fetch_ocorrencias (without_records drop w) pedidos s
  = (map_result (filter (λ it, drop it = false)) (Preventivos.fetch_ocorrencias w pedidos s).1,
     (Preventivos.fetch_ocorrencias w pedidos s).2).
Proof.
  unfold Preventivos.fetch_ocorrencias. rewrite !bind_run.
  change (get_trace s) with (Returns (trace s), s). cbv iota beta.
  rewrite !bind_run, request_thin. cbn [without_records clock].
  destruct (_request w _ 3 s) as [[p|e] s1]; [|done].
  cbn [map_result fst snd].
  assert (payload_total_pages (thin drop p) = payload_total_pages p) as -> by done.
  destruct (range 1 (payload_total_pages p) 1) as [pages|e]; [|done].
  rewrite thin_respostas. apply page_loop_thin.
Qed.

Lemma invoice_fetch_thin nf cnpj s :
  Cobranca.fetch_ocorrencias (without_records drop w) nf cnpj s
  = (map_result (filter (λ it, drop it = false)) (Cobranca.fetch_ocorrencias w nf cnpj s).1,
     (Cobranca.fetch_ocorrencias w nf cnpj s).2).
Proof.
  unfold Cobranca.fetch_ocorrencias. rewrite !bind_run, request_thin.
  destruct (_request w _ 3 s) as [[p|e] s1]; [|done].
  cbn [map_result fst snd]. run_m. by rewrite thin_respostas.
Qed.

End Thinned.

(** Records that are foreign to the queried orders leave no mark on the
    flags. *)
Lemma scan_items_foreign pedidos flags items :
  (∀ k, is_Some (flags !! k) → k ∈ pedidos) →
  Preventivos.scan_items flags (filter (λ it, foreign pedidos it = false) items)
  = Preventivos.scan_items flags items.
Proof.
  intros Hdom. apply map_eq. intros k. rewrite !scan_items_lookup.
  destruct (flags !! k) as [i|] eqn:Hk; [|done].
  assert (k ∈ pedidos) as Hin by (apply Hdom; by rewrite Hk).
  simpl. do 2 f_equal. unfold records_of. apply list_filter_filter_l.
  intros it [Hit Hne]. unfold foreign. apply bool_decide_eq_false_2.
  rewrite Hit. by intros [?|?].
Qed.

Lemma scan_items_dom flags items k :
  is_Some (Preventivos.scan_items flags items !! k) ↔ is_Some (flags !! k).
Proof. rewrite scan_items_lookup. apply fmap_is_Some. Qed.

Lemma sublote_loop_thin pedidos w sublotes flags s :
  (∀ k, is_Some (flags !! k) → k ∈ pedidos) →
  Preventivos.sublote_loop (without_records (foreign pedidos) w) sublotes flags s
  = Preventivos.sublote_loop w sublotes flags s.
Proof.
  revert flags s. induction sublotes as [|sublote rest IH]; intros flags s Hdom; [done|].
  cbn [Preventivos.sublote_loop]. rewrite !bind_run, order_fetch_thin.
  destruct (Preventivos.fetch_ocorrencias w sublote s) as [[recs|e] s1]; [|done].
  cbn [map_result fst snd]. rewrite scan_items_foreign by done.
  apply IH. intros k Hk. apply Hdom. by apply scan_items_dom in Hk.
Qed.

(** The order resolver does not see the records foreign to its orders. *)
Lemma orders_ignore_foreign w pedidos s :
  Preventivos.resolver_status (without_records (foreign pedidos) w) pedidos s
  = Preventivos.resolver_status w pedidos s.
Proof.
  unfold Preventivos.resolver_status. rewrite !bind_run.
  change (new_api (without_records (foreign pedidos) w) s) with (new_api w s).
  destruct (new_api w s) as [[[]|e] s1]; [|done].
  destruct (chunked pedidos Preventivos.SUBLOTE_SIZE) as [sublotes|e]; [|done].
  rewrite !bind_run, sublote_loop_thin; [done|].
  intros k Hk. rewrite initial_flags_lookup in Hk.
  case_decide; [done|]. by destruct Hk.
Qed.

Import Examples.

Lemma invoices_resolve_returns w pares s :
  responds w → ∃ m s', Cobranca.resolver_status w pares s = (Returns m, s').
Proof.
  intros Hresp. rewrite invoices_resolve. unfold resolve_invoices.
  rewrite bind_run. destruct (new_api_returns w s) as (s1 & ->).
  rewrite bind_run.
  destruct (for_each_returns (λ par, Cobranca.fetch_ocorrencias w par.1 par.2) pares
              (λ par s, invoice_fetch_returns w par.1 par.2 s Hresp) s1)
    as (fetched & s2 & -> & _).
  by eexists _, _.
Qed.

Lemma orders_resolve_returns w pedidos s :
  responds w → ∃ m s', Preventivos.resolver_status w pedidos s = (Returns m, s').
Proof.
  intros Hresp. rewrite orders_resolve. unfold resolve_orders.
  rewrite bind_run. destruct (new_api_returns w s) as (s1 & ->).
  rewrite (ChunkFacts.chunked_positive pedidos Preventivos.SUBLOTE_SIZE) by done.
  rewrite bind_run.
  set (sublotes := _ <$> seq 0 _).
  destruct (for_each_returns (Preventivos.fetch_ocorrencias w) sublotes
              (λ sublote s, order_fetch_returns w sublote s Hresp) s1)
    as (fetched & s2 & -> & _).
  by eexists _, _.
Qed.

Lemma orders_resolve_table w pedidos s m s' :
  Preventivos.resolver_status w pedidos s = (Returns m, s') →
  ∃ recs, m = status_table pedidos recs.
Proof.
  rewrite orders_resolve. unfold resolve_orders. rewrite bind_run.
  destruct (new_api w s) as [[[]|e] s1]; [|by intros [=]].
  destruct (chunked pedidos Preventivos.SUBLOTE_SIZE) as [sublotes|e];
    [|by intros [=]].
  rewrite bind_run.
  destruct (for_each _ sublotes s1) as [[fetched|e] s2]; [|by intros [=]].
  run_m. intros [= <- _]. by eexists.
Qed.

Lemma invoices_resolve_table w pares s m s' :
  Cobranca.resolver_status w pares s = (Returns m, s') →
  ∃ fetched, length fetched = length pares ∧ m = invoice_table (zip pares fetched).
Proof.
  rewrite invoices_resolve. unfold resolve_invoices. rewrite bind_run.
  destruct (new_api w s) as [[[]|e] s1]; [|by intros [=]].
  rewrite bind_run.
  destruct (for_each _ pares s1) as [[fetched|e] s2] eqn:E; [|by intros [=]].
  run_m. intros [= <- _]. exists fetched. split; [|done].
  by eapply for_each_length.
Qed.

Lemma orders_resolve_dom w pedidos s m s' :
  Preventivos.resolver_status w pedidos s = (Returns m, s') →
  dom m = list_to_set pedidos.
Proof.
  intros Hrun. destruct (orders_resolve_table w pedidos s m s' Hrun) as (recs & ->).
  apply status_table_dom.
Qed.

Lemma invoices_resolve_dom w pares s m s' :
  Cobranca.resolver_status w pares s = (Returns m, s') →
  dom m = list_to_set pares.
Proof.
  intros Hrun.
  destruct (invoices_resolve_table w pares s m s' Hrun) as (fetched & Hlen & ->).
  rewrite invoice_table_dom. f_equal. apply fst_zip. lia.
Qed.

(** *** The runs taken apart *)

Lemma chunked_concat {A} (items : list A) (size : Z) :
  0 < size →
  ∃ chunks, chunked items size = Returns chunks ∧ concat chunks = items.
Proof.
  intros Hsize. rewrite ChunkFacts.chunked_positive by done.
  eexists. split; [done|]. rewrite ChunkFacts.concat_takes. apply take_ge.
  destruct (Z.ltb_spec 0 (Z.of_nat (length items))) as [Hpos|Hzero].
  - destruct (ChunkFacts.chunk_count_bounds (Z.of_nat (length items)) size
                Hsize Hpos) as (Hq & Hlt & Hge).
    nia.
  - simpl. lia.
Qed.

Lemma invoices_resolve_run w pares s m s' :
  Cobranca.resolver_status w pares s = (Returns m, s') →
  ∃ fetched,
    fetches_of w (λ par, Cobranca.fetch_ocorrencias w par.1 par.2) pares s s'
      fetched
    ∧ length fetched = length pares
    ∧ m = invoice_table (zip pares fetched).
Proof.
  rewrite invoices_resolve. unfold resolve_invoices. rewrite bind_run.
  destruct (new_api w s) as [[[]|e] s1] eqn:Hnew; [|by intros [=]].
  rewrite bind_run.
  destruct (for_each _ pares s1) as [[fetched|e] s2] eqn:E; [|by intros [=]].
  run_m. intros [= <- <-]. exists fetched. split_and!; [|by eapply for_each_length|done].
  by exists s1.
Qed.

Lemma orders_resolve_run w pedidos s m s' :
  Preventivos.resolver_status w pedidos s = (Returns m, s') →
  ∃ sublotes fetched,
    chunked pedidos Preventivos.SUBLOTE_SIZE = Returns sublotes
    ∧ concat sublotes = pedidos
    ∧ fetches_of w (Preventivos.fetch_ocorrencias w) sublotes s s' fetched
    ∧ m = status_table pedidos (concat fetched).
Proof.
  rewrite orders_resolve. unfold resolve_orders. rewrite bind_run.
  destruct (new_api w s) as [[[]|e] s1] eqn:Hnew; [|by intros [=]].
  destruct (chunked_concat pedidos Preventivos.SUBLOTE_SIZE)
    as (sublotes & Hchunks & Hconcat); [done|].
  rewrite Hchunks, bind_run.
  destruct (for_each _ sublotes s1) as [[fetched|e] s2] eqn:E; [|by intros [=]].
  run_m. intros [= <- <-]. exists sublotes, fetched. split_and!; try done.
  by exists s1.
Qed.

(** A key that no later entry names keeps its status. *)
Lemma invoice_table_absent (m : gmap (string * string) string) entries k :
  (∀ j e, entries !! j = Some e → e.1 ≠ k) →
  foldl (λ m e, <[e.1 := Cobranca.classify e.2]> m) m entries !! k = m !! k.
Proof.
  revert m. induction entries as [|e rest IH]; intros m Hnone; [done|].
  cbn [foldl]. rewrite IH.
  - apply lookup_insert_ne. apply (Hnone 0%nat e eq_refl).
  - intros j e' Hj. apply (Hnone (S j) e' Hj).
Qed.

(** The status of a key is the classification of the records of its last
    query. *)
Lemma invoice_table_last entries (i : nat) k recs :
  entries !! i = Some (k, recs) →
  (∀ j e, (i < j)%nat → entries !! j = Some e → e.1 ≠ k) →
  invoice_table entries !! k = Some (Cobranca.classify recs).
Proof.
  unfold invoice_table. generalize (∅ : gmap (string * string) string).
  revert i. induction entries as [|e rest IH]; intros i m Hi Hlast; [done|].
  cbn [foldl]. destruct i as [|i].
  - injection Hi as ->. rewrite invoice_table_absent.
    + apply lookup_insert_eq.
    + intros j e' Hj. apply (Hlast (S j) e'); [lia|done].
  - apply (IH i); [done|]. intros j e' Hij Hj.
    apply (Hlast (S j) e'); [lia|done].
Qed.

(** The invoice script attributes every record of an answer to the queried
    pair, so a record that carries no key reference turns the pair's status
    from ["-"] into ENTREGUE. *)
Lemma invoices_count_keyless_records :
  ¬ unaffected_by keyless
      (λ w, Cobranca.resolver_status w [some_invoice]) w_keyless.
Proof.
  unfold unaffected_by. intros H.
  assert (status_in (Cobranca.resolver_status w_keyless [some_invoice] initial_api)
            some_invoice
          = status_in (Cobranca.resolver_status (without_records keyless w_keyless)
                         [some_invoice] initial_api) some_invoice) as Hst.
  { unfold status_in. by rewrite H. }
  vm_compute in Hst. discriminate.
Qed.

(** What the invoice script answers in that world, and without the record. *)
Lemma invoices_keyless_statuses :
  keyless keyless_record = true
  ∧ status_in (Cobranca.resolver_status w_keyless [some_invoice] initial_api)
      some_invoice = Some "ENTREGUE"
  ∧ status_in (Cobranca.resolver_status (without_records keyless w_keyless)
                 [some_invoice] initial_api) some_invoice = Some "-".
Proof. split; [done|]. split; vm_compute; reflexivity. Qed.

(** The invoice script queries a pair once for each time it is listed, and
    the answer to the last query decides: a pair listed twice, whose first
    query is answered with a delivery record and whose second query with no
    record, gets ["-"], where the pair listed once gets ENTREGUE. *)
Lemma invoices_requery_repeated_pairs :
  let twice :=
    Cobranca.resolver_status w_delivered_once [some_invoice; some_invoice]
      initial_api in
  let once :=
    Cobranca.resolver_status w_delivered_once [some_invoice] initial_api in
  status_in twice some_invoice = Some "-"
  ∧ count_gets (trace twice.2) = 2%nat
  ∧ status_in once some_invoice = Some "ENTREGUE"
  ∧ count_gets (trace once.2) = 1%nat.
Proof. cbv zeta. split_and!; vm_compute; reflexivity. Qed.



(** A sub-batch whose query fails on its three attempts leaves its orders at
    the default, and the next sub-batch is still resolved. *)
Lemma failed_batch_defaults :
  let run := Preventivos.resolver_status w_first_batch_fails many_orders initial_api in
  status_in run "1" = Some "DESPACHADO"
  ∧ status_in run "20" = Some "DESPACHADO"
  ∧ status_in run "21" = Some "ENTREGUE"
  ∧ count_gets (trace run.2) = 4%nat.
Proof. cbv zeta. split_and!; vm_compute; reflexivity. Qed.

Lemma keyless_world_responds : responds w_keyless.
Proof. apply scripted_responds. repeat constructor; apply ok_well_formed. Qed.


End ResolverFacts.

(** ** Re-expansion: the statuses [main] hands to the sheet *)

Module MainFacts.
Import Py Shared Spec ApiFacts PageFacts ResolverFacts.

(** [dict.fromkeys] keeps exactly the elements of its argument. *)
Lemma dict_fromkeys_from `{EqDecision A} (acc items : list A) x :
  x ∈ foldl (λ acc x, if bool_decide (x ∈ acc) then acc else acc ++ [x]) acc items
  ↔ x ∈ acc ∨ x ∈ items.
Proof.
  revert acc. induction items as [|y rest IH]; intros acc; simpl.
  { rewrite elem_of_nil. tauto. }
  rewrite IH, elem_of_cons. case_bool_decide as Hy.
  - split; [tauto|]. intros [?|[->|?]]; tauto.
  - rewrite elem_of_app, list_elem_of_singleton. tauto.
Qed.

Lemma elem_of_dict_fromkeys `{EqDecision A} (items : list A) x :
  x ∈ dict_fromkeys items ↔ x ∈ items.
Proof.
  unfold dict_fromkeys. rewrite dict_fromkeys_from, elem_of_nil. tauto.
Qed.

(** *** The invoice script *)

Lemma invoice_main_run w values s :
  values ≠ [] →
  Cobranca.main w values s
  = (status_map ← Cobranca.resolver_status w (invoice_lookups values);
     mret (Some (Cobranca.statuses_of (invoice_keys values) status_map))) s.
Proof. by destruct values. Qed.

Lemma invoice_main_empty w s : Cobranca.main w [] s = (Returns None, s).
Proof. done. Qed.

Lemma invoice_keys_length (values : list (list value)) :
  length (invoice_keys values)
  = length (data_rows (Cobranca.load_inputs_from_sheet values).2 values).
Proof.
  destruct values as [|first rest]; [done|].
  unfold invoice_keys, data_rows. cbn [Cobranca.load_inputs_from_sheet fst snd].
  by rewrite length_fmap.
Qed.

Lemma invoice_statuses_follow (values : list (list value)) (table : gmap (string * string) string) :
  dom table = list_to_set (invoice_lookups values) →
  statuses_follow_table Cobranca.invalid (invoice_keys values) table
    (Cobranca.statuses_of (invoice_keys values) table).
Proof.
  intros Hdom. unfold Cobranca.statuses_of. split; [by rewrite length_fmap|].
  intros i k Hk. rewrite list_lookup_fmap, Hk. simpl.
  destruct (Cobranca.invalid k) eqn:Hinv; [done|].
  assert (is_Some (table !! k)) as [st Hst].
  { apply elem_of_dom. rewrite Hdom, elem_of_list_to_set.
    unfold invoice_lookups. rewrite elem_of_dict_fromkeys.
    apply list_elem_of_filter. split; [done|]. by eapply list_elem_of_lookup_2. }
  rewrite Hst. split; [by eexists|done].
Qed.

(** The invoice script satisfies C2 as it is stated. *)
Lemma invoice_rows_follow w values s : invoice_rows_follow_table w values s.
Proof.
  intros statuses s'. destruct (decide (values = [])) as [->|Hne].
  { rewrite invoice_main_empty. by intros [=]. }
  rewrite invoice_main_run by done. rewrite bind_run.
  destruct (Cobranca.resolver_status w _ s) as [[table|e] s1] eqn:Hrun;
    [|by intros [=]].
  run_m. intros [= <- _]. exists table. split; [done|].
  apply invoice_statuses_follow. by eapply invoices_resolve_dom.
Qed.

(** *** The order script *)

Lemma order_main_run w values s :
  values ≠ [] →
  Preventivos.main w values s
  = (status_map ← Preventivos.resolver_status w (order_lookups values);
     mret (Some ((λ k, if String.eqb k "" then ""
                       else default "DESPACHADO" (status_map !! k))
                 <$> order_keys values))) s.
Proof.
  destruct values as [|first rest]; [done|]. intros _.
  unfold Preventivos.main, order_lookups, order_keys, data_rows.
  cbn [Preventivos.load_pedidos_from_sheet fst snd].
  rewrite !fmap_cons. cbv iota. rewrite !bind_run.
  destruct (Preventivos.resolver_status w _ s) as [[m|e] s1]; [|done].
  run_m. unfold Preventivos.statuses_of. by rewrite <-list_fmap_compose.
Qed.

Lemma order_lookups_spec (values : list (list value)) (k : string) :
  k ∈ order_lookups values
  ↔ k ∈ order_keys values ∧ k ≠ "" ∧ is_nan_text k = false.
Proof.
  unfold order_lookups, order_keys, data_rows. rewrite elem_of_dict_fromkeys.
  destruct values as [|first rest].
  { simpl. rewrite elem_of_nil. tauto. }
  cbn [Preventivos.load_pedidos_from_sheet fst snd].
  rewrite list_elem_of_filter. unfold is_nan_text.
  rewrite andb_true_iff, !negb_true_iff.
  destruct (String.eqb_spec k ""); split; intros H; destruct_and?; split_and?;
    try done.
Qed.

Lemma order_statuses_from_table (values : list (list value)) (table : gmap string string) :
  dom table = list_to_set (order_lookups values) →
  order_statuses_follow (order_keys values) table
    ((λ k, if String.eqb k "" then "" else default "DESPACHADO" (table !! k))
     <$> order_keys values).
Proof.
  intros Hdom. split; [by rewrite length_fmap|].
  intros i k Hk. rewrite list_lookup_fmap, Hk. simpl.
  destruct (String.eqb_spec k "") as [->|Hne]; [done|].
  split; [done|].
  assert (is_Some (table !! k) ↔ is_nan_text k = false) as Hiff.
  { rewrite <-elem_of_dom, Hdom, elem_of_list_to_set, order_lookups_spec.
    split; [by intros (_ & _ & ?)|]. intros Hnan. split_and!; try done.
    by eapply list_elem_of_lookup_2. }
  split; [apply Hiff|]. intros Hnan.
  destruct (table !! k) eqn:E; [|done].
  assert (is_nan_text k = false) by (apply Hiff; by eexists). congruence.
Qed.

Lemma order_keys_length (values : list (list value)) :
  length (order_keys values)
  = length (data_rows (Preventivos.load_pedidos_from_sheet values).2 values).
Proof.
  destruct values as [|first rest]; [done|].
  unfold order_keys, data_rows. cbn [Preventivos.load_pedidos_from_sheet fst snd].
  rewrite length_fmap, !length_drop, length_fmap. done.
Qed.

Import Examples.

(** C2 at its failing input, a sheet of the order script with a header, an
    order listed twice, an empty row and a row holding the text [nan].
    [load_pedidos_from_sheet] drops the [nan] row as it drops the empty
    one, so [nan] is never looked up and the table has no status for it;
    [main] then tests the row's key for emptiness only and writes, for the
    [nan] row, the default of [status_map.get]: DESPACHADO, the status of an
    order that was looked up and has no record, where the row should have
    got the empty string of a row without a key. *)
Theorem nan_row_gets_default :
  let table :=
    Preventivos.resolver_status w_delivered_once (order_lookups order_sheet)
      initial_api in
  order_keys order_sheet = ["555"; ""; "nan"; "555"]
  ∧ (Preventivos.load_pedidos_from_sheet order_sheet).1.1 = ["555"; "555"]
  ∧ order_lookups order_sheet = ["555"]
  ∧ status_in table "555" = Some "ENTREGUE"
  ∧ status_in table "nan" = None
  ∧ (Preventivos.main w_delivered_once order_sheet initial_api).1
    = Returns (Some ["ENTREGUE"; ""; "DESPACHADO"; "ENTREGUE"]).
Proof. cbv zeta. split_and!; vm_compute; reflexivity. Qed.

(** The statuses of the order script do not follow its table: a row holding
    the text [nan] has a non-empty key that is never looked up, so the
    table assigns it nothing, and the row gets DESPACHADO all the same. *)
Lemma nan_row_not_in_table :
  ¬ order_rows_follow_table w_not_found [[PyStr "nan"]] initial_api.
Proof.
  intros H.
  assert (Preventivos.main w_not_found [[PyStr "nan"]] initial_api
          = (Returns (Some ["DESPACHADO"]),
             (Preventivos.main w_not_found [[PyStr "nan"]] initial_api).2)) as Hrun.
  { vm_compute. reflexivity. }
  destruct (H _ _ Hrun) as (table & Htable & _ & Hrows).
  specialize (Hrows 0%nat "nan" eq_refl). simpl in Hrows.
  destruct Hrows as [[st Hst] _].
  assert (status_in (Preventivos.resolver_status w_not_found
                       (order_lookups [[PyStr "nan"]]) initial_api) "nan"
          = Some st) as Hin.
  { unfold status_in. by rewrite Htable. }
  vm_compute in Hin. discriminate.
Qed.

(** What [main] emits, in both scripts: the statuses are index-aligned
    with the data rows of the non-deduplicated input, one per row; a row
    whose normalized key is empty gets the empty string; in the invoice
    script every other row gets the status the table assigns to its key; in
    the order script so does every other row but those holding the text
    [nan] (in any letter case), which are not in the table and get
    DESPACHADO; rows with the same key get the same status; and [main] does
    emit statuses when the sheet is not empty and the world [responds]. *)
Theorem statuses_follow_rows (w : world) (values : list (list value)) (s : api) :
  invoice_rows_follow_table w values s
  ∧ (∀ statuses s',
     Cobranca.main w values s = (Returns (Some statuses), s') →
     length statuses
       = length (data_rows (Cobranca.load_inputs_from_sheet values).2 values)
     ∧ (∃ table,
          (Cobranca.resolver_status w (invoice_lookups values) s).1 = Returns table
          ∧ statuses_follow_table Cobranca.invalid (invoice_keys values)
              table statuses)
     ∧ ∀ (i j : nat) k,
         invoice_keys values !! i = Some k → invoice_keys values !! j = Some k →
         statuses !! i = statuses !! j)
  ∧ (∀ statuses s',
       Preventivos.main w values s = (Returns (Some statuses), s') →
       length statuses
         = length (data_rows (Preventivos.load_pedidos_from_sheet values).2 values)
       ∧ (∃ table,
            (Preventivos.resolver_status w (order_lookups values) s).1
              = Returns table
            ∧ order_statuses_follow (order_keys values) table statuses)
       ∧ ∀ (i j : nat) k,
           order_keys values !! i = Some k → order_keys values !! j = Some k →
           statuses !! i = statuses !! j)
  ∧ (responds w → values ≠ [] →
       (∃ statuses s', Cobranca.main w values s = (Returns (Some statuses), s'))
       ∧ (∃ statuses s', Preventivos.main w values s = (Returns (Some statuses), s'))).
Proof.
  split_and!.
  - apply invoice_rows_follow.
  - intros statuses s'. destruct (decide (values = [])) as [->|Hne].
    { rewrite invoice_main_empty. by intros [=]. }
    rewrite invoice_main_run by done. rewrite bind_run.
    destruct (Cobranca.resolver_status w _ s) as [[table|e] s1] eqn:Hrun;
      [|by intros [=]].
    run_m. intros [= <- _].
    pose proof (invoice_statuses_follow values table
                  (invoices_resolve_dom _ _ _ _ _ Hrun)) as Hfollow.
    split_and!.
    + rewrite <-invoice_keys_length. apply Hfollow.
    + by exists table.
    + intros i j k Hi Hj. destruct Hfollow as [_ Hrows].
      pose proof (Hrows i k Hi) as H1. pose proof (Hrows j k Hj) as H2.
      destruct (Cobranca.invalid k); [congruence|].
      destruct H1 as [_ ->], H2 as [_ ->]. done.
  - intros statuses s'. destruct (decide (values = [])) as [->|Hne].
    { by intros [=]. }
    rewrite order_main_run by done. rewrite bind_run.
    destruct (Preventivos.resolver_status w _ s) as [[table|e] s1] eqn:Hrun;
      [|by intros [=]].
    run_m. intros [= <- _].
    pose proof (order_statuses_from_table values table
                  (orders_resolve_dom _ _ _ _ _ Hrun)) as Hfollow.
    split_and!.
    + rewrite <-order_keys_length. apply Hfollow.
    + by exists table.
    + intros i j k Hi Hj. destruct Hfollow as [_ Hrows].
      pose proof (Hrows i k Hi) as H1. pose proof (Hrows j k Hj) as H2.
      destruct (String.eqb k ""); [congruence|].
      destruct H1 as [-> _], H2 as [-> _]. done.
  - intros Hresp Hne. split.
    + rewrite invoice_main_run by done. rewrite bind_run.
      destruct (invoices_resolve_returns w (invoice_lookups values) s Hresp)
        as (m & s1 & ->).
      by eexists _, _.
    + rewrite order_main_run by done. rewrite bind_run.
      destruct (orders_resolve_returns w (order_lookups values) s Hresp)
        as (m & s1 & ->).
      by eexists _, _.
Qed.

Lemma not_found_world_responds : responds w_not_found.
Proof. apply scripted_responds. repeat constructor. apply status_well_formed. Qed.

Lemma statuses_follow_rows_witness :
  responds w_not_found
  ∧ order_sheet ≠ []
  ∧ (∃ statuses s',
       Cobranca.main w_not_found order_sheet initial_api
       = (Returns (Some statuses), s'))
  ∧ (∃ statuses s',
       Preventivos.main w_not_found order_sheet initial_api
       = (Returns (Some statuses), s')).
Proof.
  split; [exact not_found_world_responds|]. split; [done|].
  exact (proj2 (proj2 (proj2
           (statuses_follow_rows w_not_found order_sheet initial_api)))
           not_found_world_responds ltac:(done)).
Defined.

(** The statuses of the two example sheets when the service knows nothing. *)
Lemma example_sheets_statuses :
  (Preventivos.main w_not_found order_sheet initial_api).1
  = Returns (Some ["DESPACHADO"; ""; "DESPACHADO"; "DESPACHADO"])
  ∧ (Cobranca.main w_not_found invoice_sheet initial_api).1
    = Returns (Some ["-"; "-"; ""]).
Proof. split; vm_compute; reflexivity. Qed.

End MainFacts.

(** ** Deduplication, batching, normalizers and extraction: further facts *)

Module PureFacts.
Import Py Shared Spec Props PyFacts NormalizeFacts ChunkFacts ClassifierFacts MainFacts.

(** *** [list(dict.fromkeys(...))] *)

Section Dedup.
Context `{EqDecision A}.
Implicit Types (items acc : list A).

Lemma dict_fromkeys_nodup_from acc items :
  NoDup acc →
  NoDup (foldl (λ acc x, if bool_decide (x ∈ acc) then acc else acc ++ [x])
           acc items).
Proof.
  revert acc. induction items as [|x rest IH]; intros acc Hacc; simpl; [done|].
  apply IH. case_bool_decide as Hx; [done|].
  apply NoDup_app. split_and!; [done| |apply NoDup_singleton].
  intros y Hy ->%list_elem_of_singleton. done.
Qed.

(** Starting from [acc] adds to it what a fresh start finds, less what
    [acc] already holds. *)
Lemma dict_fromkeys_split acc items :
  foldl (λ acc x, if bool_decide (x ∈ acc) then acc else acc ++ [x]) acc items
  = acc ++ filter (λ y, y ∉ acc) (dict_fromkeys items).
Proof.
  unfold dict_fromkeys.
  induction items as [|x rest IH] using rev_ind.
  { simpl. by rewrite app_nil_r. }
  rewrite !foldl_snoc, IH.
  set (found := foldl _ [] rest).
  assert (x ∈ acc ++ filter (λ y, y ∉ acc) found ↔ x ∈ acc ∨ x ∈ found) as Hin.
  { rewrite elem_of_app, list_elem_of_filter.
    destruct (decide (x ∈ acc)); tauto. }
  case_bool_decide as H1; case_bool_decide as H2.
  - done.
  - rewrite filter_app, filter_cons_False, app_nil_r; [done|].
    apply Hin in H1 as [?|?]; [tauto|done].
  - exfalso. apply H1, Hin. by right.
  - rewrite filter_app, filter_cons_True, app_assoc; [done|].
    intros ?. apply H1, Hin. by left.
Qed.

Lemma dict_fromkeys_cons x items :
  dict_fromkeys (x :: items) = x :: filter (λ y, y ≠ x) (dict_fromkeys items).
Proof.
  unfold dict_fromkeys at 1. simpl.
  rewrite dict_fromkeys_split. simpl. f_equal.
  apply list_filter_iff. intros y. by rewrite list_elem_of_singleton.
Qed.

Lemma dict_fromkeys_nodup items : NoDup (dict_fromkeys items).
Proof. apply dict_fromkeys_nodup_from, NoDup_nil. done. Qed.

Lemma filter_all (P : A → Prop) `{!∀ x, Decision (P x)} items :
  (∀ x, x ∈ items → P x) → filter P items = items.
Proof.
  induction items as [|x rest IH]; intros Hall; [done|].
  rewrite filter_cons_True by (apply Hall; left).
  f_equal. apply IH. intros y Hy. apply Hall. by right.
Qed.

Lemma dict_fromkeys_id items : NoDup items → dict_fromkeys items = items.
Proof.
  induction items as [|x rest IH]; intros Hnd; [done|].
  apply NoDup_cons in Hnd as [Hx Hrest].
  rewrite dict_fromkeys_cons, IH by done. f_equal.
  apply filter_all. intros y Hy ->. done.
Qed.

(** X1: deduplication keeps every key exactly once, in the order of first
    occurrence: the result has no duplicates and the same elements; the
    head of the input stays in front and its later occurrences go; a list
    without duplicates, so also a deduplicated list, is left as it is. *)
Theorem dict_fromkeys_first_occurrences (x : A) (items : list A) :
  NoDup (dict_fromkeys items)
  ∧ (∀ y, y ∈ dict_fromkeys items ↔ y ∈ items)
  ∧ dict_fromkeys (x :: items) = x :: filter (λ y, y ≠ x) (dict_fromkeys items)
  ∧ (NoDup items → dict_fromkeys items = items)
  ∧ dict_fromkeys (dict_fromkeys items) = dict_fromkeys items.
Proof.
  split_and!.
  - apply dict_fromkeys_nodup.
  - intros y. apply elem_of_dict_fromkeys.
  - apply dict_fromkeys_cons.
  - apply dict_fromkeys_id.
  - apply dict_fromkeys_id, dict_fromkeys_nodup.
Qed.

End Dedup.

Lemma dict_fromkeys_first_occurrences_witness :
  NoDup ["b"; "a"; "c"]
  ∧ dict_fromkeys ["b"; "a"; "c"] = ["b"; "a"; "c"].
Proof.
  assert (NoDup ["b"; "a"; "c"]) as Hnd.
  { apply NoDup_ListNoDup. repeat constructor; simpl; intuition discriminate. }
  split; [exact Hnd|].
  exact (proj1 (proj2 (proj2 (proj2
           (dict_fromkeys_first_occurrences "x" ["b"; "a"; "c"])))) Hnd).
Defined.

(** *** [chunked] *)

(** X2: for a positive chunk size no chunk is empty and there are
    [ceil(len / size)] of them: none for the empty list, and the list
    itself as the single chunk when it fits in one. *)
Theorem chunked_shape {A} (items : list A) (size : Z) :
  0 < size →
  ∃ chunks,
    chunked items size = Returns chunks
    ∧ Forall (λ c, c ≠ []) chunks
    ∧ Z.of_nat (length chunks) = (Z.of_nat (length items) + size - 1) / size
    ∧ (items = [] → chunks = [])
    ∧ (items ≠ [] → Z.of_nat (length items) ≤ size → chunks = [items]).
Proof.
  intros Hsize. rewrite chunked_positive by done. eexists. split; [done|].
  set (len := Z.of_nat (length items)).
  set (s := Z.to_nat size).
  destruct (Z.ltb_spec 0 len) as [Hpos|Hzero].
  - destruct (chunk_count_bounds len size Hsize Hpos) as (Hq & Hlt & Hge).
    set (q := (len - 0 - 1) / size) in *.
    split_and!.
    + apply Forall_fmap, Forall_forall. intros k Hk%elem_of_seq. simpl.
      intros Hnil%(f_equal length). rewrite length_take, length_drop in Hnil.
      simpl in Hnil. unfold s, len in *. nia.
    + rewrite length_fmap, length_seq.
      replace (len + size - 1) with (len - 0 - 1 + 1 * size) by lia.
      rewrite Z.div_add by lia. fold q. lia.
    + intros ->. simpl in len. unfold len in Hpos. lia.
    + intros _ Hfit.
      assert (q = 0) as -> by (unfold q; apply Z.div_small; lia).
      simpl. rewrite drop_0, take_ge; [done|]. unfold s, len in *. lia.
  - assert (items = []) as -> by (destruct items; [done|simpl in len; unfold len in *; lia]).
    split_and!.
    + constructor.
    + rewrite Z.div_small by (unfold len; simpl; lia). done.
    + done.
    + done.
Qed.

Lemma chunked_shape_witness :
  0 < 20
  ∧ ∃ chunks,
      chunked Examples.many_orders 20 = Returns chunks
      ∧ Forall (λ c, c ≠ []) chunks
      ∧ Z.of_nat (length chunks)
        = (Z.of_nat (length Examples.many_orders) + 20 - 1) / 20
      ∧ (Examples.many_orders = [] → chunks = [])
      ∧ (Examples.many_orders ≠ [] →
         Z.of_nat (length Examples.many_orders) ≤ 20 →
         chunks = [Examples.many_orders]).
Proof. split; [lia|]. apply (chunked_shape Examples.many_orders 20). lia. Defined.

(** *** [normalize_cnpj] and [normalize_nf] *)

Lemma keep_chars_idemp p s : keep_chars p (keep_chars p s) = keep_chars p s.
Proof. apply keep_chars_id, keep_chars_all. Qed.

Lemma keep_chars_app p s t :
  keep_chars p (s +:+ t) = keep_chars p s +:+ keep_chars p t.
Proof.
  induction s as [|c r IH]; [done|].
  change (String c r +:+ t) with (String c (r +:+ t)). simpl.
  destruct (p c); [|done]. by rewrite IH.
Qed.

Lemma replicate_char_add n m c :
  replicate_char (n + m) c = replicate_char n c +:+ replicate_char m c.
Proof. induction n as [|n IH]; [done|]. simpl. by rewrite IH. Qed.

Lemma string_app_assoc (s t u : string) : (s +:+ t) +:+ u = s +:+ (t +:+ u).
Proof.
  induction s as [|c r IH]; [done|].
  change ((String c r +:+ t) +:+ u) with (String c ((r +:+ t) +:+ u)).
  by rewrite IH.
Qed.

Lemma string_app_nonempty s t : t ≠ "" → s +:+ t ≠ "".
Proof. by destruct s, t. Qed.

Lemma normalize_cnpj_of_digits d :
  all_chars isdigit d = true → d ≠ "" →
  Cobranca.normalize_cnpj (PyStr d)
  = replicate_char (14 - String.length d) "0"%char +:+ d.
Proof.
  intros Hall Hne. unfold Cobranca.normalize_cnpj. simpl.
  rewrite keep_chars_id by done.
  destruct (String.eqb_spec d "") as [?|_]; [done|].
  destruct (Nat.ltb_spec (String.length d) 14) as [Hlt|Hge].
  - by apply zfill_digits.
  - by replace (14 - String.length d)%nat with 0%nat by lia.
Qed.

(** X3: the company id depends on the digits of the text only, whatever the
    punctuation around them, and not on zeros lost or added in front of up
    to 14 digits. *)
Theorem normalize_cnpj_by_digits (s d : string) (n : nat) :
  Cobranca.normalize_cnpj (PyStr s)
  = Cobranca.normalize_cnpj (PyStr (keep_chars isdigit s))
  ∧ (str_isdigit d = true → (n + String.length d ≤ 14)%nat →
       Cobranca.normalize_cnpj (PyStr (replicate_char n "0"%char +:+ d))
       = Cobranca.normalize_cnpj (PyStr d)).
Proof.
  split.
  - unfold Cobranca.normalize_cnpj. simpl. by rewrite keep_chars_idemp.
  - intros Hd Hlen.
    pose proof (str_isdigit_all d Hd) as Hall.
    pose proof (str_isdigit_nonempty d Hd) as Hne.
    rewrite !normalize_cnpj_of_digits; try done.
    + rewrite string_length_app, replicate_char_length.
      rewrite <-string_app_assoc, <-replicate_char_add. do 2 f_equal. lia.
    + by rewrite all_chars_app, Hall, replicate_char_all.
    + by apply string_app_nonempty.
Qed.

Lemma normalize_cnpj_by_digits_witness :
  str_isdigit "191" = true
  ∧ Cobranca.normalize_cnpj (PyStr "000191") = Cobranca.normalize_cnpj (PyStr "191").
Proof.
  split; [reflexivity|].
  apply (proj2 (normalize_cnpj_by_digits "" "191" 3)); [reflexivity|simpl; lia].
Defined.

Lemma endswith_split s suffix :
  endswith s suffix = true → ∃ p, s = p +:+ suffix.
Proof.
  induction s as [|c r IH].
  - destruct suffix; [by exists ""|discriminate].
  - rewrite endswith_cons.
    destruct (String.eqb_spec (String c r) suffix) as [<-|_]; [by exists ""|].
    intros (p & ->)%IH. by exists (String c p).
Qed.

(** X4: on text, [normalize_nf] and [normalize_pedido] either return the
    stripped text as it is, or remove a final [".0"] that follows digits
    only; nothing else is rewritten (leading zeros, signs and other
    decimals stay). *)
Theorem normalize_nf_only_drops_fraction (s : string) :
  Preventivos.normalize_pedido (PyStr s) = Cobranca.normalize_nf (PyStr s)
  ∧ (Cobranca.normalize_nf (PyStr s) = strip s
     ∨ ∃ d, str_isdigit d = true
            ∧ strip s = d +:+ ".0"
            ∧ Cobranca.normalize_nf (PyStr s) = d).
Proof.
  split; [done|]. rewrite normalize_nf_text.
  destruct (has_fraction_suffix (strip s)) eqn:E; [right|by left].
  unfold has_fraction_suffix in E. apply andb_true_iff in E as [Hend Hdig].
  destruct (endswith_split _ _ Hend) as (p & Hp).
  rewrite Hp in Hdig |- *.
  change (drop_last 2 (p +:+ ".0")) with (drop_last (String.length ".0") (p +:+ ".0"))
    in Hdig |- *.
  rewrite drop_last_app in Hdig |- *. by exists p.
Qed.

(** *** [extract_codigo] and [extract_pedido] *)

Lemma no_code_empty it : no_code it → extract_codigo it = "".
Proof.
  unfold no_code, extract_codigo. destruct (tipoOcorrencia it) as [t|]; [|done].
  intros [->|(s & -> & Hs)]; [done|]. simpl. done.
Qed.

Lemma any_code_without codes (P : item → Prop) `{!∀ it, Decision (P it)}
    it before after :
  bool_decide (extract_codigo it ∈ codes) = false →
  any_code codes (filter P (before ++ it :: after))
  = any_code codes (filter P (before ++ after)).
Proof.
  intros Hit. rewrite !filter_app, !any_code_app. f_equal.
  rewrite filter_cons. destruct (decide (P it)); [|done].
  unfold any_code. simpl. by rewrite Hit.
Qed.

(** X5: a record without a status code extracts to the empty code, which is
    in neither code set, so leaving the record out changes no
    classification, in either script. *)
Theorem codeless_record_neutral (it : item) (before after : list item)
    (pedidos : list string) :
  no_code it →
  extract_codigo it = ""
  ∧ Cobranca.classify (before ++ it :: after) = Cobranca.classify (before ++ after)
  ∧ status_table pedidos (before ++ it :: after)
    = status_table pedidos (before ++ after).
Proof.
  intros Hit%no_code_empty. split; [done|].
  assert (∀ codes, codes = ENTREGUE_CODES ∨ codes = CANCELADO_CODES →
                   bool_decide (extract_codigo it ∈ codes) = false) as Hout.
  { rewrite Hit. by intros codes [-> | ->]. }
  split.
  - rewrite !cobranca_classify_expected. unfold expected_status.
    rewrite <-(filter_all (λ _, True) (before ++ it :: after)) by done.
    rewrite <-(filter_all (λ _, True) (before ++ after)) by done.
    by rewrite !(any_code_without _ (λ _, True)) by auto.
  - apply map_eq. intros k. rewrite !status_table_lookup.
    case_decide; [|done]. f_equal. unfold expected_status, records_of.
    by rewrite !any_code_without by auto.
Qed.

Lemma codeless_record_neutral_witness :
  let it := {| tipoOcorrencia := Some {| codigo := PyStr "  " |};
               pedido := Some {| numero := PyStr "555" |};
               embarque := None |} in
  no_code it
  ∧ status_table ["555"] [Examples.occurrence "25" (PyStr "555"); it]
    = status_table ["555"] [Examples.occurrence "25" (PyStr "555")].
Proof.
  intros it.
  assert (no_code it) as Hit by (right; by exists "  ").
  split; [exact Hit|].
  exact (proj2 (proj2 (codeless_record_neutral it
           [Examples.occurrence "25" (PyStr "555")] [] ["555"] Hit))).
Defined.

End PureFacts.

(** ** RequestExecutor: further facts *)

Module ApiMore.
Import Py Shared Spec Props ApiFacts.

Lemma count_gets_cons_get r tr : count_gets (EvGet r :: tr) = S (count_gets tr).
Proof. done. Qed.
Lemma count_gets_cons_login tr : count_gets (EvLogin :: tr) = count_gets tr.
Proof. done. Qed.
Lemma count_gets_cons_sleep z tr : count_gets (EvSleep z :: tr) = count_gets tr.
Proof. done. Qed.
Lemma count_logins_cons_get r tr : count_logins (EvGet r :: tr) = count_logins tr.
Proof. done. Qed.
Lemma count_logins_cons_login tr :
  count_logins (EvLogin :: tr) = S (count_logins tr).
Proof. done. Qed.
Lemma count_logins_cons_sleep z tr :
  count_logins (EvSleep z :: tr) = count_logins tr.
Proof. done. Qed.

Lemma total_sleep_cons_get r tr : total_sleep (EvGet r :: tr) = total_sleep tr.
Proof. done. Qed.
Lemma total_sleep_cons_login tr : total_sleep (EvLogin :: tr) = total_sleep tr.
Proof. done. Qed.
Lemma total_sleep_cons_sleep z tr :
  total_sleep (EvSleep z :: tr) = z + total_sleep tr.
Proof. done. Qed.

Create Rewrite HintDb events.
#[export] Hint Rewrite count_gets_cons_get count_gets_cons_login
  count_gets_cons_sleep count_logins_cons_get count_logins_cons_login
  count_logins_cons_sleep total_sleep_cons_get total_sleep_cons_login
  total_sleep_cons_sleep : events.

Lemma all_gets_split (P : request → Prop) events :
  Forall P (all_gets events)
  ↔ Forall P (gets_before_login events) ∧ Forall P (gets_after_login events).
Proof.
  induction events as [|[|r|z] rest IH]; simpl.
  - split; [done|]. by intros _.
  - unfold all_gets at 1. simpl. fold (all_gets rest).
    split; [by intros ?|by intros [_ ?]].
  - unfold all_gets at 1. simpl. fold (all_gets rest).
    rewrite !Forall_cons, IH. tauto.
  - unfold all_gets at 1. simpl. fold (all_gets rest). done.
Qed.

Lemma sleep_budget_cons retries a attempts :
  sleep_budget retries (a :: attempts)
  = (if a =? retries then 0 else 2 * a) + sleep_budget retries attempts.
Proof. done. Qed.

Lemma sleep_budget_nonneg retries attempts :
  Forall (λ a, 0 ≤ a) attempts → 0 ≤ sleep_budget retries attempts.
Proof.
  induction 1 as [|a l Ha _ IH]; [done|].
  rewrite sleep_budget_cons. destruct (a =? retries); lia.
Qed.

(** Closes the arithmetic and the list side conditions on a trace that is
    given explicitly. *)
Ltac trace_facts :=
  first
    [ done
    | by rewrite <-?app_assoc
    | by repeat constructor
    | autorewrite with events; rewrite ?sleep_budget_cons; cbn [length];
      change (count_gets []) with 0%nat; change (count_logins []) with 0%nat;
      change (total_sleep []) with 0; lia ].

Section WithWorld.
Variable w : world.

(** What the attempt loop adds to the trace. *)
Lemma request_loop_events params retries attempts authorization s :
  Forall (λ a, 0 ≤ a) attempts →
  ∃ added,
    trace (request_loop w params retries attempts authorization s).2
      = trace s ++ added
    ∧ Forall (from_call params) added
    ∧ (count_logins added ≤ count_gets added ≤ length attempts)%nat
    ∧ 0 ≤ total_sleep added ≤ sleep_budget retries attempts
    ∧ Forall (λ r, req_authorization r = authorization) (gets_before_login added)
    ∧ Forall (λ r, token_truthy (req_authorization r) = true)
        (gets_after_login added).
Proof.
  revert authorization s.
  induction attempts as [|attempt rest IH]; intros authorization s Hpos.
  { exists []. simpl. rewrite app_nil_r. split_and!; trace_facts. }
  apply Forall_cons in Hpos as [Hattempt Hrest].
  pose proof (sleep_budget_nonneg retries rest Hrest) as Hbudget.
  rewrite request_loop_step. cbv zeta. cbn [trace token].
  set (rq := req_of params authorization).
  assert (0 ≤ (if attempt =? retries then 0 else 2 * attempt)) as Hterm.
  { destruct (attempt =? retries); lia. }
  (* the ways the loop stops after its first request *)
  assert (∃ added,
            trace s ++ [EvGet rq] = trace s ++ added
            ∧ Forall (from_call params) added
            ∧ (count_logins added ≤ count_gets added ≤ length (attempt :: rest))%nat
            ∧ 0 ≤ total_sleep added ≤ sleep_budget retries (attempt :: rest)
            ∧ Forall (λ r, req_authorization r = authorization) (gets_before_login added)
            ∧ Forall (λ r, token_truthy (req_authorization r) = true)
                (gets_after_login added)) as Hstop.
  { exists [EvGet rq]. split_and!; trace_facts. }
  assert (∃ added,
            (trace s ++ [EvGet rq]) ++ [EvLogin] = trace s ++ added
            ∧ Forall (from_call params) added
            ∧ (count_logins added ≤ count_gets added ≤ length (attempt :: rest))%nat
            ∧ 0 ≤ total_sleep added ≤ sleep_budget retries (attempt :: rest)
            ∧ Forall (λ r, req_authorization r = authorization) (gets_before_login added)
            ∧ Forall (λ r, token_truthy (req_authorization r) = true)
                (gets_after_login added)) as Hdenied.
  { exists [EvGet rq; EvLogin]. split_and!; trace_facts. }
  destruct (http_get w _) as [r|e]; [|exact Hstop].
  destruct (status_code r =? 401).
  - destruct (http_login w _) as [e|t]; [exact Hdenied|]. cbv zeta.
    destruct (token_truthy t) eqn:Ht; [|exact Hdenied].
    destruct (IH t {| token := t; trace := (trace s ++ [EvGet rq]) ++ [EvLogin] |} Hrest)
      as (added & -> & Hfrom & [Hlog Hget] & [Hs0 Hs1] & Hbefore & Hafter).
    exists (EvGet rq :: EvLogin :: added). cbn [trace].
    split_and!; try trace_facts.
    change (Forall (λ r, token_truthy (req_authorization r) = true) (all_gets added)).
    apply all_gets_split. split; [|done].
    eapply Forall_impl; [exact Hbefore|]. by intros rq' ->.
  - destruct (status_code r =? 404); [exact Hstop|].
    destruct (bind_result _ _) as [p|e]; [exact Hstop|].
    destruct (is_RequestException e); [|exact Hstop].
    destruct (attempt =? retries) eqn:Hlast; [exact Hstop|].
    destruct (IH authorization
                {| token := token s;
                   trace := (trace s ++ [EvGet rq]) ++ [EvSleep (2 * attempt)] |} Hrest)
      as (added & -> & Hfrom & [Hlog Hget] & [Hs0 Hs1] & Hbefore & Hafter).
    exists (EvGet rq :: EvSleep (2 * attempt) :: added). cbn [trace].
    split_and!; try trace_facts.
    rewrite sleep_budget_cons, Hlast. autorewrite with events. lia.
Qed.

Lemma consecutive_nonneg first count :
  0 ≤ first → Forall (λ a, 0 ≤ a) (consecutive first count).
Proof.
  intros Hfirst. unfold consecutive. apply Forall_fmap, Forall_forall.
  intros k _. simpl. lia.
Qed.

(** The budget of the attempts [first..retries]. *)
Lemma sleep_budget_consecutive retries first count :
  (0 < count)%nat → first + Z.of_nat count = retries + 1 →
  sleep_budget retries (consecutive first count)
  = retries * (retries - 1) - first * (first - 1).
Proof.
  revert first. induction count as [|count IH]; intros first Hpos Hlast; [lia|].
  rewrite consecutive_cons. simpl.
  destruct (Z.eqb_spec first retries) as [->|Hne].
  - assert (count = 0%nat) as -> by lia. simpl. lia.
  - rewrite IH by lia. lia.
Qed.

Lemma sleep_budget_call retries :
  sleep_budget retries (consecutive 1 (Z.to_nat retries))
  = Z.max 0 retries * (Z.max 0 retries - 1).
Proof.
  destruct (Z.to_nat retries) as [|n] eqn:En.
  - assert (Z.max 0 retries = 0) as -> by lia. done.
  - rewrite sleep_budget_consecutive by lia.
    assert (Z.max 0 retries = retries) as -> by lia. lia.
Qed.

(** Without a 401 the loop never logs in: the token stays, and every
    request carries the header the loop started with. *)
Lemma request_loop_no_login params retries attempts authorization s :
  never_unauthorized w →
  let out := request_loop w params retries attempts authorization s in
  token out.2 = token s
  ∧ ∃ added, trace out.2 = trace s ++ added
             ∧ count_logins added = 0%nat
             ∧ Forall (λ r, r = req_of params authorization) (all_gets added).
Proof.
  intros Hnever. cbv zeta. revert s.
  induction attempts as [|attempt rest IH]; intros s.
  { split; [done|]. exists []. simpl. by rewrite app_nil_r. }
  rewrite request_loop_step. cbv zeta. cbn [trace token].
  set (rq := req_of params authorization).
  assert (∃ added, trace s ++ [EvGet rq] = trace s ++ added
                   ∧ count_logins added = 0%nat
                   ∧ Forall (λ r, r = rq) (all_gets added)) as Hstop.
  { exists [EvGet rq]. split_and!; [done|done|by repeat constructor]. }
  destruct (http_get w _) as [r|e] eqn:Hget; [|done].
  destruct (Z.eqb_spec (status_code r) 401) as [H401|_].
  { by destruct (Hnever _ _ Hget). }
  destruct (status_code r =? 404); [done|].
  destruct (bind_result _ _) as [p|e]; [done|].
  destruct (is_RequestException e); [|done].
  destruct (attempt =? retries); [done|].
  destruct (IH {| token := token s;
                  trace := (trace s ++ [EvGet rq]) ++ [EvSleep (2 * attempt)] |})
    as (Htoken & added & -> & Hlogins & Hgets).
  split; [done|]. exists (EvGet rq :: EvSleep (2 * attempt) :: added).
  cbn [trace]. split_and!.
  - by rewrite <-!app_assoc.
  - by autorewrite with events.
  - unfold all_gets. simpl. by constructor.
Qed.

(** After [k] plain failures, each followed by its sleep, an answer that
    settles the call ends it with that answer's payload. *)
Lemma request_loop_recovers params retries first count k authorization s r p :
  let rq := req_of params authorization in
  let failed := consecutive first k ≫= λ attempt, [EvGet rq; EvSleep (2 * attempt)] in
  (k < count)%nat → first + Z.of_nat count = retries + 1 →
  fails_during w s failed →
  http_get w (trace s ++ failed ++ [EvGet rq]) = GetResponse r →
  settles r p →
  request_loop w params retries (consecutive first count) authorization s
  = (Returns p, {| token := token s; trace := trace s ++ failed ++ [EvGet rq] |}).
Proof.
  cbv zeta. revert first count s.
  induction k as [|k IH]; intros first count s Hk Hlast Hfail Hget Hfinal.
  - destruct count as [|count]; [lia|].
    rewrite consecutive_cons, request_loop_step. cbv zeta. cbn [trace token].
    simpl in Hget. rewrite Hget.
    destruct Hfinal as [[H404 ->]|(H401 & H404 & Hjson)].
    + rewrite H404. done.
    + destruct (Z.eqb_spec (status_code r) 401) as [?|_]; [done|].
      destruct (Z.eqb_spec (status_code r) 404) as [?|_]; [done|].
      by rewrite Hjson.
  - destruct count as [|count]; [lia|].
    rewrite (consecutive_cons first k) in Hfail, Hget |- *.
    rewrite (consecutive_cons first count).
    rewrite request_loop_step. cbv zeta. cbn [trace token].
    cbn [mbind list_bind] in Hfail, Hget |- *.
    unfold mbind at 1 in Hfail. unfold mbind at 1 in Hget. unfold mbind at 1.
    destruct (Hfail [] (req_of params authorization))
      as (r0 & Hget0 & H401' & H404' & e0 & Hraise & Hreq).
    { eexists. reflexivity. }
    simpl in Hget0. rewrite Hget0.
    destruct (Z.eqb_spec (status_code r0) 401) as [?|_]; [done|].
    destruct (Z.eqb_spec (status_code r0) 404) as [?|_]; [done|].
    rewrite Hraise, Hreq.
    destruct (Z.eqb_spec first retries) as [?|_]; [lia|].
    rewrite (IH (first + 1) count _ ltac:(lia) ltac:(lia)); [| | |done].
    + cbn [trace token]. simpl. by rewrite <-!app_assoc.
    + intros before rq [rest Hpre]. cbn [trace].
      destruct (Hfail (EvGet (req_of params authorization)
                       :: EvSleep (2 * first) :: before) rq)
        as (r' & Hget' & Hfailing).
      { exists rest. unfold mbind in Hpre. simpl. by rewrite Hpre. }
      exists r'. split; [|done]. rewrite <-Hget'. f_equal.
      by rewrite <-!app_assoc.
    + cbn [trace]. rewrite <-Hget. f_equal. simpl. by rewrite <-!app_assoc.
Qed.

(** Under a service that rejects every request and accepts every login, the
    loop spends each attempt on a request and a login. *)
Lemma request_loop_rejected params retries attempts authorization s :
  always_unauthorized w → always_logs_in w →
  ∃ s' added,
    request_loop w params retries attempts authorization s
    = (Returns empty_payload, s')
    ∧ trace s' = trace s ++ added
    ∧ count_gets added = length attempts
    ∧ count_logins added = length attempts
    ∧ total_sleep added = 0.
Proof.
  intros Hdenied Hlogin. revert authorization s.
  induction attempts as [|attempt rest IH]; intros authorization s.
  { exists s, []. simpl. by rewrite app_nil_r. }
  rewrite request_loop_step. cbv zeta. cbn [trace token].
  set (rq := req_of params authorization).
  destruct (Hdenied (trace s ++ [EvGet rq])) as (r & -> & ->).
  destruct (Hlogin ((trace s ++ [EvGet rq]) ++ [EvLogin])) as (t & -> & ->).
  change (401 =? 401) with true. cbv iota.
  destruct (IH t {| token := t; trace := (trace s ++ [EvGet rq]) ++ [EvLogin] |})
    as (s' & added & -> & Htrace & Hgets & Hlogins & Hsleep).
  exists s', (EvGet rq :: EvLogin :: added).
  cbn [trace] in Htrace. rewrite Htrace. autorewrite with events.
  rewrite Hgets, Hlogins, Hsleep. by rewrite <-!app_assoc.
Qed.

End WithWorld.

Import Examples MoreExamples.

(** What a call of [_request] adds to the trace. *)
Lemma request_call_events (w : world) (params : gmap string value)
    (retries : Z) (s : api) :
  ∃ added,
    trace (_request w params retries s).2 = trace s ++ added
    ∧ Forall (from_call params) added
    ∧ (count_logins added ≤ count_gets added ≤ Z.to_nat retries)%nat
    ∧ 0 ≤ total_sleep added ≤ Z.max 0 retries * (Z.max 0 retries - 1)
    ∧ Forall (λ r, req_authorization r = token s) (gets_before_login added)
    ∧ Forall (λ r, token_truthy (req_authorization r) = true)
        (gets_after_login added).
Proof.
  rewrite request_unfold.
  destruct (request_loop_events w params retries
              (consecutive 1 (Z.to_nat retries)) (token s) s)
    as (added & Htrace & Hfrom & Hcount & Hsleep & Hbefore & Hafter).
  { apply consecutive_nonneg. lia. }
  exists added. rewrite sleep_budget_call in Hsleep.
  unfold consecutive in Hcount. rewrite length_fmap, length_seq in Hcount.
  done.
Qed.

(** X6: a call of [_request] only adds to the trace, and what it adds is
    calls of [session.get] with the caller's parameters, logins and calls of
    [time.sleep]: at most one call of [session.get] per allowed attempt, at
    most one login per such call, and at most [retries * (retries - 1)]
    seconds in the script's own calls of [time.sleep] (what the session's
    adapter sends and waits inside a call of [session.get] is not counted).
    The calls made before the first login carry the token the call of
    [_request] started with, those made after a login carry a non-empty
    token. *)
Theorem request_effects (w : world) (params : gmap string value)
    (retries : Z) (s : api) :
  ∃ added,
    trace (_request w params retries s).2 = trace s ++ added
    ∧ Forall (from_call params) added
    ∧ (count_logins added ≤ count_gets added ≤ Z.to_nat retries)%nat
    ∧ 0 ≤ total_sleep added ≤ Z.max 0 retries * (Z.max 0 retries - 1)
    ∧ Forall (λ r, req_authorization r = token s) (gets_before_login added)
    ∧ Forall (λ r, token_truthy (req_authorization r) = true)
        (gets_after_login added).
Proof. apply request_call_events. Qed.

(** X7: as long as the service never answers 401, [_request] never logs
    in: the stored token is left as it was, and every request of the call
    carries it. *)
Theorem request_keeps_token (w : world) (params : gmap string value)
    (retries : Z) (s : api) :
  never_unauthorized w →
  let out := _request w params retries s in
  token out.2 = token s
  ∧ ∃ added, trace out.2 = trace s ++ added
             ∧ count_logins added = 0%nat
             ∧ Forall (λ r, r = req_of params (token s)) (all_gets added).
Proof.
  intros Hnever. cbv zeta. rewrite request_unfold.
  by apply request_loop_no_login.
Qed.

Lemma two_errors_never_unauthorized : never_unauthorized w_two_errors_then_ok.
Proof.
  intros tr r. unfold w_two_errors_then_ok, scripted. simpl.
  destruct (count_gets tr - 1)%nat as [|[|[|n]]]; unfold status, ok;
    intros Hr; try destruct n; simplify_eq/=; lia.
Qed.

Lemma request_keeps_token_witness :
  never_unauthorized w_two_errors_then_ok
  ∧ token (_request w_two_errors_then_ok some_params 3 logged_in).2
    = Some "token-0".
Proof.
  split; [exact two_errors_never_unauthorized|].
  exact (proj1 (request_keeps_token w_two_errors_then_ok some_params 3 logged_in
                  two_errors_never_unauthorized)).
Defined.

(** X8: when the first [k] attempts of a call, fewer than [retries], fail
    plainly and the next answer is a success or a 404, [_request] returns
    that answer's payload (the empty payload for a 404) after exactly
    [k + 1] requests and the sleeps 2, 4, ..., [2 * k]; a 404 is not
    retried. *)
Theorem request_recovers (w : world) (params : gmap string value)
    (retries : Z) (s : api) (k : nat) (r : response) (p : payload) :
  let rq := req_of params (token s) in
  (k < Z.to_nat retries)%nat →
  fails_during w s (retry_trace rq k) →
  http_get w (trace s ++ retry_trace rq k ++ [EvGet rq]) = GetResponse r →
  settles r p →
  _request w params retries s
  = (Returns p,
     {| token := token s; trace := trace s ++ retry_trace rq k ++ [EvGet rq] |}).
Proof.
  cbv zeta. intros Hk Hfail Hget Hfinal. rewrite request_unfold.
  by apply (request_loop_recovers w params retries 1 (Z.to_nat retries) k
              (token s) s r p); [|lia| | |].
Qed.

Lemma two_errors_fail :
  fails_during w_two_errors_then_ok logged_in
    (retry_trace (req_of some_params (token logged_in)) 2).
Proof.
  intros before rq Hpre.
  assert (failing_response
            {| status_code := 500; json := JsonRaises JSONDecodeError |}) as Hfailing.
  { split; [done|]. split; [done|]. by exists HTTPError. }
  destruct Hpre as [rest Hpre].
  change (retry_trace (req_of some_params (token logged_in)) 2)
    with [ EvGet (req_of some_params (Some "token-0")); EvSleep 2;
           EvGet (req_of some_params (Some "token-0")); EvSleep 4 ] in Hpre.
  destruct before as [|e1 [|e2 [|e3 [|e4 before]]]]; simplify_eq/=;
    try (eexists; split; [reflexivity|exact Hfailing]).
  by destruct before.
Qed.

Lemma request_recovers_witness :
  (2 < Z.to_nat 3)%nat
  ∧ _request w_two_errors_then_ok some_params 3 logged_in
    = (Returns (page [occurrence "1" (PyStr "555")] 1),
       {| token := Some "token-0";
          trace := [ EvGet (req_of some_params (Some "token-0")); EvSleep 2;
                     EvGet (req_of some_params (Some "token-0")); EvSleep 4;
                     EvGet (req_of some_params (Some "token-0")) ] |}).
Proof.
  split; [simpl; lia|].
  apply (request_recovers w_two_errors_then_ok some_params 3 logged_in 2
           {| status_code := 200;
              json := JsonOk (page [occurrence "1" (PyStr "555")] 1) |}).
  - simpl. lia.
  - exact two_errors_fail.
  - reflexivity.
  - right. by split_and!.
Defined.

(** X9: when the service rejects every request with 401 although every
    login yields a token, [_request] still ends: it returns the empty
    payload after exactly [retries] requests and [retries] logins, without
    sleeping. *)
Theorem request_rejected_ends (w : world) (params : gmap string value)
    (retries : Z) (s : api) :
  always_unauthorized w → always_logs_in w →
  ∃ s' added,
    _request w params retries s = (Returns empty_payload, s')
    ∧ trace s' = trace s ++ added
    ∧ count_gets added = Z.to_nat retries
    ∧ count_logins added = Z.to_nat retries
    ∧ total_sleep added = 0.
Proof.
  intros Hdenied Hlogin. rewrite request_unfold.
  destruct (request_loop_rejected w params retries
              (consecutive 1 (Z.to_nat retries)) (token s) s Hdenied Hlogin)
    as (s' & added & Hrun & Htrace & Hgets & Hlogins & Hsleep).
  exists s', added. unfold consecutive in Hgets, Hlogins.
  rewrite length_fmap, length_seq in Hgets, Hlogins. done.
Qed.

Lemma always_401_rejects : always_unauthorized w_always_401.
Proof.
  intros tr. exists {| status_code := 401; json := JsonRaises JSONDecodeError |}.
  split; [|done].
  unfold w_always_401, scripted. simpl. by destruct (count_gets tr - 1)%nat.
Qed.

Lemma always_401_logs_in : always_logs_in w_always_401.
Proof.
  intros tr. exists (Some "token-n"). split; [|done].
  unfold w_always_401, scripted. simpl. by destruct (count_logins tr - 1)%nat.
Qed.

Lemma request_rejected_ends_witness :
  always_unauthorized w_always_401 ∧ always_logs_in w_always_401
  ∧ ∃ s' added,
      _request w_always_401 some_params 3 logged_in = (Returns empty_payload, s')
      ∧ trace s' = trace logged_in ++ added
      ∧ count_gets added = Z.to_nat 3
      ∧ count_logins added = Z.to_nat 3
      ∧ total_sleep added = 0.
Proof.
  split; [exact always_401_rejects|]. split; [exact always_401_logs_in|].
  exact (request_rejected_ends w_always_401 some_params 3 logged_in
           always_401_rejects always_401_logs_in).
Defined.

End ApiMore.

(** ** Keys of records and statuses of record lists: further facts *)

Module KeyFacts.
Import Py Shared Spec Props PyFacts NormalizeFacts ClassifierFacts.

Lemma pretty_positive_digits (z : Z) : 0 < z → str_isdigit (pretty z) = true.
Proof.
  intros Hz. destruct z as [|p|p]; [lia| |lia].
  destruct (pretty_N_digits (N.pos p)) as [Hd Hne].
  change (pretty (Z.pos p)) with (pretty (N.pos p)).
  apply str_isdigit_of_all; [done|].
  revert Hd. apply all_chars_impl. apply ascii_digit_isdigit.
Qed.

Lemma normalize_number_text (z : Z) :
  Cobranca.normalize_nf (PyStr (pretty z)) = pretty z.
Proof.
  apply normalize_nf_fixed.
  - apply decimal_integer_stripped, pretty_Z_decimal.
  - apply decimal_integer_no_fraction, pretty_Z_decimal.
Qed.

Lemma normalize_number_fraction (z : Z) :
  0 < z → Cobranca.normalize_nf (PyStr (pretty z +:+ ".0")) = pretty z.
Proof.
  intros Hz. pose proof (pretty_positive_digits z Hz) as Hd.
  rewrite normalize_nf_text.
  assert (strip (pretty z +:+ ".0") = pretty z +:+ ".0") as ->.
  { apply strip_no_space. rewrite all_chars_app. apply andb_true_iff. split; [|done].
    apply str_isdigit_all in Hd. revert Hd. apply all_chars_impl.
    intros c Hc. by rewrite (isdigit_not_space c Hc). }
  unfold has_fraction_suffix. rewrite endswith_app.
  change (drop_last 2 (pretty z +:+ ".0"))
    with (drop_last (String.length ".0") (pretty z +:+ ".0")).
  by rewrite drop_last_app, Hd.
Qed.

Lemma normalize_held_number (v : value) (z : Z) :
  0 < z → holds_number v z → Cobranca.normalize_nf v = pretty z.
Proof.
  intros Hz [->|[->| ->]]; [done|apply normalize_number_text|].
  by apply normalize_number_fraction.
Qed.

Lemma held_number_truthy (v : value) (z : Z) : 0 < z → holds_number v z → truthy v = true.
Proof.
  intros Hz [->|[->| ->]]; simpl.
  - destruct (Z.eqb_spec z 0); [lia|done].
  - pose proof (pretty_positive_digits z Hz) as Hd.
    by destruct (pretty z).
  - by destruct (pretty z).
Qed.

(** X10: a positive order number gives one and the same key wherever it is
    read from and however it is written: as a number, as its decimal text,
    or as that text followed by [".0"], in a cell of the sheet, in the
    [pedido] of a record, or in the [pedido] of its [embarque] when the
    record's own number is missing or falsy.  So a record of the service is
    attributed to the sheet row of the same number. *)
Theorem order_keys_agree (it : item) (cell : value) (z : Z) :
  0 < z →
  holds_number (pedido_numero it) z
  ∨ (truthy (pedido_numero it) = false ∧ holds_number (embarque_numero it) z) →
  holds_number cell z →
  Preventivos.extract_pedido it = pretty z
  ∧ Preventivos.normalize_pedido cell = pretty z.
Proof.
  intros Hz Hrecord Hcell. split.
  - unfold Preventivos.extract_pedido.
    fold (pedido_numero it). fold (embarque_numero it).
    rewrite normalize_pedido_nf.
    destruct Hrecord as [Hown|[Hfalsy Hship]].
    + rewrite (held_number_truthy _ z Hz Hown). simpl.
      by apply normalize_held_number.
    + rewrite Hfalsy. simpl. by apply normalize_held_number.
  - rewrite normalize_pedido_nf. by apply normalize_held_number.
Qed.

Lemma order_keys_agree_witness :
  0 < 555
  ∧ Preventivos.extract_pedido (Examples.occurrence "1" (PyInt 555)) = "555"
  ∧ Preventivos.normalize_pedido (PyStr "555.0") = "555".
Proof.
  split; [lia|].
  apply (order_keys_agree (Examples.occurrence "1" (PyInt 555)) (PyStr "555.0") 555).
  - lia.
  - left. by left.
  - right. by right.
Defined.

(** X11: the key [extract_pedido] reads off a record is in normal form:
    normalizing it again, as a cell of the sheet would be, leaves it as it
    is.  The record's own order number is used whenever it is truthy; when
    it is absent, null, empty or the number zero, the key is the one of the
    order under [embarque]. *)
Theorem extract_pedido_normal_form (it : item) :
  Preventivos.normalize_pedido (PyStr (Preventivos.extract_pedido it))
  = Preventivos.extract_pedido it
  ∧ strip (Preventivos.extract_pedido it) = Preventivos.extract_pedido it
  ∧ (pedido_numero it = PyNone ∨ pedido_numero it = PyStr ""
     ∨ pedido_numero it = PyInt 0 →
     Preventivos.extract_pedido it
     = Preventivos.normalize_pedido (embarque_numero it))
  ∧ (truthy (pedido_numero it) = true →
     Preventivos.extract_pedido it
     = Preventivos.normalize_pedido (pedido_numero it)).
Proof.
  unfold Preventivos.extract_pedido.
  fold (pedido_numero it). fold (embarque_numero it).
  set (key := if negb (truthy (pedido_numero it))
              then embarque_numero it else pedido_numero it).
  rewrite !normalize_pedido_nf.
  destruct (normalize_nf_stable key) as [Hstrip Hfrac].
  split_and!.
  - by apply normalize_nf_fixed.
  - done.
  - unfold key. by intros [->|[->| ->]].
  - unfold key. by intros ->.
Qed.

Lemma extract_pedido_normal_form_witness :
  pedido_numero MoreExamples.zero_order = PyInt 0
  ∧ Preventivos.extract_pedido MoreExamples.zero_order
    = Preventivos.normalize_pedido (embarque_numero MoreExamples.zero_order).
Proof.
  split; [reflexivity|].
  apply (proj1 (proj2 (proj2 (extract_pedido_normal_form MoreExamples.zero_order)))).
  right. by right.
Defined.

(** *** Statuses only rise *)

Lemma status_rank_expected default items more :
  status_rank default = 0%nat →
  (status_rank (expected_status default items)
   ≤ status_rank (expected_status default (items ++ more)))%nat.
Proof.
  intros Hdefault. unfold expected_status. rewrite !any_code_app.
  destruct (any_code ENTREGUE_CODES items), (any_code ENTREGUE_CODES more),
    (any_code CANCELADO_CODES items), (any_code CANCELADO_CODES more);
    cbn [orb]; cbv iota;
    change (status_rank "ENTREGUE") with 2%nat;
    change (status_rank "CANCELADO") with 1%nat; rewrite ?Hdefault; lia.
Qed.

(** X12: more records never lower a status.  When records are added to
    the ones already seen, the invoice script's status of the list, and the
    order script's status of every order, stays as it is or rises from the
    default to CANCELADO or ENTREGUE, or from CANCELADO to ENTREGUE; an
    ENTREGUE is never lost. *)
Theorem statuses_only_rise (items more : list item) (pedidos : list string) :
  (status_rank (Cobranca.classify items)
   ≤ status_rank (Cobranca.classify (items ++ more)))%nat
  ∧ (∀ k st, status_table pedidos items !! k = Some st →
       ∃ st', status_table pedidos (items ++ more) !! k = Some st'
              ∧ (status_rank st ≤ status_rank st')%nat)
  ∧ (Cobranca.classify items = "ENTREGUE" →
       Cobranca.classify (items ++ more) = "ENTREGUE").
Proof.
  split_and!.
  - rewrite !cobranca_classify_expected. apply status_rank_expected.
    by vm_compute.
  - intros k st. rewrite !status_table_lookup.
    destruct (decide (k ∈ pedidos)); [|done]. intros [= <-].
    eexists. split; [done|].
    unfold records_of. rewrite filter_app. apply status_rank_expected.
    by vm_compute.
  - rewrite !cobranca_classify_expected. unfold expected_status.
    rewrite any_code_app.
    by destruct (any_code ENTREGUE_CODES items),
      (any_code CANCELADO_CODES items).
Qed.

Lemma statuses_only_rise_witness :
  Cobranca.classify [Examples.occurrence "1" (PyStr "555")] = "ENTREGUE"
  ∧ Cobranca.classify ([Examples.occurrence "1" (PyStr "555")]
                       ++ [Examples.occurrence "25" (PyStr "555")])
    = "ENTREGUE".
Proof.
  split; [reflexivity|].
  apply (proj2 (proj2 (statuses_only_rise [Examples.occurrence "1" (PyStr "555")]
                         [Examples.occurrence "25" (PyStr "555")] []))).
  reflexivity.
Defined.

End KeyFacts.

(** ** The output range and what [main] writes *)

Module SheetFacts.
Import Py Shared Spec Props PyFacts NormalizeFacts PureFacts.

Lemma isalpha_not_space c : isspace c = true → isalpha c = false.
Proof. destruct c as [[] [] [] [] [] [] [] []]; by vm_compute. Qed.

Lemma isalpha_not_colon c : isalpha c = true → Ascii.eqb c ":" = false.
Proof. destruct c as [[] [] [] [] [] [] [] []]; by vm_compute. Qed.

Lemma keep_chars_lstrip p s :
  (∀ c, isspace c = true → p c = false) →
  keep_chars p (lstrip s) = keep_chars p s.
Proof.
  intros Hp. induction s as [|c r IH]; [done|]. simpl.
  destruct (isspace c) eqn:Hc; [|done]. by rewrite (Hp c Hc).
Qed.

Lemma keep_chars_rstrip p s :
  (∀ c, isspace c = true → p c = false) →
  keep_chars p (rstrip s) = keep_chars p s.
Proof.
  intros Hp. induction s as [|c r IH]; [done|].
  rewrite rstrip_cons. cbn [keep_chars]. rewrite <-IH.
  destruct (rstrip r) as [|c' r'].
  - destruct (isspace c) eqn:Hc; [by rewrite (Hp c Hc)|done].
  - done.
Qed.

Lemma keep_chars_strip p s :
  (∀ c, isspace c = true → p c = false) →
  keep_chars p (strip s) = keep_chars p s.
Proof.
  intros Hp. unfold strip. by rewrite keep_chars_rstrip, keep_chars_lstrip.
Qed.

Lemma contains_char_app sep s t :
  contains_char sep (s +:+ t) = contains_char sep s || contains_char sep t.
Proof.
  induction s as [|c r IH]; [done|].
  change (String c r +:+ t) with (String c (r +:+ t)). simpl.
  by rewrite IH, orb_assoc.
Qed.

Lemma before_char_app sep s t :
  contains_char sep s = false →
  before_char sep (s +:+ t) = s +:+ before_char sep t.
Proof.
  induction s as [|c r IH]; [done|].
  change (String c r +:+ t) with (String c (r +:+ t)). simpl.
  intros [Hc Hr]%orb_false_iff. rewrite Hc, IH by done. done.
Qed.

Lemma after_char_app sep s t :
  contains_char sep s = false →
  after_char sep (s +:+ String sep t) = t.
Proof.
  induction s as [|c r IH].
  - intros _. simpl. by rewrite Ascii.eqb_refl.
  - change (String c r +:+ String sep t) with (String c (r +:+ String sep t)).
    simpl. intros [Hc Hr]%orb_false_iff. rewrite Hc. by apply IH.
Qed.

Lemma string_app_nil_r (s : string) : s +:+ "" = s.
Proof.
  induction s as [|c r IH]; [done|].
  change (String c r +:+ "") with (String c (r +:+ "")). by rewrite IH.
Qed.

Lemma letters_no_colon s : all_chars isalpha s = true → contains_char ":" s = false.
Proof.
  induction s as [|c r IH]; [done|]. simpl.
  intros [Hc Hr]%andb_true_iff. by rewrite (isalpha_not_colon c Hc), IH.
Qed.

(** The range [build_output_range] builds from a range with a sheet name. *)
Lemma build_output_range_parsed sheet cols (n : Z) :
  contains_char "!" sheet = false →
  Cobranca.build_output_range (sheet +:+ "!" +:+ cols) n
  = let letters := keep_chars isalpha (before_char ":" cols) in
    if String.eqb letters "" then sheet +:+ "!" +:+ cols
    else sheet +:+ "!" +:+ letters +:+ "1:" +:+ letters +:+ pretty (Z.max n 1).
Proof.
  intros Hsheet. unfold Cobranca.build_output_range.
  rewrite contains_char_app. change (contains_char "!" ("!" +:+ cols)) with true.
  rewrite orb_true_r. cbn [negb].
  change ("!" +:+ cols) with (String "!" cols).
  rewrite after_char_app by done.
  rewrite before_char_app by done.
  change (before_char "!" (String "!" cols)) with "".
  rewrite string_app_nil_r.
  rewrite keep_chars_strip by apply isalpha_not_space. done.
Qed.

(** X13: [build_output_range] keeps the sheet and the letters of the first
    column of a range [sheet!cols] and makes it run from row 1 to the given
    row count (to row 1 when the count is below 1); a range whose first
    column has no letter is returned as it is.  Applied to its own result
    with another row count, it gives the range of that row count. *)
Theorem output_range_rows (sheet cols : string) (n m : Z) :
  contains_char "!" sheet = false →
  let r := sheet +:+ "!" +:+ cols in
  let letters := keep_chars isalpha (before_char ":" cols) in
  (letters ≠ "" →
   Cobranca.build_output_range r n
   = sheet +:+ "!" +:+ letters +:+ "1:" +:+ letters +:+ pretty (Z.max n 1))
  ∧ (letters = "" → Cobranca.build_output_range r n = r)
  ∧ Cobranca.build_output_range (Cobranca.build_output_range r n) m
    = Cobranca.build_output_range r m.
Proof.
  intros Hsheet. cbv zeta.
  set (letters := keep_chars isalpha (before_char ":" cols)).
  rewrite !(build_output_range_parsed sheet cols) by done. cbv zeta.
  fold letters.
  destruct (String.eqb_spec letters "") as [Hnone|Hsome].
  - split_and!; [done|done|].
    rewrite build_output_range_parsed by done. cbv zeta. fold letters.
    by rewrite Hnone.
  - split_and!; [done|done|].
    assert (all_chars isalpha letters = true) as Hletters by apply keep_chars_all.
    rewrite (build_output_range_parsed sheet) by done. cbv zeta.
    rewrite before_char_app by by apply letters_no_colon.
    change (before_char ":" ("1:" +:+ letters +:+ pretty (Z.max n 1))) with "1".
    rewrite keep_chars_app, keep_chars_id by done.
    change (keep_chars isalpha "1") with "". rewrite string_app_nil_r.
    by destruct (String.eqb_spec letters "").
Qed.

Lemma output_range_rows_witness :
  contains_char "!" "RETORNO" = false
  ∧ Cobranca.build_output_range "RETORNO!K:K" 5 = "RETORNO!K1:K5".
Proof.
  split; [reflexivity|].
  apply (proj1 (output_range_rows "RETORNO" "K:K" 5 5 eq_refl)). done.
Defined.

End SheetFacts.

(** ** What a run writes to the sheet and to the file *)

Module WriteFacts.
Import Py Shared Spec Props PyFacts NormalizeFacts ApiFacts ClassifierFacts
  ResolverFacts MainFacts PureFacts SheetFacts.

Lemma expected_status_resolved default items :
  resolved default (expected_status default items).
Proof.
  unfold expected_status, resolved.
  destruct (any_code ENTREGUE_CODES items); [by left|].
  destruct (any_code CANCELADO_CODES items); [right; by left|right; by right].
Qed.

Lemma invoice_table_resolved w pares s m s' k st :
  Cobranca.resolver_status w pares s = (Returns m, s') →
  m !! k = Some st → resolved "-" st.
Proof.
  intros Hrun Hk.
  destruct (invoices_resolve_table w pares s m s' Hrun) as (fetched & Hlen & ->).
  assert (k ∈ (zip pares fetched).*1) as Hin.
  { apply (elem_of_list_to_set (C := gset (string * string))).
    rewrite <-invoice_table_dom. apply elem_of_dom. by eexists. }
  destruct (invoice_table_lookup _ k Hin) as (recs & _ & Hst).
  rewrite Hst in Hk. injection Hk as <-. apply expected_status_resolved.
Qed.

Lemma order_table_resolved w pedidos s m s' k st :
  Preventivos.resolver_status w pedidos s = (Returns m, s') →
  m !! k = Some st → resolved "DESPACHADO" st.
Proof.
  intros Hrun Hk.
  destruct (orders_resolve_table w pedidos s m s' Hrun) as (recs & ->).
  rewrite status_table_lookup in Hk. case_decide; [|done].
  injection Hk as <-. apply expected_status_resolved.
Qed.

Lemma invoice_keys_rows (values : list (list value)) :
  invoice_keys values
  = invoice_key <$> data_rows (invoice_has_header values) values.
Proof. by destruct values. Qed.

Lemma order_keys_rows (values : list (list value)) :
  order_keys values = order_key <$> data_rows (order_has_header values) values.
Proof.
  destruct values as [|first rest]; [done|].
  unfold order_keys, order_has_header, data_rows.
  cbn [Preventivos.load_pedidos_from_sheet fst snd].
  rewrite <-fmap_drop, <-list_fmap_compose. done.
Qed.

(** The header row, when there is one, is a row of the sheet. *)
Lemma data_rows_length {A} (has_header : bool) (rows : list A) :
  rows ≠ [] →
  ((if has_header then 1 else 0) + length (data_rows has_header rows)
   = length rows)%nat.
Proof.
  intros Hne. unfold data_rows. rewrite length_drop.
  destruct rows; [done|]. destruct has_header; simpl; lia.
Qed.

Lemma invoice_run_main out w (values : list (list value)) s :
  values ≠ [] →
  Cobranca.run_main out w values s
  = (status_map ← Cobranca.resolver_status w (invoice_lookups values);
     let rows :=
       Cobranca.export_rows
         (filter (λ par, Cobranca.invalid par = false) (invoice_keys values))
         status_map in
     mret (Some {| Cobranca.to_sheet :=
                     Cobranca.update_status_in_sheet out
                       (Z.of_nat (length values))
                       (Cobranca.statuses_of (invoice_keys values) status_map)
                       (invoice_has_header values);
                   Cobranca.to_file :=
                     match rows with [] => None | _ => Some rows end |})) s.
Proof. by destruct values. Qed.

Lemma order_run_main out w (values : list (list value)) s :
  values ≠ [] →
  Preventivos.run_main out w values s
  = (status_map ← Preventivos.resolver_status w (order_lookups values);
     let rows :=
       Preventivos.export_rows (Preventivos.load_pedidos_from_sheet values).1.1
         status_map in
     mret (Some {| Preventivos.to_sheet :=
                     Preventivos.update_status_in_sheet out
                       (Z.of_nat (length values))
                       ((λ k, if String.eqb k "" then ""
                              else default "DESPACHADO" (status_map !! k))
                        <$> order_keys values)
                       (order_has_header values);
                   Preventivos.to_file :=
                     match rows with [] => None | _ => Some rows end |})) s.
Proof.
  destruct values as [|first rest]; [done|]. intros _.
  unfold Preventivos.run_main, order_lookups, order_keys, order_has_header,
    data_rows.
  cbn [Preventivos.load_pedidos_from_sheet fst snd].
  rewrite !fmap_cons. cbv iota. rewrite !bind_run.
  destruct (Preventivos.resolver_status w _ s) as [[m|e] s1]; [|done].
  run_m. unfold Preventivos.statuses_of.
  rewrite <-list_fmap_compose. cbn [length]. by rewrite length_fmap.
Qed.

(** The order list of the sheet: the keys of the data rows that are
    neither empty nor [nan]. *)
Lemma order_list_valid_keys (values : list (list value)) :
  (Preventivos.load_pedidos_from_sheet values).1.1
  = filter (λ k, order_key_valid k = true) (order_keys values).
Proof. by destruct values. Qed.

Lemma data_rows_written {A} (has_header : bool) (first : A) (rows : list A) :
  data_rows has_header ((if has_header then [first] else []) ++ rows) = rows.
Proof. by destruct has_header. Qed.

(** A run that writes has read a sheet with rows and got a table. *)
Lemma invoice_run_written out w (values : list (list value)) s wr :
  (Cobranca.run_main out w values s).1 = Returns (Some wr) →
  values ≠ []
  ∧ ∃ table s',
      Cobranca.resolver_status w (invoice_lookups values) s = (Returns table, s')
      ∧ wr = {| Cobranca.to_sheet :=
                  Cobranca.update_status_in_sheet out
                    (Z.of_nat (length values))
                    (Cobranca.statuses_of (invoice_keys values) table)
                    (invoice_has_header values);
                Cobranca.to_file :=
                  saved (Cobranca.export_rows
                           (filter (λ par, Cobranca.invalid par = false)
                              (invoice_keys values)) table) |}.
Proof.
  destruct (decide (values = [])) as [->|Hne].
  { by intros [=]. }
  rewrite invoice_run_main by done. rewrite bind_run.
  destruct (Cobranca.resolver_status w _ s) as [[table|e] s1]; [|by intros [=]].
  run_m. intros [= <-]. split; [done|]. by exists table, s1.
Qed.

Lemma order_run_written out w (values : list (list value)) s wr :
  (Preventivos.run_main out w values s).1 = Returns (Some wr) →
  values ≠ []
  ∧ ∃ table s',
      Preventivos.resolver_status w (order_lookups values) s = (Returns table, s')
      ∧ wr = {| Preventivos.to_sheet :=
                  Preventivos.update_status_in_sheet out
                    (Z.of_nat (length values))
                    ((λ k, if String.eqb k "" then ""
                           else default "DESPACHADO" (table !! k))
                     <$> order_keys values)
                    (order_has_header values);
                Preventivos.to_file :=
                  saved (Preventivos.export_rows
                           (Preventivos.load_pedidos_from_sheet values).1.1
                           table) |}.
Proof.
  destruct (decide (values = [])) as [->|Hne].
  { by intros [=]. }
  rewrite order_run_main by done. rewrite bind_run.
  destruct (Preventivos.resolver_status w _ s) as [[table|e] s1]; [|by intros [=]].
  run_m. intros [= <-]. split; [done|]. by exists table, s1.
Qed.

Lemma default_resolved d (st : option string) :
  (∀ x, st = Some x → resolved d x) → resolved d (default d st).
Proof. destruct st as [x|]; [by intros H; apply H|]. intros _. right. by right. Qed.

Lemma resolved_not_blank d st : d ≠ "" → resolved d st → st ≠ "".
Proof. by intros Hd [->|[->| ->]]. Qed.

(** Pairing keys with the one-cell rows of their statuses, and keeping the
    pairs of some keys. *)
Lemma zip_filter_fmap {K R} (P : K → Prop) `{Hdec : ∀ k, Decision (P k)}
    (f g : K → string) (mk : K → R) (proj : R → K * list string) keys :
  (∀ k, P k → f k = g k) → (∀ k, proj (mk k) = (k, [g k])) →
  proj <$> (mk <$> filter P keys)
  = filter (λ kc, P kc.1) (zip keys ((λ st, [st]) <$> (f <$> keys))).
Proof.
  intros Hfg Hproj. induction keys as [|k rest IH]; [done|].
  rewrite !fmap_cons. cbn [zip zip_with]. rewrite !filter_cons. simpl.
  destruct (decide (P k)) as [Hk|Hk]; [|done].
  rewrite !fmap_cons, Hproj, IH, (Hfg k Hk). done.
Qed.

Lemma saved_none {A} (rows : list A) : saved rows = None ↔ rows = [].
Proof. by destruct rows. Qed.

Lemma fmap_none {A B} (f : A → B) (l : list A) : f <$> l = [] ↔ l = [].
Proof. by destruct l. Qed.

Lemma filter_none {A} (P : A → Prop) `{Hdec : ∀ x, Decision (P x)} (l : list A) :
  filter P l = [] ↔ Forall (λ x, ¬ P x) l.
Proof.
  induction l as [|x l IH]; [done|]. rewrite filter_cons, Forall_cons.
  destruct (decide (P x)); [|by rewrite IH; tauto].
  split; [done|]. by intros [? _].
Qed.

(** X14: whenever the invoice script writes, its update of the sheet has
    one cell for each row that was read, in the column of [SHEET_RANGE_OUTPUT]
    from row 1 to the last row read: the text STATUS on the header row when
    there is one, and on each data row the status of that row's key, blank
    for a row without invoice number or company id and otherwise one of
    ENTREGUE, CANCELADO and ["-"]. *)
Theorem invoice_sheet_update (out : string) (w : world)
    (values : list (list value)) (s : api) (wr : Cobranca.written) :
  (Cobranca.run_main out w values s).1 = Returns (Some wr) →
  let header := invoice_has_header values in
  let cells := update_values (Cobranca.to_sheet wr) in
  update_range (Cobranca.to_sheet wr)
  = Cobranca.build_output_range out (Z.of_nat (length values))
  ∧ length cells = length values
  ∧ (header = true → cells !! 0%nat = Some ["STATUS"])
  ∧ ∀ (i : nat) row, data_rows header values !! i = Some row →
      ∃ st, data_rows header cells !! i = Some [st]
            ∧ if Cobranca.invalid (invoice_key row) then st = ""
              else resolved "-" st.
Proof.
  intros Hrun. cbv zeta.
  destruct (invoice_run_written out w values s wr Hrun)
    as (Hne & table & s' & Htable & ->).
  cbn [Cobranca.to_sheet Cobranca.update_status_in_sheet update_range update_values].
  pose proof (data_rows_length (invoice_has_header values) values Hne) as Hrows.
  set (statuses := Cobranca.statuses_of (invoice_keys values) table).
  assert (length statuses = length (data_rows (invoice_has_header values) values))
    as Hstatuses.
  { unfold statuses, Cobranca.statuses_of.
    by rewrite length_fmap, invoice_keys_rows, length_fmap. }
  assert (length ((if invoice_has_header values then [["STATUS"]] else [])
                  ++ ((λ st, [st]) <$> statuses)) = length values) as Hcells.
  { rewrite length_app, length_fmap, Hstatuses.
    destruct (invoice_has_header values); simpl in *; lia. }
  split_and!.
  - rewrite Hcells. f_equal. lia.
  - done.
  - by intros ->.
  - intros i row Hrow.
    assert (data_rows (invoice_has_header values)
              ((if invoice_has_header values then [["STATUS"]] else [])
               ++ ((λ st, [st]) <$> statuses))
            = (λ st, [st]) <$> statuses) as ->.
    { unfold data_rows. by destruct (invoice_has_header values). }
    unfold statuses, Cobranca.statuses_of.
    rewrite invoice_keys_rows, !list_lookup_fmap, Hrow. simpl.
    eexists. split; [done|].
    destruct (Cobranca.invalid (invoice_key row)); [done|].
    apply default_resolved. intros st Hst.
    by eapply invoice_table_resolved.
Qed.

Lemma invoice_example_run :
  (Cobranca.run_main "RETORNO!K:K" Examples.w_not_found Examples.invoice_sheet
     initial_api).1
  = Returns (Some MoreExamples.invoice_sheet_written).
Proof. vm_compute. reflexivity. Qed.

Lemma order_example_run :
  (Preventivos.run_main "PREVENTIVOS!D:D" Examples.w_not_found
     Examples.order_sheet initial_api).1
  = Returns (Some MoreExamples.order_sheet_written).
Proof. vm_compute. reflexivity. Qed.

Lemma invoice_sheet_update_witness :
  (Cobranca.run_main "RETORNO!K:K" Examples.w_not_found Examples.invoice_sheet
     initial_api).1
  = Returns (Some MoreExamples.invoice_sheet_written)
  ∧ update_range (Cobranca.to_sheet MoreExamples.invoice_sheet_written)
    = Cobranca.build_output_range "RETORNO!K:K" 3
  ∧ length (update_values (Cobranca.to_sheet MoreExamples.invoice_sheet_written))
    = length Examples.invoice_sheet.
Proof.
  split; [exact invoice_example_run|].
  pose proof (invoice_sheet_update "RETORNO!K:K" Examples.w_not_found
                Examples.invoice_sheet initial_api
                MoreExamples.invoice_sheet_written invoice_example_run) as H.
  exact (conj (proj1 H) (proj1 (proj2 H))).
Defined.

(** X15: whenever the order script writes, its update of the sheet has one
    cell for each row that was read, always in column B of the sheet named
    in [SHEET_RANGE_OUTPUT], whatever column that range names, from row 1
    to the last row read: the text STATUS on the header row when there is
    one, and on each data row the status of that row's key, blank for a row
    without order number and otherwise one of ENTREGUE, CANCELADO and
    DESPACHADO. *)
Theorem order_sheet_update (out : string) (w : world)
    (values : list (list value)) (s : api) (wr : Preventivos.written) :
  (Preventivos.run_main out w values s).1 = Returns (Some wr) →
  let header := order_has_header values in
  let cells := update_values (Preventivos.to_sheet wr) in
  update_range (Preventivos.to_sheet wr)
  = before_char "!" out +:+ "!B1:B" +:+ pretty (Z.of_nat (length values))
  ∧ length cells = length values
  ∧ (header = true → cells !! 0%nat = Some ["STATUS"])
  ∧ ∀ (i : nat) row, data_rows header values !! i = Some row →
      ∃ st, data_rows header cells !! i = Some [st]
            ∧ if String.eqb (order_key row) "" then st = ""
              else resolved "DESPACHADO" st.
Proof.
  intros Hrun. cbv zeta.
  destruct (order_run_written out w values s wr Hrun)
    as (Hne & table & s' & Htable & ->).
  cbn [Preventivos.to_sheet Preventivos.update_status_in_sheet
       update_range update_values].
  pose proof (data_rows_length (order_has_header values) values Hne) as Hrows.
  set (statuses := (λ k, if String.eqb k "" then ""
                         else default "DESPACHADO" (table !! k))
                   <$> order_keys values).
  assert (length statuses = length (data_rows (order_has_header values) values))
    as Hstatuses.
  { unfold statuses. by rewrite length_fmap, order_keys_rows, length_fmap. }
  assert (length ((if order_has_header values then [["STATUS"]] else [])
                  ++ ((λ st, [st]) <$> statuses)) = length values) as Hcells.
  { rewrite length_app, length_fmap, Hstatuses.
    destruct (order_has_header values); simpl in *; lia. }
  split_and!.
  - rewrite Hcells, Z.max_id.
    destruct (Z.ltb_spec 0 (Z.of_nat (length values))) as [_|Hzero]; [done|].
    destruct values; [done|]. simpl in Hzero. lia.
  - done.
  - by intros ->.
  - intros i row Hrow.
    assert (data_rows (order_has_header values)
              ((if order_has_header values then [["STATUS"]] else [])
               ++ ((λ st, [st]) <$> statuses))
            = (λ st, [st]) <$> statuses) as ->.
    { unfold data_rows. by destruct (order_has_header values). }
    unfold statuses.
    rewrite order_keys_rows, !list_lookup_fmap, Hrow. simpl.
    eexists. split; [done|].
    destruct (String.eqb (order_key row) ""); [done|].
    apply default_resolved. intros st Hst.
    by eapply order_table_resolved.
Qed.

Lemma order_sheet_update_witness :
  (Preventivos.run_main "PREVENTIVOS!D:D" Examples.w_not_found
     Examples.order_sheet initial_api).1
  = Returns (Some MoreExamples.order_sheet_written)
  ∧ update_range (Preventivos.to_sheet MoreExamples.order_sheet_written)
    = before_char "!" "PREVENTIVOS!D:D" +:+ "!B1:B" +:+ pretty 5
  ∧ length (update_values (Preventivos.to_sheet MoreExamples.order_sheet_written))
    = length Examples.order_sheet.
Proof.
  split; [exact order_example_run|].
  pose proof (order_sheet_update "PREVENTIVOS!D:D" Examples.w_not_found
                Examples.order_sheet initial_api
                MoreExamples.order_sheet_written order_example_run) as H.
  exact (conj (proj1 H) (proj1 (proj2 H))).
Defined.

(** X16: the file of the invoice script agrees with the sheet: its rows
    are, in sheet order and with repetitions, the data rows that have both
    an invoice number and a company id, each with the key of the row and
    the status written on that row of the sheet; no file is saved exactly
    when the sheet has no such row. *)
Theorem invoice_file_rows (out : string) (w : world)
    (values : list (list value)) (s : api) (wr : Cobranca.written) :
  (Cobranca.run_main out w values s).1 = Returns (Some wr) →
  let written_rows :=
    zip (invoice_keys values)
        (data_rows (invoice_has_header values)
           (update_values (Cobranca.to_sheet wr))) in
  ∃ rows,
    Cobranca.to_file wr = saved rows
    ∧ (λ r, ((Cobranca.row_nf r, Cobranca.row_cnpj r), [Cobranca.row_status r]))
        <$> rows
      = filter (λ kc, Cobranca.invalid kc.1 = false) written_rows
    ∧ (Cobranca.to_file wr = None
       ↔ Forall (λ par, Cobranca.invalid par = true) (invoice_keys values)).
Proof.
  intros Hrun. cbv zeta.
  destruct (invoice_run_written out w values s wr Hrun)
    as (Hne & table & s' & Htable & ->).
  cbn [Cobranca.to_sheet Cobranca.to_file Cobranca.update_status_in_sheet
       update_values].
  eexists. split; [done|].
  assert (data_rows (invoice_has_header values)
            ((if invoice_has_header values then [["STATUS"]] else [])
             ++ ((λ st, [st]) <$> Cobranca.statuses_of (invoice_keys values) table))
          = (λ st, [st]) <$> Cobranca.statuses_of (invoice_keys values) table) as ->.
  { unfold data_rows. by destruct (invoice_has_header values). }
  split.
  - unfold Cobranca.export_rows, Cobranca.statuses_of.
    apply (zip_filter_fmap (λ par, Cobranca.invalid par = false)
             (Hdec := λ par, decide_rel eq (Cobranca.invalid par) false)
             (λ par, if Cobranca.invalid par then ""
                     else default "-" (table !! par))
             (λ par, default "-" (table !! par))
             (λ par, {| Cobranca.row_nf := par.1; Cobranca.row_cnpj := par.2;
                        Cobranca.row_status := default "-" (table !! par) |})
             (λ r, ((Cobranca.row_nf r, Cobranca.row_cnpj r),
                    [Cobranca.row_status r]))).
    + by intros par ->.
    + by intros [nf cnpj].
  - rewrite saved_none. unfold Cobranca.export_rows.
    rewrite fmap_none, filter_none.
    apply Forall_proper; [|done]. intros par.
    by destruct (Cobranca.invalid par).
Qed.

Lemma invoice_file_rows_witness :
  (Cobranca.run_main "RETORNO!K:K" Examples.w_not_found Examples.invoice_sheet
     initial_api).1
  = Returns (Some MoreExamples.invoice_sheet_written)
  ∧ ∃ rows,
      Cobranca.to_file MoreExamples.invoice_sheet_written = saved rows
      ∧ (λ r, ((Cobranca.row_nf r, Cobranca.row_cnpj r), [Cobranca.row_status r]))
          <$> rows
        = filter (λ kc, Cobranca.invalid kc.1 = false)
            (zip (invoice_keys Examples.invoice_sheet)
               (data_rows (invoice_has_header Examples.invoice_sheet)
                  (update_values
                     (Cobranca.to_sheet MoreExamples.invoice_sheet_written))))
      ∧ (Cobranca.to_file MoreExamples.invoice_sheet_written = None
         ↔ Forall (λ par, Cobranca.invalid par = true)
             (invoice_keys Examples.invoice_sheet)).
Proof.
  split; [exact invoice_example_run|].
  exact (invoice_file_rows "RETORNO!K:K" Examples.w_not_found
           Examples.invoice_sheet initial_api
           MoreExamples.invoice_sheet_written invoice_example_run).
Defined.

(** X17: the file of the order script agrees with the sheet: its rows are,
    in sheet order and with repetitions, the data rows whose key is neither
    empty nor the text [nan], each with the key of the row and the status
    written on that row of the sheet; a [nan] row has a status on the sheet
    and no row in the file. *)
Theorem order_file_rows (out : string) (w : world)
    (values : list (list value)) (s : api) (wr : Preventivos.written) :
  (Preventivos.run_main out w values s).1 = Returns (Some wr) →
  let written_rows :=
    zip (order_keys values)
        (data_rows (order_has_header values)
           (update_values (Preventivos.to_sheet wr))) in
  ∃ rows,
    Preventivos.to_file wr = saved rows
    ∧ (λ r, (Preventivos.row_pedido r, [Preventivos.row_status r])) <$> rows
      = filter (λ kc, order_key_valid kc.1 = true) written_rows
    ∧ (Preventivos.to_file wr = None
       ↔ Forall (λ k, order_key_valid k = false) (order_keys values)).
Proof.
  intros Hrun. cbv zeta.
  destruct (order_run_written out w values s wr Hrun)
    as (Hne & table & s' & Htable & ->).
  cbn [Preventivos.to_sheet Preventivos.to_file
       Preventivos.update_status_in_sheet update_values].
  eexists. split; [done|].
  set (f := λ k, if String.eqb k "" then ""
                 else default "DESPACHADO" (table !! k)).
  assert (data_rows (order_has_header values)
            ((if order_has_header values then [["STATUS"]] else [])
             ++ ((λ st, [st]) <$> (f <$> order_keys values)))
          = (λ st, [st]) <$> (f <$> order_keys values)) as ->.
  { unfold data_rows. by destruct (order_has_header values). }
  pose proof (order_list_valid_keys values) as Hlist.
  assert (filter (λ p, negb (String.eqb p "") = true)
            (filter (λ k, order_key_valid k = true) (order_keys values))
          = filter (λ k, order_key_valid k = true) (order_keys values)) as Hdead.
  { rewrite list_filter_filter. apply list_filter_iff. intros k.
    unfold order_key_valid. rewrite andb_true_iff. tauto. }
  unfold Preventivos.export_rows. rewrite Hlist, Hdead.
  split.
  - apply (zip_filter_fmap (λ k, order_key_valid k = true)
             (Hdec := λ k, decide_rel eq (order_key_valid k) true) f
             (λ k, default "DESPACHADO" (table !! k))
             (λ k, {| Preventivos.row_pedido := k;
                      Preventivos.row_status := default "DESPACHADO" (table !! k) |})
             (λ r, (Preventivos.row_pedido r, [Preventivos.row_status r]))).
    + intros k Hk. unfold f. unfold order_key_valid in Hk.
      apply andb_true_iff in Hk as [Hk _]. by destruct (String.eqb k "").
    + done.
  - rewrite saved_none, fmap_none, filter_none.
    apply Forall_proper; [|done]. intros k.
    by destruct (order_key_valid k).
Qed.

Lemma order_file_rows_witness :
  (Preventivos.run_main "PREVENTIVOS!D:D" Examples.w_not_found
     Examples.order_sheet initial_api).1
  = Returns (Some MoreExamples.order_sheet_written)
  ∧ ∃ rows,
      Preventivos.to_file MoreExamples.order_sheet_written = saved rows
      ∧ (λ r, (Preventivos.row_pedido r, [Preventivos.row_status r])) <$> rows
        = filter (λ kc, order_key_valid kc.1 = true)
            (zip (order_keys Examples.order_sheet)
               (data_rows (order_has_header Examples.order_sheet)
                  (update_values
                     (Preventivos.to_sheet MoreExamples.order_sheet_written))))
      ∧ (Preventivos.to_file MoreExamples.order_sheet_written = None
         ↔ Forall (λ k, order_key_valid k = false)
             (order_keys Examples.order_sheet)).
Proof.
  split; [exact order_example_run|].
  exact (order_file_rows "PREVENTIVOS!D:D" Examples.w_not_found
           Examples.order_sheet initial_api
           MoreExamples.order_sheet_written order_example_run).
Defined.

End WriteFacts.

(** ** The requests of a run and the keys it looks up *)

Module FlowFacts.
Import Py Shared Spec Props PyFacts NormalizeFacts ApiFacts ClassifierFacts
  ResolverFacts MainFacts PureFacts ApiMore WriteFacts.

Lemma new_api_trace w s :
  ∃ s', new_api w s = (Returns tt, s') ∧ trace s' = trace s ++ [EvLogin].
Proof.
  unfold new_api, authenticate. run_m.
  destruct (http_login w _); by eexists.
Qed.

Lemma all_gets_app tr1 tr2 : all_gets (tr1 ++ tr2) = all_gets tr1 ++ all_gets tr2.
Proof. unfold all_gets. apply omap_app. Qed.

Lemma total_sleep_app tr1 tr2 :
  total_sleep (tr1 ++ tr2) = total_sleep tr1 + total_sleep tr2.
Proof.
  induction tr1 as [|[|r|z] tr1 IH]; [done|..]; simpl;
    autorewrite with events; lia.
Qed.

Lemma from_call_gets params added :
  Forall (from_call params) added →
  Forall (λ r, req_params r = params) (all_gets added).
Proof.
  induction 1 as [|[|r|z] added Hx _ IH]; [done|..]; try done.
  unfold all_gets. simpl. by constructor.
Qed.

Section Invoices.
Variable w : world.

(** A fetch of the invoice script is one call of [_request]: at most three
    calls of [session.get], all for the pair. *)
Lemma invoice_fetch_events nf cnpj s :
  ∃ added,
    trace (Cobranca.fetch_ocorrencias w nf cnpj s).2 = trace s ++ added
    ∧ Forall (λ r, req_params r = invoice_params (nf, cnpj)) (all_gets added)
    ∧ (count_logins added ≤ count_gets added ≤ 3)%nat
    ∧ 0 ≤ total_sleep added ≤ 6.
Proof.
  unfold Cobranca.fetch_ocorrencias. rewrite bind_run.
  destruct (request_call_events w (invoice_params (nf, cnpj)) 3 s)
    as (added & Htrace & Hfrom & Hcount & Hsleep & _).
  change (Z.to_nat 3) with 3%nat in Hcount.
  change (Z.max 0 3 * (Z.max 0 3 - 1)) with 6 in Hsleep.
  exists added. apply from_call_gets in Hfrom.
  unfold invoice_params in *. cbn [fst snd] in *.
  destruct (_request w _ 3 s) as [[p|e] s1]; cbn [snd] in *; by run_m.
Qed.

Lemma resolver_loop_events pares status_map s :
  ∃ added,
    trace (Cobranca.resolver_loop w pares status_map s).2 = trace s ++ added
    ∧ Forall (λ r, ∃ par, par ∈ pares ∧ req_params r = invoice_params par)
        (all_gets added)
    ∧ (count_logins added ≤ count_gets added ≤ 3 * length pares)%nat
    ∧ 0 ≤ total_sleep added ≤ 6 * Z.of_nat (length pares).
Proof.
  revert status_map s.
  induction pares as [|[nf cnpj] rest IH]; intros status_map s.
  { exists []. simpl. rewrite app_nil_r. split_and!; trace_facts. }
  cbn [Cobranca.resolver_loop]. rewrite bind_run.
  destruct (invoice_fetch_events nf cnpj s)
    as (added1 & Htrace1 & Hparams1 & Hcount1 & Hsleep1).
  assert (Forall (λ r, ∃ par, par ∈ (nf, cnpj) :: rest
                              ∧ req_params r = invoice_params par)
            (all_gets added1)) as Hfirst.
  { eapply Forall_impl; [exact Hparams1|]. intros r Hr.
    exists (nf, cnpj). split; [by left|done]. }
  destruct (Cobranca.fetch_ocorrencias w nf cnpj s) as [[recs|e] s1];
    cbn [snd] in Htrace1.
  - destruct (IH (<[(nf, cnpj) := Cobranca.classify recs]> status_map) s1)
      as (added2 & Htrace2 & Hparams2 & Hcount2 & Hsleep2).
    exists (added1 ++ added2). split_and!.
    + by rewrite Htrace2, Htrace1, <-app_assoc.
    + rewrite all_gets_app. apply Forall_app. split; [done|].
      eapply Forall_impl; [exact Hparams2|]. intros r (par & Hpar & Hr).
      exists par. split; [by right|done].
    + rewrite count_logins_app, count_gets_app. lia.
    + rewrite count_gets_app. cbn [length]. lia.
    + rewrite total_sleep_app. lia.
    + rewrite total_sleep_app. cbn [length]. lia.
  - exists added1. cbn [snd length]. split_and!; [done|done|lia|lia|lia|lia].
Qed.

End Invoices.


(** *** The requests of the order resolver *)

Section Orders.
Variable w : world.

Lemma fetch_params_page pedidos window :
  <["page" := PyInt 0]> (Preventivos.fetch_params pedidos window)
  = Preventivos.fetch_params pedidos window.
Proof.
  apply insert_id. unfold Preventivos.fetch_params. cbn [list_to_map foldr].
  rewrite lookup_insert_ne by done. by rewrite lookup_insert_eq.
Qed.

Lemma page_loop_events base pages params respostas s :
  (∃ q, params = <["page" := PyInt q]> base) →
  Forall (λ page, 0 ≤ page) pages →
  ∃ added,
    trace (Preventivos.page_loop w pages params respostas s).2 = trace s ++ added
    ∧ Forall (λ r, ∃ page, 0 ≤ page ∧ req_params r = <["page" := PyInt page]> base)
        (all_gets added).
Proof.
  intros Hparams Hpages. revert params respostas s Hparams.
  induction Hpages as [|page rest Hpage _ IH]; intros params respostas s [q ->].
  { exists []. simpl. by rewrite app_nil_r. }
  cbn [Preventivos.page_loop]. rewrite insert_insert_eq, bind_run.
  destruct (request_call_events w (<["page" := PyInt page]> base) 3 s)
    as (added1 & Htrace1 & Hfrom1 & _).
  apply from_call_gets in Hfrom1.
  assert (Forall (λ r, ∃ page, 0 ≤ page
                               ∧ req_params r = <["page" := PyInt page]> base)
            (all_gets added1)) as Hfirst.
  { eapply Forall_impl; [exact Hfrom1|]. intros r Hr. by exists page. }
  destruct (_request w _ 3 s) as [[p|e] s1]; cbn [snd] in Htrace1.
  - destruct (IH (<["page" := PyInt page]> base)
                (respostas ++ payload_respostas p) s1)
      as (added2 & Htrace2 & Hparams2); [by eexists|].
    exists (added1 ++ added2). split.
    + by rewrite Htrace2, Htrace1, <-app_assoc.
    + rewrite all_gets_app. by apply Forall_app.
  - by exists added1.
Qed.

Lemma order_fetch_events pedidos s :
  ∃ added,
    trace (Preventivos.fetch_ocorrencias w pedidos s).2 = trace s ++ added
    ∧ Forall (asks_for pedidos) (all_gets added).
Proof.
  unfold Preventivos.fetch_ocorrencias. rewrite bind_run.
  change (get_trace s) with (Returns (trace s), s). cbv iota beta zeta.
  set (base := Preventivos.fetch_params pedidos (clock w (trace s))).
  rewrite bind_run.
  destruct (request_call_events w base 3 s) as (added1 & Htrace1 & Hfrom1 & _).
  apply from_call_gets in Hfrom1.
  assert (Forall (asks_for pedidos) (all_gets added1)) as Hfirst.
  { eapply Forall_impl; [exact Hfrom1|]. intros r Hr.
    exists (clock w (trace s)), 0. split; [done|].
    by rewrite fetch_params_page. }
  destruct (_request w base 3 s) as [[p|e] s1]; cbn [snd] in Htrace1;
    [|by exists added1].
  rewrite PageFacts.range_pages.
  destruct (page_loop_events base
              (consecutive 1 (Z.to_nat (payload_total_pages p - 1))) base
              (payload_respostas p) s1)
    as (added2 & Htrace2 & Hparams2).
  { exists 0. unfold base. by rewrite fetch_params_page. }
  { apply consecutive_nonneg. lia. }
  exists (added1 ++ added2). split.
  - by rewrite Htrace2, Htrace1, <-app_assoc.
  - rewrite all_gets_app. apply Forall_app. split; [done|].
    eapply Forall_impl; [exact Hparams2|]. intros r (page & Hpage & Hr).
    by exists (clock w (trace s)), page.
Qed.

Lemma sublote_loop_events sublotes flags s :
  ∃ added,
    trace (Preventivos.sublote_loop w sublotes flags s).2 = trace s ++ added
    ∧ Forall (λ r, ∃ sublote, sublote ∈ sublotes ∧ asks_for sublote r)
        (all_gets added).
Proof.
  revert flags s. induction sublotes as [|sublote rest IH]; intros flags s.
  { exists []. simpl. by rewrite app_nil_r. }
  cbn [Preventivos.sublote_loop]. rewrite bind_run.
  destruct (order_fetch_events sublote s) as (added1 & Htrace1 & Hparams1).
  assert (Forall (λ r, ∃ sub, sub ∈ sublote :: rest ∧ asks_for sub r)
            (all_gets added1)) as Hfirst.
  { eapply Forall_impl; [exact Hparams1|]. intros r Hr.
    exists sublote. split; [by left|done]. }
  destruct (Preventivos.fetch_ocorrencias w sublote s) as [[recs|e] s1];
    cbn [snd] in Htrace1; [|by exists added1].
  destruct (IH (Preventivos.scan_items flags recs) s1)
    as (added2 & Htrace2 & Hparams2).
  exists (added1 ++ added2). split.
  - by rewrite Htrace2, Htrace1, <-app_assoc.
  - rewrite all_gets_app. apply Forall_app. split; [done|].
    eapply Forall_impl; [exact Hparams2|]. intros r (sub & Hsub & Hr).
    exists sub. split; [by right|done].
Qed.

End Orders.

(** X19: the requests of the order resolver.  [resolver_status] logs in
    once, and every request it sends afterwards asks for a run of at most
    twenty consecutive orders of the list it was given, joined by commas,
    with the page size, the status codes and the date type of
    [fetch_ocorrencias], a time window and a page number that is not
    negative. *)
Theorem order_resolver_requests (w : world) (pedidos : list string) (s : api) :
  ∃ added,
    trace (Preventivos.resolver_status w pedidos s).2 = trace s ++ EvLogin :: added
    ∧ Forall (λ r, ∃ sublote,
                 (length sublote ≤ 20)%nat
                 ∧ sublote `sublist_of` pedidos
                 ∧ (∃ before after, pedidos = before ++ sublote ++ after)
                 ∧ asks_for sublote r)
        (all_gets added).
Proof.
  unfold Preventivos.resolver_status. rewrite bind_run.
  destruct (new_api_trace w s) as (s1 & -> & Hlogin).
  rewrite (ChunkFacts.chunked_positive pedidos Preventivos.SUBLOTE_SIZE) by done.
  set (sublotes := _ <$> seq 0 _). rewrite bind_run.
  destruct (sublote_loop_events w sublotes (Preventivos.initial_flags pedidos) s1)
    as (added & Htrace & Hparams).
  exists added. split.
  - destruct (Preventivos.sublote_loop w sublotes _ s1) as [[flags|e] s2];
      cbn [snd] in Htrace; run_m; by rewrite Htrace, Hlogin, <-app_assoc.
  - eapply Forall_impl; [exact Hparams|]. intros r (sublote & Hin & Hr).
    exists sublote. unfold sublotes in Hin.
    apply list_elem_of_fmap in Hin as (k & -> & _).
    change (Z.to_nat Preventivos.SUBLOTE_SIZE) with 20%nat.
    split_and!; [| | |done].
    + rewrite length_take. lia.
    + etrans; [apply sublist_take|apply sublist_drop].
    + exists (take (k * 20) pedidos), (drop 20 (drop (k * 20) pedidos)).
      by rewrite take_drop, take_drop.
Qed.

(** *** A failed first login *)

(** A call with at least one attempt starts with a request that carries the
    stored token. *)
Lemma request_first_event w params retries s :
  0 < retries →
  ∃ more,
    trace (_request w params retries s).2
    = trace s ++ EvGet (req_of params (token s)) :: more.
Proof.
  intros Hpos. rewrite request_unfold.
  destruct (Z.to_nat retries) as [|n] eqn:En; [lia|].
  rewrite consecutive_cons, request_loop_step. cbv zeta. cbn [trace token].
  set (rq := req_of params (token s)).
  assert (∀ s1 authorization,
            trace s1 = trace s ++ [EvGet rq] ∨
            (∃ e, trace s1 = (trace s ++ [EvGet rq]) ++ [e]) →
            ∃ more,
              trace (request_loop w params retries (consecutive (1 + 1) n)
                       authorization s1).2
              = trace s ++ EvGet rq :: more) as Hrest.
  { intros s1 authorization Hs1.
    destruct (request_loop_events w params retries (consecutive (1 + 1) n)
                authorization s1) as (added & -> & _).
    { apply consecutive_nonneg. lia. }
    destruct Hs1 as [->|[e ->]]; eexists; by rewrite <-!app_assoc. }
  destruct (http_get w _) as [r|e]; [|by exists []].
  destruct (status_code r =? 401).
  - destruct (http_login w _) as [e|t]; [exists [EvLogin]; by rewrite <-app_assoc|].
    cbv zeta. destruct (token_truthy t).
    + apply Hrest. right. by eexists.
    + exists [EvLogin]. by rewrite <-app_assoc.
  - destruct (status_code r =? 404); [by exists []|].
    destruct (bind_result _ _) as [p|e]; [by exists []|].
    destruct (is_RequestException e); [|by exists []].
    destruct (1 =? retries); [by exists []|].
    apply Hrest. right. by eexists.
Qed.

Lemma new_api_failed w s e :
  http_login w (trace s ++ [EvLogin]) = LoginRaises e →
  new_api w s = (Returns tt, {| token := None; trace := trace s ++ [EvLogin] |}).
Proof. intros Hlogin. unfold new_api, authenticate. run_m. by rewrite Hlogin. Qed.

(** X20: a failed first login does not stop the invoice resolver.  When
    the login of the constructor raises, [resolver_status] still sends the
    request for its first pair, and sends it without a token. *)
Theorem failed_login_still_queries (w : world) (par : string * string)
    (rest : list (string * string)) (s : api) (e : exn) :
  http_login w (trace s ++ [EvLogin]) = LoginRaises e →
  ∃ more,
    trace (Cobranca.resolver_status w (par :: rest) s).2
    = trace s ++ EvLogin :: EvGet (req_of (invoice_params par) None) :: more.
Proof.
  intros Hlogin. destruct par as [nf cnpj].
  unfold Cobranca.resolver_status. rewrite bind_run.
  rewrite (new_api_failed w s e Hlogin).
  set (s1 := {| token := None; trace := trace s ++ [EvLogin] |}).
  cbn [Cobranca.resolver_loop]. rewrite bind_run.
  unfold Cobranca.fetch_ocorrencias. rewrite bind_run.
  destruct (request_first_event w (invoice_params (nf, cnpj)) 3 s1 ltac:(lia))
    as (first & Hfirst).
  unfold invoice_params in Hfirst. cbn [fst snd] in Hfirst.
  destruct (_request w _ 3 s1) as [[p|e'] s2]; cbn [snd] in Hfirst.
  - run_m.
    destruct (resolver_loop_events w rest
                (<[(nf, cnpj) := Cobranca.classify (payload_respostas p)]> ∅) s2)
      as (added & -> & _).
    rewrite Hfirst. unfold s1. cbn [trace token].
    eexists. by rewrite <-!app_assoc.
  - run_m. rewrite Hfirst. unfold s1. cbn [trace token].
    eexists. by rewrite <-!app_assoc.
Qed.

Lemma failed_login_still_queries_witness :
  http_login MoreExamples.w_login_down (trace initial_api ++ [EvLogin])
  = LoginRaises ConnectionError
  ∧ ∃ more,
      trace (Cobranca.resolver_status MoreExamples.w_login_down
               [Examples.some_invoice] initial_api).2
      = trace initial_api
        ++ EvLogin :: EvGet (req_of (invoice_params Examples.some_invoice) None)
           :: more.
Proof.
  split; [reflexivity|].
  apply (failed_login_still_queries MoreExamples.w_login_down
           Examples.some_invoice [] initial_api ConnectionError).
  reflexivity.
Defined.

(** *** Sheets without keys *)

Lemma invoices_resolve_none w s :
  ∃ s', Cobranca.resolver_status w [] s = (Returns ∅, s')
        ∧ trace s' = trace s ++ [EvLogin].
Proof.
  unfold Cobranca.resolver_status. rewrite bind_run.
  destruct (new_api_trace w s) as (s1 & -> & Hlogin). by exists s1.
Qed.

Lemma orders_resolve_none w s :
  ∃ s', Preventivos.resolver_status w [] s = (Returns ∅, s')
        ∧ trace s' = trace s ++ [EvLogin].
Proof.
  unfold Preventivos.resolver_status. rewrite bind_run.
  destruct (new_api_trace w s) as (s1 & -> & Hlogin). by exists s1.
Qed.

Lemma dict_fromkeys_nil {A} `{EqDecision A} : dict_fromkeys (@nil A) = [].
Proof. done. Qed.

(** X21: a sheet that has rows but no usable key costs one login and no
    request in either script: every data row gets a blank status (or
    DESPACHADO, for a row of the order sheet that holds the text [nan]),
    and no file is saved.  An empty sheet ends the run before anything is
    done. *)
Theorem keyless_sheet_runs (out : string) (w : world)
    (values : list (list value)) (s : api) :
  values ≠ [] →
  (Forall (λ par, Cobranca.invalid par = true) (invoice_keys values) →
   ∃ wr s',
     Cobranca.run_main out w values s = (Returns (Some wr), s')
     ∧ trace s' = trace s ++ [EvLogin]
     ∧ Cobranca.to_file wr = None
     ∧ data_rows (invoice_has_header values)
         (update_values (Cobranca.to_sheet wr))
       = (λ _, [""]) <$> invoice_keys values)
  ∧ (Forall (λ k, order_key_valid k = false) (order_keys values) →
     ∃ wr s',
       Preventivos.run_main out w values s = (Returns (Some wr), s')
       ∧ trace s' = trace s ++ [EvLogin]
       ∧ Preventivos.to_file wr = None
       ∧ data_rows (order_has_header values)
           (update_values (Preventivos.to_sheet wr))
         = (λ k, [if String.eqb k "" then "" else "DESPACHADO"])
           <$> order_keys values)
  ∧ Cobranca.run_main out w [] s = (Returns None, s)
  ∧ Preventivos.run_main out w [] s = (Returns None, s).
Proof.
  intros Hne. split_and!; [| |done|done].
  - intros Hinvalid.
    assert (filter (λ par, Cobranca.invalid par = false) (invoice_keys values) = [])
      as Hnone.
    { apply filter_none. eapply Forall_impl; [exact Hinvalid|].
      intros par Hpar. by rewrite Hpar. }
    rewrite invoice_run_main by done. unfold invoice_lookups.
    rewrite Hnone, dict_fromkeys_nil, bind_run.
    destruct (invoices_resolve_none w s) as (s1 & -> & Hlogin).
    eexists _, s1. split; [done|]. split; [done|]. split; [done|].
    cbn [Cobranca.to_sheet Cobranca.update_status_in_sheet update_values].
    rewrite data_rows_written. unfold Cobranca.statuses_of.
    rewrite <-list_fmap_compose. apply Forall_fmap_ext_1.
    eapply Forall_impl; [exact Hinvalid|]. intros par Hpar. simpl.
    by rewrite Hpar.
  - intros Hinvalid.
    assert (filter (λ k, order_key_valid k = true) (order_keys values) = [])
      as Hnone.
    { apply filter_none. eapply Forall_impl; [exact Hinvalid|].
      intros k Hk. by rewrite Hk. }
    rewrite order_run_main by done. unfold order_lookups.
    rewrite order_list_valid_keys, Hnone, dict_fromkeys_nil, bind_run.
    destruct (orders_resolve_none w s) as (s1 & -> & Hlogin).
    eexists _, s1. split; [done|]. split; [done|]. split; [done|].
    cbn [Preventivos.to_sheet Preventivos.update_status_in_sheet update_values].
    rewrite data_rows_written. rewrite <-list_fmap_compose.
    apply list_fmap_ext. intros _ k _. simpl. by rewrite lookup_empty.
Qed.

Lemma keyless_sheet_runs_witness :
  [[PyStr "nf"; PyStr "cnpj"]; [PyStr "124"]] ≠ []
  ∧ ∃ wr s',
      Cobranca.run_main "RETORNO!K:K" Examples.w_not_found
        [[PyStr "nf"; PyStr "cnpj"]; [PyStr "124"]] initial_api
      = (Returns (Some wr), s')
      ∧ trace s' = trace initial_api ++ [EvLogin]
      ∧ Cobranca.to_file wr = None
      ∧ data_rows (invoice_has_header [[PyStr "nf"; PyStr "cnpj"]; [PyStr "124"]])
          (update_values (Cobranca.to_sheet wr))
        = (λ _, [""]) <$> invoice_keys [[PyStr "nf"; PyStr "cnpj"]; [PyStr "124"]].
Proof.
  split; [done|].
  apply (keyless_sheet_runs "RETORNO!K:K" Examples.w_not_found
           [[PyStr "nf"; PyStr "cnpj"]; [PyStr "124"]] initial_api); [done|].
  by repeat constructor.
Defined.

(** *** The keys that are looked up *)


End FlowFacts.
